(** * ascii-pic: brightness-to-glyph conversion

    A shallow embedding of the conversion pipeline of [src/src/converter.js],
    the option validator of [src/src/utils.js] and the charset registry of
    [src/src/charsets.js], together with the properties stated about them.

    Modelling choices.
    - A JavaScript Number is an IEEE 754 binary64 value, represented by
      [spec_float] with precision 53 and maximal exponent 1024, and computed
      on with the round-to-nearest-even operations of [SpecFloat].
    - Integer-valued Numbers that stay far below 2^53 (string lengths, loop
      counters, array indices) are carried in [Z]; binary64 represents them
      exactly.  [Math.floor] therefore returns [option Z], with [None] for
      NaN and the infinities, which index nothing.
    - A JavaScript string is the list of its UTF-16 code units; option names,
      paths and error messages, which are only compared and concatenated,
      are Rocq strings.
    - [Math.pow], the image library, the file system and the clock are not
      part of the repository: [Math.pow] is an interface ([MathPow]) that
      records what ECMAScript fixes about it, the others are fields of
      [World]. *)

From Stdlib Require Import ZArith Lia Reals Lra List Bool String Ascii.
From Stdlib Require Import Floats.SpecFloat.
From stdpp Require Import gmap strings list fin_maps.

Local Open Scope Z_scope.

(** ** Numbers *)

Definition prec : Z := 53.
Definition emax : Z := 1024.
Definition number : Type := spec_float.

Definition NaN : number := S754_nan.
Definition pzero : number := S754_zero false.
Definition one : number := S754_finite false 4503599627370496 (-52).

(** Literals of the source, as the doubles the parser produces. *)
Definition lit_0_05 : number := S754_finite false 7205759403792794 (-57).
Definition lit_0_1 : number := S754_finite false 7205759403792794 (-56).
Definition lit_0_5 : number := S754_finite false 4503599627370496 (-53).
Definition lit_1_2 : number := S754_finite false 5404319552844595 (-52).
Definition lit_2_0 : number := S754_finite false 4503599627370496 (-51).
Definition lit_5_0 : number := S754_finite false 5629499534213120 (-50).

Definition of_Z (z : Z) : number := binary_normalize prec emax z 0 false.
Definition num_div : number -> number -> number := SFdiv prec emax.
Definition num_mul : number -> number -> number := SFmul prec emax.
Definition num_sub : number -> number -> number := SFsub prec emax.
(** [a < b] and [a > b]; both are false when an operand is NaN. *)
Definition num_lt (a b : number) : bool := SFltb a b.
Definition num_gt (a b : number) : bool := SFltb b a.

Definition valid (x : number) : Prop := valid_binary prec emax x = true.

Definition finite_num (x : number) : Prop :=
  match x with S754_zero _ | S754_finite _ _ _ => True | _ => False end.

Definition nonneg_num (x : number) : Prop :=
  match x with S754_zero false | S754_finite false _ _ => True | _ => False end.

Definition pos_finite (x : number) : Prop :=
  match x with S754_finite false _ _ => True | _ => False end.

(** [Math.min] and [Math.max] on two arguments: NaN is contagious and
    [-0] counts as smaller than [+0]. *)
Definition Math_min (a b : number) : number :=
  match SFcompare a b with
  | None => NaN
  | Some Lt => a
  | Some Gt => b
  | Some Eq => match a, b with
               | S754_zero true, _ => a
               | _, S754_zero true => b
               | _, _ => a
               end
  end.

Definition Math_max (a b : number) : number :=
  match SFcompare a b with
  | None => NaN
  | Some Gt => a
  | Some Lt => b
  | Some Eq => match a, b with
               | S754_zero false, _ => a
               | _, S754_zero false => b
               | _, _ => a
               end
  end.

(** [Math.floor], to an integer; [None] stands for NaN and the infinities. *)
Definition Math_floor (x : number) : option Z :=
  match x with
  | S754_zero _ => Some 0
  | S754_finite s m e =>
      let z := cond_Zopp s (Zpos m) in
      Some (if 0 <=? e then z * 2 ^ e else z / 2 ^ (- e))
  | _ => None
  end.

(** [Math.pow] is supplied by the runtime.  The interface keeps what
    ECMAScript's [Number::exponentiate] fixes on the inputs the mapper can
    produce: the result is a double; it is NaN only for a NaN operand, a
    negative base with a fractional exponent, or base 1 with an infinite
    exponent; [+0] to a positive power is [+0]; and 1 to any finite power,
    whose exact value 1 is representable, is 1. *)
Class MathPow : Type := {
  Math_pow : number -> number -> number;
  Math_pow_valid : forall b e, valid (Math_pow b e);
  Math_pow_not_nan : forall b e, nonneg_num b -> finite_num e -> Math_pow b e <> NaN;
  Math_pow_one : forall e, finite_num e -> Math_pow one e = one;
  Math_pow_zero : forall e, pos_finite e -> Math_pow pzero e = pzero
}.

(** A coarse inhabitant of the interface.  It follows the ECMAScript case
    analysis where the result is exact and returns the base itself wherever
    the standard leaves the approximation to the implementation; it is only
    evaluated on bases 0 and 1 in this development. *)
Definition Math_pow_coarse (b e : number) : number :=
  match e with
  | S754_nan => NaN
  | S754_zero _ => one
  | _ =>
      match b with
      | S754_nan => NaN
      | S754_zero false =>
          match e with
          | S754_finite false _ _ | S754_infinity false => pzero
          | _ => S754_infinity false
          end
      | S754_finite false _ _ =>
          match e with
          | S754_infinity _ => if SFeqb b one then NaN else pzero
          | _ => if valid_binary prec emax b then b else one
          end
      | S754_infinity false =>
          match e with
          | S754_finite false _ _ | S754_infinity false => b
          | _ => pzero
          end
      | _ => NaN
      end
  end.

(** The real value of a mantissa and exponent, used to state bounds. *)
Definition F2R (m e : Z) : R := (IZR m * powerRZ 2 e)%R.

Definition fexp : Z -> Z := SpecFloat.fexp prec emax.

(** A brightness in the unit interval: [+0], or a positive finite double
    whose value is at most 1. *)
Definition unit_interval (x : number) : Prop :=
  x = pzero \/ exists m e, x = S754_finite false m e /\ (F2R (Zpos m) e <= 1)%R.

(** ** Values, strings and errors *)

(** A string is the list of its UTF-16 code units. *)
Abbreviation code_unit := Z (only parsing).
Abbreviation jsstring := (list Z) (only parsing).

(** Code units of an ASCII literal. *)
Definition units (s : string) : jsstring :=
  map (fun a => Z.of_N (N_of_ascii a)) (list_ascii_of_string s).

Definition LF : code_unit := 10.

Inductive value : Type :=
| VUndefined
| VNull
| VBool (b : bool)
| VNumber (n : number)
| VString (s : string)
| VObject (id : nat).

(** Truthiness; a missing property reads as [undefined]. *)
Definition ToBoolean (v : option value) : bool :=
  match v with
  | None | Some VUndefined | Some VNull => false
  | Some (VBool b) => b
  | Some (VNumber n) =>
      match n with S754_zero _ | S754_nan => false | _ => true end
  | Some (VString s) => negb (String.eqb s "")
  | Some (VObject _) => true
  end.

Inductive error : Type := Error (message : string).

Definition message (e : error) : string := let 'Error m := e in m.

Inductive result (A : Type) : Type :=
| Ok (a : A)
| Throw (e : error).
Arguments Ok {A} a.
Arguments Throw {A} e.

(** Sequencing of calls that may throw, with stdpp's notation [x ← c; k]. *)
#[global] Instance result_bind : MBind result :=
  fun A B k r => match r with
                 | Ok a => k a
                 | Throw e => Throw e
                 end.

Definition try_catch {A : Type} (body : result A) (handler : error -> result A) : result A :=
  match body with
  | Ok a => Ok a
  | Throw e => handler e
  end.

(** [s.includes(sub)] *)
Fixpoint includes (s sub : string) : bool :=
  if String.prefix sub s then true
  else match s with
       | EmptyString => false
       | String _ s' => includes s' sub
       end.

Definition lower_ascii (a : ascii) : ascii :=
  let n := N_of_ascii a in
  if ((65 <=? n) && (n <=? 90))%N then ascii_of_N (n + 32) else a.

(** [s.toLowerCase()], on the ASCII range. *)
Fixpoint toLowerCase (s : string) : string :=
  match s with
  | EmptyString => EmptyString
  | String a s' => String (lower_ascii a) (toLowerCase s')
  end.

(** [s.split("\n")] *)
Fixpoint split_nl (s : jsstring) : list jsstring :=
  match s with
  | [] => [[]]
  | c :: rest =>
      if c =? LF then [] :: split_nl rest
      else match split_nl rest with
           | l :: ls => (c :: l) :: ls
           | [] => [[c]]
           end
  end.

(** [lines.join("\n")] *)
Fixpoint join_nl (ls : list jsstring) : jsstring :=
  match ls with
  | [] => []
  | [l] => l
  | l :: ls' => l ++ LF :: join_nl ls'
  end.

(** [arr.slice(0, e)]: a negative end counts from the back. *)
Definition slice0 {A : Type} (l : list A) (e : Z) : list A :=
  let len := Z.of_nat (length l) in
  let k := if e <? 0 then Z.max (len + e) 0 else Z.min e len in
  take (Z.to_nat k) l.

(** ** Charset registry ([src/src/charsets.js]) *)

(** The own properties of [CHARSETS], in declaration order; every glyph is
    one UTF-16 code unit. *)
Definition CHARSETS : list (string * jsstring) :=
  [ ("detailed", [64; 37; 35; 42; 43; 61; 45; 58; 46; 32]);
    ("blocks", [9608; 9609; 9610; 9611; 9612; 9613; 9614; 9615; 32]);
    ("classic", [64; 35; 83; 37; 63; 42; 43; 59; 58; 44; 46]);
    ("simple", [9608; 9608; 9619; 9618; 9617; 32]);
    ("minimal", [9608; 9619; 9617; 32]);
    ("numbers", [57; 56; 55; 54; 53; 52; 51; 50; 49; 48; 32]);
    ("binary", [9608; 32]);
    ("retro", [9619; 9618; 9617; 32]) ].

(** What a property read on [CHARSETS] can yield: one of its strings, or a
    member inherited from [Object.prototype] (a function, of which only the
    [length] matters here, or the prototype object itself). *)
Inductive charset_obj : Type :=
| CsString (s : jsstring)
| CsFunction (arity : Z)
| CsPrototype.

Definition Object_prototype : list (string * charset_obj) :=
  [ ("constructor", CsFunction 1);
    ("__defineGetter__", CsFunction 2);
    ("__defineSetter__", CsFunction 2);
    ("hasOwnProperty", CsFunction 1);
    ("__lookupGetter__", CsFunction 1);
    ("__lookupSetter__", CsFunction 1);
    ("isPrototypeOf", CsFunction 1);
    ("propertyIsEnumerable", CsFunction 1);
    ("toString", CsFunction 0);
    ("valueOf", CsFunction 0);
    ("toLocaleString", CsFunction 0);
    ("__proto__", CsPrototype) ].

Fixpoint assoc {A : Type} (k : string) (l : list (string * A)) : option A :=
  match l with
  | [] => None
  | (k', a) :: l' => if String.eqb k k' then Some a else assoc k l'
  end.

(** [CHARSETS[name]] *)
Definition CHARSETS_get (name : string) : option charset_obj :=
  match assoc name CHARSETS with
  | Some s => Some (CsString s)
  | None => assoc name Object_prototype
  end.

Definition getAvailableCharsets : list string := map fst CHARSETS.

Fixpoint join_comma (l : list string) : string :=
  match l with
  | [] => ""
  | [s] => s
  | s :: l' => s +:+ ", " +:+ join_comma l'
  end.

Definition truthy_charset (c : charset_obj) : bool :=
  match c with
  | CsString [] => false
  | _ => true
  end.

Definition unknown_charset (name : string) : error :=
  Error ("Unknown charset: " +:+ name +:+ ". Available: " +:+ join_comma getAvailableCharsets).

Definition getCharset (name : string) : result charset_obj :=
  match CHARSETS_get name with
  | Some c => if truthy_charset c then Ok c else Throw (unknown_charset name)
  | None => Throw (unknown_charset name)
  end.

(** [Object.prototype.hasOwnProperty.call(CHARSETS, name)] *)
Definition isValidCharset (name : string) : bool :=
  match assoc name CHARSETS with
  | Some _ => true
  | None => false
  end.

(** ** Option validation ([validateOptions], [src/src/utils.js]) *)

Definition defaults : gmap string value :=
  <["width" := VNumber (of_Z 80)]>
  (<["charset" := VString "detailed"]>
  (<["contrast" := VNumber lit_1_2]>
  (<["aspectRatio" := VNumber lit_0_5]>
  (<["invert" := VBool false]> ∅)))).

(** [typeof v !== "number" || v < lo || v > hi] *)
Definition rejected (v : option value) (lo hi : number) : bool :=
  match v with
  | Some (VNumber n) => num_lt n lo || num_gt n hi
  | _ => true
  end.

Definition width_error : error := Error "Width must be a number between 10 and 500".
Definition contrast_error : error := Error "Contrast must be a number between 0.1 and 5.0".
Definition aspectRatio_error : error := Error "Aspect ratio must be a number between 0.1 and 2.0".

Definition validateOptions (options : gmap string value) : result (gmap string value) :=
  let validated := options ∪ defaults in
  if rejected (validated !! "width") (of_Z 10) (of_Z 500) then Throw width_error
  else if rejected (validated !! "contrast") lit_0_1 lit_5_0 then Throw contrast_error
  else if rejected (validated !! "aspectRatio") lit_0_1 lit_2_0 then Throw aspectRatio_error
  else Ok validated.

(** The errors the validator raises: the spec's [InvalidOption]. *)
Definition InvalidOption (e : error) : Prop :=
  e = width_error \/ e = contrast_error \/ e = aspectRatio_error.

(** A numeric option as the Number it holds; validated fields are Numbers. *)
Definition as_number (v : option value) : number :=
  match v with
  | Some (VNumber n) => n
  | _ => NaN
  end.

(** ** The mapper (loop of [convertToAscii], [src/src/converter.js] 55-86) *)

(** [charset.length - 1] *)
Definition length_minus_1 (cs : charset_obj) : number :=
  match cs with
  | CsString s => of_Z (Z.of_nat (length s) - 1)
  | CsFunction arity => of_Z (arity - 1)
  | CsPrototype => NaN
  end.

(** [charset[charset.length - 1 - charIndex]]; [None] is [undefined]. *)
Definition char_at (cs : charset_obj) (charIndex : option Z) : option code_unit :=
  match cs, charIndex with
  | CsString s, Some i =>
      let k := Z.of_nat (length s) - 1 - i in
      if k <? 0 then None else s !! Z.to_nat k
  | _, _ => None
  end.

(** [data[pixelIndex] / 255], then the contrast curve and the clamp
    (lines 62-68). *)
Definition clampedBrightness `{MathPow} (opts : gmap string value) (px : option Z) : number :=
  let brightness := num_div (match px with Some v => of_Z v | None => NaN end) (of_Z 255) in
  let brightness := Math_pow brightness (num_div one (as_number (opts !! "contrast"))) in
  Math_max pzero (Math_min one brightness).

(** Inversion and glyph lookup (lines 70-77). *)
Definition selectGlyph (invert : bool) (cs : charset_obj) (brightness : number) : option code_unit :=
  let brightness := if invert then num_sub one brightness else brightness in
  let charIndex := Math_floor (num_mul brightness (length_minus_1 cs)) in
  char_at cs charIndex.

(** One iteration of the inner loop: the [char] of pixel (x, y). *)
Definition pixelChar `{MathPow} (opts : gmap string value) (cs : charset_obj)
    (data : list Z) (width : Z) (y x : nat) : option code_unit :=
  let pixelIndex := Z.of_nat y * width + Z.of_nat x in
  let px := if pixelIndex <? 0 then None else data !! Z.to_nat pixelIndex in
  selectGlyph (ToBoolean (opts !! "invert")) cs (clampedBrightness opts px).

(** [asciiArt += char]: an [undefined] is appended as its name. *)
Definition append_char (asciiArt : jsstring) (char : option code_unit) : jsstring :=
  asciiArt ++ match char with
              | Some c => [c]
              | None => units "undefined"
              end.

Definition convertRow `{MathPow} (opts : gmap string value) (cs : charset_obj)
    (data : list Z) (width : Z) (asciiArt : jsstring) (y : nat) : jsstring :=
  foldl (fun acc x => append_char acc (pixelChar opts cs data width y x))
        asciiArt (seq 0 (Z.to_nat width)) ++ [LF].

Definition pixelsToAscii `{MathPow} (opts : gmap string value) (cs : charset_obj)
    (data : list Z) (width height : Z) : jsstring :=
  foldl (convertRow opts cs data width) [] (seq 0 (Z.to_nat height)).

(** A well-formed grid: [width * height] intensities in [0, 255]. *)
Definition wf_grid (data : list Z) (width height : Z) : Prop :=
  0 <= width /\ 0 <= height /\ Z.of_nat (length data) = width * height /\
  Forall (fun v => 0 <= v <= 255) data.

Definition contrast_in_range (c : number) : Prop :=
  valid c /\ SFleb lit_0_1 c = true /\ SFleb c lit_5_0 = true.

(** The mapping steps as the specification words them, for one intensity. *)
Definition spec_glyph_index `{MathPow} (contrast : number) (invert : bool) (N v : Z) : option Z :=
  let b := num_div (of_Z v) (of_Z 255) in
  let b' := Math_pow b (num_div one contrast) in
  let b' := Math_max pzero (Math_min one b') in
  let b' := if invert then num_sub one b' else b' in
  match Math_floor (num_mul b' (of_Z (N - 1))) with
  | Some idx => Some (N - 1 - idx)
  | None => None
  end.

(** ** The environment *)

Inductive Input : Type :=
| InPath (path : string)
| InBuffer (bytes : list Z).

Record ImageInfo : Type := { info_width : Z; info_height : Z }.

(** Everything the converter obtains from outside the repository: the file
    system, [path.extname], the image library (its metadata and the
    resized, grey, raw buffer with its dimensions), the two readings of
    [Date.now()] made by [convertAndSave], and the runtime's conversions to
    string.  A failing call throws an [Error]. *)
Record World : Type := {
  fs_access : string -> result unit;
  path_extname : string -> string;
  sharp_metadata : Input -> result (number * number);
  sharp_raw : Input -> number -> option Z -> result (list Z * ImageInfo);
  fs_writeFile : string -> jsstring -> result unit;
  fs_stat_size : string -> result Z;
  Date_now : nat -> Z;
  number_toString : number -> string;
  object_toString : nat -> string;
  buffer_toString : list Z -> string
}.

Definition ToString (w : World) (v : option value) : string :=
  match v with
  | None | Some VUndefined => "undefined"
  | Some VNull => "null"
  | Some (VBool true) => "true"
  | Some (VBool false) => "false"
  | Some (VNumber n) => number_toString w n
  | Some (VString s) => s
  | Some (VObject o) => object_toString w o
  end.

(** The text of [input] inside a template literal. *)
Definition input_text (w : World) (input : Input) : string :=
  match input with
  | InPath p => p
  | InBuffer b => buffer_toString w b
  end.

(** [typeof input === "string" ? input : "[Buffer]"] *)
Definition input_label (input : Input) : string :=
  match input with
  | InPath p => p
  | InBuffer _ => "[Buffer]"
  end.

Definition supportedExtensions : list string :=
  [".jpg"; ".jpeg"; ".png"; ".webp"; ".gif"; ".tiff"; ".tif"; ".bmp";
   ".svg"; ".avif"; ".heif"; ".heic"].

Definition isSupportedImageFormat (w : World) (filePath : string) : bool :=
  let ext := toLowerCase (path_extname w filePath) in
  existsb (String.eqb ext) supportedExtensions.

Definition fileExists (w : World) (filePath : string) : bool :=
  match fs_access w filePath with
  | Ok _ => true
  | Throw _ => false
  end.

(** ** The orchestrator ([src/src/converter.js]) *)

Definition convertToAscii `{MathPow} (w : World) (input : Input)
    (options : gmap string value) : result jsstring :=
  opts ← validateOptions options;
  _ ← match input with
      | InPath p =>
          if negb (fileExists w p) then Throw (Error ("File not found: " +:+ p))
          else if negb (isSupportedImageFormat w p)
               then Throw (Error ("Unsupported image format: " +:+ p))
               else Ok tt
      | InBuffer _ => Ok tt
      end;
  try_catch
    (charset ← getCharset (ToString w (opts !! "charset"));
     '(imgWidth, imgHeight) ← sharp_metadata w input;
     let targetWidth := as_number (opts !! "width") in
     let targetHeight :=
       Math_floor (num_mul (num_mul (num_div imgHeight imgWidth) targetWidth)
                           (as_number (opts !! "aspectRatio"))) in
     '(data, info) ← sharp_raw w input targetWidth targetHeight;
     Ok (pixelsToAscii opts charset data (info_width info) (info_height info)))
    (fun error =>
       if includes (message error) "Input file is missing"
       then Throw (Error ("Unable to read image file: " +:+ input_text w input))
       else if includes (message error) "Input file contains unsupported image format"
       then Throw (Error ("Unsupported or corrupted image format: " +:+ input_text w input))
       else Throw (Error ("Image conversion failed: " +:+ message error))).

Definition saveToFile (w : World) (asciiArt : jsstring) (filePath : string) : result unit :=
  try_catch (fs_writeFile w filePath asciiArt)
    (fun error =>
       Throw (Error ("Failed to save file " +:+ filePath +:+ ": " +:+ message error))).

(** The object [convertAndSave] resolves to; a field the object lacks is
    [None]. *)
Record SaveResult : Type := {
  success : bool;
  inputFile : string;
  outputFile : string;
  fileSize : option Z;
  processingTime : Z;
  lines : option Z;
  characters : option Z;
  error_message : option string
}.

Definition convertAndSave `{MathPow} (w : World) (input : Input) (outputPath : string)
    (options : gmap string value) : result SaveResult :=
  let startTime := Date_now w 0 in
  try_catch
    (asciiArt ← convertToAscii w input options;
     _ ← saveToFile w asciiArt outputPath;
     size ← fs_stat_size w outputPath;
     let processingTime := Date_now w 1 - startTime in
     Ok {| success := true;
           inputFile := input_label input;
           outputFile := outputPath;
           fileSize := Some size;
           processingTime := processingTime;
           lines := Some (Z.of_nat (length (split_nl asciiArt)) - 1);
           characters := Some (Z.of_nat (length asciiArt));
           error_message := None |})
    (fun error =>
       Ok {| success := false;
             inputFile := input_label input;
             outputFile := outputPath;
             fileSize := None;
             processingTime := Date_now w 1 - startTime;
             lines := None;
             characters := None;
             error_message := Some (message error) |}).

Definition truncation_marker : jsstring := LF :: units "... (truncated)".

Definition previewAscii `{MathPow} (w : World) (input : Input)
    (options : gmap string value) (previewLines : Z) : result jsstring :=
  fullAscii ← convertToAscii w input options;
  let lines := split_nl fullAscii in
  Ok (join_nl (slice0 lines previewLines) ++
      (if Z.of_nat (length lines) >? previewLines then truncation_marker else [])).

(** ** The class [AsciiPic] ([src/src/index.js])

    An instance is its field [defaultOptions]; the constructor may throw. *)

Definition AsciiPic_new (defaultOptions : gmap string value) : result (gmap string value) :=
  validateOptions defaultOptions.

Definition AsciiPic_convert `{MathPow} (w : World) (this : gmap string value)
    (input : Input) (options : gmap string value) : result jsstring :=
  let mergedOptions := options ∪ this in
  convertToAscii w input mergedOptions.

Definition AsciiPic_convertToFile `{MathPow} (w : World) (this : gmap string value)
    (input : Input) (output : string) (options : gmap string value) : result SaveResult :=
  let mergedOptions := options ∪ this in
  convertAndSave w input output mergedOptions.

(** ** Display helpers ([src/src/utils.js]) *)

(** [Math.floor] as a Number: zeros, infinities and NaN are returned as
    they are; a positive value below 1 gives [+0]. *)
Definition floor_number (x : number) : number :=
  match x with
  | S754_finite _ _ _ =>
      match Math_floor x with
      | Some z => of_Z z
      | None => NaN
      end
  | _ => x
  end.

(** [Math.round]: the nearest integer, a tie going up; a result of zero
    keeps the sign of the argument. *)
Definition Math_round (x : number) : number :=
  match x with
  | S754_finite s m e =>
      if 0 <=? e then x
      else
        let z := cond_Zopp s (Zpos m) in
        let r := (2 * z + 2 ^ (- e)) / 2 ^ (- e + 1) in
        if r =? 0 then S754_zero s else of_Z r
  | _ => x
  end.

(** The object [calculateDimensions] returns; the fields [width] and
    [height] are named [dims_width] and [dims_height] here. *)
Record Dimensions : Type := {
  dims_width : number;
  dims_height : number;
  originalRatio : number;
  newRatio : number
}.

Definition calculateDimensions (imgWidth imgHeight targetWidth aspectRatio : number) : Dimensions :=
  let targetHeight :=
    floor_number (num_mul (num_mul (num_div imgHeight imgWidth) targetWidth) aspectRatio) in
  {| dims_width := targetWidth;
     dims_height := targetHeight;
     originalRatio := num_div imgWidth imgHeight;
     newRatio := num_div targetWidth targetHeight |}.

(** [formatProgress(current, total, filename)]; the numbers are printed by
    the runtime. *)
Definition formatProgress (w : World) (current total : number) (filename : string) : string :=
  let percentage := Math_round (num_mul (num_div current total) (of_Z 100)) in
  let progress :=
    "[" +:+ number_toString w current +:+ "/" +:+ number_toString w total +:+ "] " +:+
    number_toString w percentage +:+ "%" in
  if String.eqb filename EmptyString then progress else progress +:+ " " +:+ filename.

(** ** Registry listing ([getCharsetInfo], [src/src/charsets.js]) *)

(** The code units [String.prototype.trim] strips: WhiteSpace and
    LineTerminator. *)
Definition is_white_space (c : code_unit) : bool :=
  existsb (Z.eqb c) [9; 10; 11; 12; 13; 32; 160; 5760; 8232; 8233; 8239; 8287; 12288; 65279]
  || ((8192 <=? c) && (c <=? 8202)).

Fixpoint trimStart (s : jsstring) : jsstring :=
  match s with
  | c :: rest => if is_white_space c then trimStart rest else s
  | [] => []
  end.

Definition trim (s : jsstring) : jsstring := rev (trimStart (rev (trimStart s))).

(** One object of the listing; the fields [name], [chars], [length] and
    [preview] carry the prefix [cs_] here. *)
Record CharsetInfo : Type := {
  cs_name : string;
  cs_chars : jsstring;
  cs_length : Z;
  cs_preview : jsstring
}.

Definition getCharsetInfo : list CharsetInfo :=
  map (fun '(name, chars) =>
         {| cs_name := name;
            cs_chars := chars;
            cs_length := Z.of_nat (length (trim chars));
            cs_preview := trim chars |})
      CHARSETS.

(** ** Batch conversion ([src/src/index.js], [src/src/utils.js]) *)

(** What [fs.mkdir] does: it succeeds, or throws an error that carries a
    [code]. *)
Inductive mkdir_outcome : Type :=
| MkdirOk
| MkdirThrow (code : option string) (e : error).

(** The path functions, [glob] and [fs.mkdir].  [path.join] and [fs.mkdir]
    throw a [TypeError] on an argument that is not a string. *)
Record Paths : Type := {
  glob : string -> result (list string);
  path_basename : string -> string;
  path_basename_ext : string -> string -> string;
  path_dirname : string -> string;
  path_join : string -> string -> string;
  path_join_error : value -> error;
  fs_mkdir : string -> mkdir_outcome;
  fs_mkdir_error : value -> error
}.

(** [ensureDir(dirPath)]: only an error whose code is [EEXIST] is
    swallowed. *)
Definition ensureDir (p : Paths) (dirPath : value) : result unit :=
  match dirPath with
  | VString d =>
      match fs_mkdir p d with
      | MkdirOk => Ok tt
      | MkdirThrow code e =>
          match code with
          | Some c => if String.eqb c "EEXIST" then Ok tt else Throw e
          | None => Throw e
          end
      end
  | v => Throw (fs_mkdir_error p v)
  end.

(** [generateOutputPath(inputPath, outputDir, suffix)]; a missing or
    [undefined] [outputDir] is [null]. *)
Definition generateOutputPath (w : World) (p : Paths) (inputPath : string)
    (outputDir : option value) (suffix : string) : result string :=
  let basename := path_basename_ext p inputPath (path_extname w inputPath) in
  let filename := basename +:+ "." +:+ suffix +:+ ".txt" in
  if ToBoolean outputDir then
    match outputDir with
    | Some (VString d) => Ok (path_join p d filename)
    | Some v => Throw (path_join_error p v)
    | None => Ok (path_join p (path_dirname p inputPath) filename)
    end
  else Ok (path_join p (path_dirname p inputPath) filename).

(** The first argument of [batchConvert]: an array of paths, a glob
    pattern, or anything else. *)
Inductive Pattern : Type :=
| PatArray (files : list string)
| PatString (pattern : string)
| PatOther.

(** A result object of [convertAndSave] with the [progress] text added. *)
Record BatchResult : Type := {
  saved : SaveResult;
  progress : string
}.

(** The loop of [batchConvert] from index [i] on; [env i] is the
    environment the conversion of file [i] runs in. *)
Fixpoint batch_loop `{MathPow} (w : World) (p : Paths) (env : nat -> World)
    (outputDir : option value) (convertOptions : gmap string value) (total : Z)
    (i : nat) (inputFiles : list string) (results : list BatchResult)
    : result (list BatchResult) :=
  match inputFiles with
  | [] => Ok results
  | inputFile :: rest =>
      outputFile ← generateOutputPath w p inputFile outputDir "ascii";
      _ ← (if ToBoolean outputDir
           then match outputDir with
                | Some v => ensureDir p v
                | None => Ok tt
                end
           else Ok tt);
      result ← convertAndSave (env i) (InPath inputFile) outputFile convertOptions;
      let progress :=
        formatProgress w (of_Z (Z.of_nat i + 1)) (of_Z total) (path_basename p inputFile) in
      batch_loop w p env outputDir convertOptions total (S i) rest
                 (results ++ [{| saved := result; progress := progress |}])
  end.

Definition batchConvert `{MathPow} (w : World) (p : Paths) (env : nat -> World)
    (this : gmap string value) (inputPattern : Pattern) (options : gmap string value)
    : result (list BatchResult) :=
  let mergedOptions := options ∪ this in
  inputFiles ← match inputPattern with
               | PatArray files => Ok files
               | PatString pattern => glob p pattern
               | PatOther => Throw (Error "Input must be a string pattern or array of file paths")
               end;
  let inputFiles := List.filter (isSupportedImageFormat w) inputFiles in
  if Z.of_nat (length inputFiles) =? 0 then Throw (Error "No supported image files found")
  else
    let outputDir := mergedOptions !! "outputDir" in
    let convertOptions := delete "outputDir" mergedOptions in
    batch_loop w p env outputDir convertOptions (Z.of_nat (length inputFiles)) 0 inputFiles [].

(** ** Invariants of the rounding shift, used in the proofs below *)

Definition shr_inexact (mrs : shr_record) : bool := shr_r mrs || shr_s mrs.

(** After [k] right shifts of the exact mantissa [m0]: what is kept does
    not exceed [m0], and is strictly below it once a bit has been lost. *)
Definition shr_inv (m0 k : Z) (mrs : shr_record) : Prop :=
  0 <= shr_m mrs /\ shr_m mrs * 2 ^ k <= m0 /\
  (shr_inexact mrs = true -> shr_m mrs * 2 ^ k < m0).

Definition shr_inv0 (m0 k : Z) (mrs : shr_record) : Prop :=
  0 <= shr_m mrs /\ shr_m mrs * 2 ^ k <= m0.

Definition nonneg_numb (x : number) : bool :=
  match x with S754_zero false | S754_finite false _ _ => true | _ => false end.

(** The glyphs of row [y], when every pixel of the row selects one. *)
Definition rowGlyphs `{MathPow} (opts : gmap string value) (cs : charset_obj)
    (data : list Z) (width : Z) (y : nat) : jsstring :=
  map (fun x => default 0 (pixelChar opts cs data width y x)) (seq 0 (Z.to_nat width)).

(** Sample inputs, used to instantiate the theorems below. *)
Definition simple_charset : jsstring := [9608; 9608; 9619; 9618; 9617; 32].

Definition sample_options : gmap string value :=
  <["width" := VNumber (of_Z 20)]> (<["charset" := VString "simple"]> defaults).

(** A sample environment: every file is readable and writable, the image
    is 100 x 100, and the resized buffer has the requested dimensions with
    the intensity of cell (x, y) given by [pixel width height x y]. *)
Definition sample_world (pixel : Z -> Z -> Z -> Z -> Z) : World := {|
  fs_access := fun _ => Ok tt;
  path_extname := fun _ => ".png";
  sharp_metadata := fun _ => Ok (of_Z 100, of_Z 100);
  sharp_raw := fun _ targetWidth targetHeight =>
    match Math_floor targetWidth, targetHeight with
    | Some w, Some h =>
        Ok (flat_map (fun y => map (fun x => pixel w h (Z.of_nat x) (Z.of_nat y))
                                   (seq 0 (Z.to_nat w)))
                     (seq 0 (Z.to_nat h)),
            {| info_width := w; info_height := h |})
    | _, _ => Throw (Error "Expected positive integer for width and height")
    end;
  fs_writeFile := fun _ _ => Ok tt;
  fs_stat_size := fun _ => Ok 0;
  Date_now := fun n => Z.of_nat n;
  number_toString := fun _ => "0";
  object_toString := fun _ => "[object Object]";
  buffer_toString := fun _ => ""
|}.

(** A solid white image. *)
Definition white_world : World := sample_world (fun _ _ _ _ => 255).

(** A white image with a black inset: the outermost ring of cells is white,
    every other cell black. *)
Definition inset_world : World :=
  sample_world (fun w h x y =>
    if (x =? 0) || (x =? w - 1) || (y =? 0) || (y =? h - 1) then 255 else 0).

(** The white image where the output path cannot be written. *)
Definition unwritable_world : World := {|
  fs_access := fs_access white_world;
  path_extname := path_extname white_world;
  sharp_metadata := sharp_metadata white_world;
  sharp_raw := sharp_raw white_world;
  fs_writeFile := fun _ _ => Throw (Error "EACCES: permission denied");
  fs_stat_size := fs_stat_size white_world;
  Date_now := Date_now white_world;
  number_toString := number_toString white_world;
  object_toString := object_toString white_world;
  buffer_toString := buffer_toString white_world
|}.

(** ** Auxiliary notions for the statements below *)

(** [typeof v === "number"] *)
Definition is_number (v : value) : bool :=
  match v with VNumber _ => true | _ => false end.

(** A row of [width] pixels that all found no glyph. *)
Definition undefined_row (width : Z) : list Z :=
  concat (replicate (Z.to_nat width) (units "undefined")) ++ [LF].

(** The errors [convertToAscii] can throw. *)
Definition conversion_error (w : World) (input : Input) (e : error) : Prop :=
  InvalidOption e \/
  (exists p, input = InPath p /\ e = Error ("File not found: " +:+ p)) \/
  (exists p, input = InPath p /\ e = Error ("Unsupported image format: " +:+ p)) \/
  e = Error ("Unable to read image file: " +:+ input_text w input) \/
  e = Error ("Unsupported or corrupted image format: " +:+ input_text w input) \/
  (exists cause, e = Error ("Image conversion failed: " +:+ cause)).

(** The input passes the checks made before decoding. *)
Definition input_accepted (w : World) (input : Input) : Prop :=
  match input with
  | InPath p => fileExists w p = true /\ isSupportedImageFormat w p = true
  | InBuffer _ => True
  end.

(** After [k] right shifts of [m0]: what is kept, plus one, exceeds [m0]. *)
Definition shr_inv_lo (m0 k : Z) (mrs : shr_record) : Prop :=
  0 <= shr_m mrs /\ m0 < (shr_m mrs + 1) * 2 ^ k.

(** The directory the output of [inputFile] goes to, and what the loop
    needs of [outputDir] to get through: it is falsy, or a string naming a
    directory that [ensureDir] accepts. *)
Definition output_directory (p : Paths) (outputDir : option value) (inputFile : string) : string :=
  match outputDir with
  | Some (VString d) => if String.eqb d "" then path_dirname p inputFile else d
  | _ => path_dirname p inputFile
  end.

Definition outputDir_ready (p : Paths) (outputDir : option value) : Prop :=
  ToBoolean outputDir = false \/
  exists d, outputDir = Some (VString d) /\ ensureDir p (VString d) = Ok tt.

(** A sample set of path functions over [/]-separated paths whose files
    end in [.png]; every directory can be created. *)
Definition sample_paths : Paths := {|
  glob := fun _ => Ok ["a.png"; "notes.txt"; "b.png"];
  path_basename := fun f => f;
  path_basename_ext := fun f _ => String.substring 0 (String.length f - 4) f;
  path_dirname := fun _ => ".";
  path_join := fun d f => d +:+ "/" +:+ f;
  path_join_error := fun _ => Error "The path argument must be of type string";
  fs_mkdir := fun _ => MkdirOk;
  fs_mkdir_error := fun _ => Error "The path argument must be of type string"
|}.

(** An environment that tells supported files by their last four letters. *)
Definition batch_world : World := {|
  fs_access := fs_access white_world;
  path_extname := fun f => String.substring (String.length f - 4) 4 f;
  sharp_metadata := sharp_metadata white_world;
  sharp_raw := sharp_raw white_world;
  fs_writeFile := fs_writeFile white_world;
  fs_stat_size := fs_stat_size white_world;
  Date_now := Date_now white_world;
  number_toString := number_toString white_world;
  object_toString := object_toString white_world;
  buffer_toString := buffer_toString white_world
|}.

(** Path functions over a file system where no directory can be created. *)
Definition readonly_paths : Paths := {|
  glob := glob sample_paths;
  path_basename := path_basename sample_paths;
  path_basename_ext := path_basename_ext sample_paths;
  path_dirname := path_dirname sample_paths;
  path_join := path_join sample_paths;
  path_join_error := path_join_error sample_paths;
  fs_mkdir := fun _ => MkdirThrow (Some "EACCES") (Error "EACCES: permission denied, mkdir");
  fs_mkdir_error := fs_mkdir_error sample_paths
|}.


(** The Number [x] is the non-negative integer [r]. *)
Definition integer_value (x : number) (r : Z) : Prop :=
  match x with
  | S754_zero _ => r = 0
  | S754_finite false m e => F2R (Zpos m) e = IZR r
  | _ => False
  end.

(** * Binary64 facts *)

(** ** Digits and powers of two *)

Lemma digits2_pos_bounds (p : positive) :
  2 ^ (Zpos (digits2_pos p) - 1) <= Zpos p < 2 ^ (Zpos (digits2_pos p)).
Proof.
  induction p as [p IH | p IH |]; cbn [digits2_pos].
  - rewrite Pos2Z.inj_succ.
    replace (Z.succ (Z.pos (digits2_pos p)) - 1) with (Z.succ (Z.pos (digits2_pos p) - 1)) by lia.
    rewrite !Z.pow_succ_r by lia. lia.
  - rewrite Pos2Z.inj_succ.
    replace (Z.succ (Z.pos (digits2_pos p)) - 1) with (Z.succ (Z.pos (digits2_pos p) - 1)) by lia.
    rewrite !Z.pow_succ_r by lia. lia.
  - cbn. lia.
Qed.

Lemma Zdigits2_bounds (m : Z) :
  0 < m -> 2 ^ (Zdigits2 m - 1) <= m < 2 ^ (Zdigits2 m).
Proof.
  destruct m as [|p|p]; try lia. intros _. apply digits2_pos_bounds.
Qed.

Lemma Zdigits2_nonneg (m : Z) : 0 <= Zdigits2 m.
Proof. destruct m; cbn; lia. Qed.

Lemma powerRZ_2_pos (e : Z) : (0 < powerRZ 2 e)%R.
Proof. apply powerRZ_lt. lra. Qed.

Lemma powerRZ_2_add (a b : Z) : powerRZ 2 (a + b) = (powerRZ 2 a * powerRZ 2 b)%R.
Proof. apply powerRZ_add. lra. Qed.

Lemma IZR_pow2 (n : Z) : 0 <= n -> IZR (2 ^ n) = powerRZ 2 n.
Proof.
  intros Hn. rewrite <- (Z2Nat.id n Hn) at 1.
  rewrite <- pow_IZR. rewrite pow_powerRZ. rewrite Z2Nat.id by exact Hn. reflexivity.
Qed.

Lemma powerRZ_2_le (a b : Z) : a <= b -> (powerRZ 2 a <= powerRZ 2 b)%R.
Proof.
  intros H. replace b with (a + (b - a)) by lia.
  rewrite powerRZ_2_add, <- (IZR_pow2 (b - a)) by lia.
  assert (1 <= IZR (2 ^ (b - a)))%R by (apply IZR_le; nia).
  pose proof (powerRZ_2_pos a). nra.
Qed.

Lemma powerRZ_2_lt_inv (a b : Z) : (powerRZ 2 a < powerRZ 2 b)%R -> a < b.
Proof.
  intros H. destruct (Z_lt_le_dec a b) as [Hlt|Hle]; [exact Hlt|].
  apply powerRZ_2_le in Hle. lra.
Qed.

(** ** Values of mantissa and exponent *)

Lemma F2R_shift (m e k : Z) : 0 <= k -> F2R (m * 2 ^ k) e = F2R m (e + k).
Proof.
  intros Hk. unfold F2R. rewrite mult_IZR, IZR_pow2 by exact Hk.
  rewrite powerRZ_2_add. ring.
Qed.

Lemma F2R_le_mono (m1 m2 e : Z) : m1 <= m2 -> (F2R m1 e <= F2R m2 e)%R.
Proof.
  intros H. unfold F2R. apply Rmult_le_compat_r.
  - left. apply powerRZ_2_pos.
  - apply IZR_le. exact H.
Qed.

Lemma F2R_le_inv (m1 m2 e : Z) : (F2R m1 e <= F2R m2 e)%R -> m1 <= m2.
Proof.
  unfold F2R. intros H. apply le_IZR.
  apply Rmult_le_reg_r with (r := powerRZ 2 e); [apply powerRZ_2_pos | exact H].
Qed.

Lemma F2R_lt_inv (m1 m2 e : Z) : (F2R m1 e < F2R m2 e)%R -> m1 < m2.
Proof.
  unfold F2R. intros H. apply lt_IZR.
  apply Rmult_lt_reg_r with (r := powerRZ 2 e); [apply powerRZ_2_pos | exact H].
Qed.

Lemma F2R_nonneg (m e : Z) : 0 <= m -> (0 <= F2R m e)%R.
Proof.
  intros H. unfold F2R. apply Rmult_le_pos; [apply IZR_le; exact H | left; apply powerRZ_2_pos].
Qed.

Lemma F2R_lt_mono (m1 m2 e : Z) : m1 < m2 -> (F2R m1 e < F2R m2 e)%R.
Proof.
  intros H. unfold F2R. apply Rmult_lt_compat_r; [apply powerRZ_2_pos | apply IZR_lt; exact H].
Qed.

Lemma F2R_pos (m e : Z) : 0 < m -> (0 < F2R m e)%R.
Proof.
  intros H. unfold F2R. apply Rmult_lt_0_compat; [apply IZR_lt; exact H | apply powerRZ_2_pos].
Qed.

(** Side conditions on dyadic values. *)
Create HintDb dyadic discriminated.
#[local] Hint Resolve powerRZ_2_pos F2R_nonneg F2R_pos F2R_le_mono F2R_lt_mono
  Zdigits2_nonneg : dyadic.
#[local] Hint Extern 2 (_ <= _) => lia : dyadic.
#[local] Hint Extern 2 (_ < _) => lia : dyadic.

(** Magnitude: digits plus exponent is monotone in the value. *)

Lemma mag_le (m1 e1 m2 e2 : Z) :
  0 < m1 -> 0 < m2 -> (F2R m1 e1 <= F2R m2 e2)%R ->
  Zdigits2 m1 + e1 <= Zdigits2 m2 + e2.
Proof.
  intros H1 H2 Hle.
  pose proof (Zdigits2_bounds m1 H1) as [B1 _].
  pose proof (Zdigits2_bounds m2 H2) as [_ B2].
  pose proof (Zdigits2_nonneg m2) as D2.
  assert (D1 : 0 <= Zdigits2 m1 - 1) by (destruct m1 as [|p|p]; try lia; cbn [Zdigits2]; lia).
  assert (L : (powerRZ 2 (Zdigits2 m1 - 1 + e1) <= F2R m1 e1)%R).
  { rewrite powerRZ_2_add, <- IZR_pow2 by exact D1. apply F2R_le_mono. exact B1. }
  assert (U : (F2R m2 e2 < powerRZ 2 (Zdigits2 m2 + e2))%R).
  { rewrite powerRZ_2_add, <- IZR_pow2 by exact D2. apply F2R_lt_mono. exact B2. }
  assert (Hlt : (powerRZ 2 (Zdigits2 m1 - 1 + e1) < powerRZ 2 (Zdigits2 m2 + e2))%R) by lra.
  apply powerRZ_2_lt_inv in Hlt. lia.
Qed.

Lemma fexp_mono (a b : Z) : a <= b -> fexp a <= fexp b.
Proof. unfold fexp, SpecFloat.fexp. lia. Qed.

(** ** Shifting the mantissa right *)

Lemma shr_1_inv (m0 k : Z) (mrs : shr_record) :
  0 <= k -> shr_inv m0 k mrs -> shr_inv m0 (k + 1) (shr_1 mrs).
Proof.
  intros Hk (Hm & Hle & Hlt). destruct mrs as [m r s]. unfold shr_inv, shr_inexact in *.
  cbn [shr_m shr_r shr_s] in *. rewrite Z.pow_add_r, Z.pow_1_r by lia.
  assert (P : 0 < 2 ^ k) by (apply Z.pow_pos_nonneg; lia).
  destruct m as [|[p|p|]|p]; cbn [shr_1 shr_m shr_r shr_s].
  - split; [lia|]. split; [lia|]. intros H. rewrite orb_false_l in H. specialize (Hlt H). lia.
  - rewrite Pos2Z.inj_xI in Hle. split; [lia|]. split; [nia|]. intros _. nia.
  - rewrite Pos2Z.inj_xO in Hle, Hlt. split; [lia|]. split; [nia|]. intros H.
    rewrite orb_false_l in H. specialize (Hlt H). nia.
  - split; [lia|]. split; [lia|]. intros _. lia.
  - lia.
Qed.

(** An invariant indexed by the number of steps survives iteration. *)
Lemma iter_pos_inv {A : Type} (f : A -> A) (P : Z -> A -> Prop) :
  (forall k x, 0 <= k -> P k x -> P (k + 1) (f x)) ->
  forall p k x, 0 <= k -> P k x -> P (k + Zpos p) (SpecFloat.iter_pos f p x).
Proof.
  intros Hstep. induction p as [p IH | p IH |]; intros k x Hk Hx; cbn [SpecFloat.iter_pos].
  - replace (k + Z.pos p~1) with (k + 1 + Z.pos p + Z.pos p) by lia.
    apply IH; [lia|]. apply IH; [lia|]. apply Hstep; assumption.
  - replace (k + Z.pos p~0) with (k + Z.pos p + Z.pos p) by lia.
    apply IH; [lia|]. apply IH; assumption.
  - apply Hstep; assumption.
Qed.

(** The shift of [binary_round_aux] on an exact mantissa keeps [shr_inv] and
    loses nothing when no shift is due. *)
Lemma shr_fexp_exact (m e : Z) :
  0 <= m ->
  let n := fexp (Zdigits2 m + e) - e in
  exists mrs, shr_fexp prec emax m e loc_Exact = (mrs, e + Z.max 0 n) /\
              shr_inv m (Z.max 0 n) mrs /\
              (n <= 0 -> shr_inexact mrs = false).
Proof.
  intros Hm n. unfold shr_fexp, shr. fold fexp. fold n. cbn [shr_record_of_loc].
  assert (I0 : shr_inv m 0 {| shr_m := m; shr_r := false; shr_s := false |}).
  { unfold shr_inv, shr_inexact. cbn. repeat split; first [lia | discriminate]. }
  destruct n as [|p|p] eqn:En.
  - eexists. split; [rewrite Z.add_0_r; reflexivity|]. split; [exact I0 | reflexivity].
  - eexists. split; [replace (Z.max 0 (Z.pos p)) with (Z.pos p) by lia; reflexivity|].
    split; [|lia].
    replace (Z.max 0 (Z.pos p)) with (0 + Z.pos p) by lia.
    apply (iter_pos_inv shr_1 (shr_inv m)); [intros; apply shr_1_inv; assumption | lia | exact I0].
  - eexists. split; [replace (Z.max 0 (Z.neg p)) with 0 by lia; rewrite Z.add_0_r; reflexivity|].
    split; [exact I0 | reflexivity].
Qed.

Lemma round_nearest_even_bounds (mrs : shr_record) :
  let m' := round_nearest_even (shr_m mrs) (loc_of_shr_record mrs) in
  shr_m mrs <= m' <= shr_m mrs + 1 /\ (shr_inexact mrs = false -> m' = shr_m mrs).
Proof.
  destruct mrs as [m [|] [|]]; unfold shr_inexact; cbn; try (destruct (Z.even m)); lia || (split; [lia|]; try discriminate; reflexivity).
Qed.

(** ** Rounding stays below a representable bound *)

(** Rounding an exact dyadic value that lies below a canonical double stays
    below it: the result is [+0] or a positive double under the bound. *)
Lemma binary_round_aux_le (mx ex mk ek : Z) :
  0 < mx -> 0 < mk ->
  fexp (Zdigits2 mk + ek) = ek ->
  Zdigits2 mk + ek <= emax - prec + 1 ->
  (F2R mx ex <= F2R mk ek)%R ->
  binary_round_aux prec emax false mx ex loc_Exact = S754_zero false \/
  exists m e, binary_round_aux prec emax false mx ex loc_Exact = S754_finite false m e /\
              (F2R (Zpos m) e <= F2R mk ek)%R.
Proof.
  intros Hmx Hmk Hcan Hfin Hle. unfold binary_round_aux.
  destruct (shr_fexp_exact mx ex) as (mrs1 & E1 & (P1 & L1 & S1) & X1); [lia|].
  rewrite E1. set (k1 := Z.max 0 (fexp (Zdigits2 mx + ex) - ex)) in *.
  pose proof (round_nearest_even_bounds mrs1) as [[R1 R2] R3]. cbv zeta in R1, R2, R3.
  set (m2 := round_nearest_even (shr_m mrs1) (loc_of_shr_record mrs1)) in *.
  assert (A : (F2R m2 (ex + k1) <= F2R mk ek)%R).
  { destruct (shr_inexact mrs1) eqn:Ein.
    - assert (Hn : 0 < fexp (Zdigits2 mx + ex) - ex).
      { destruct (Z_lt_le_dec 0 (fexp (Zdigits2 mx + ex) - ex)) as [H|H]; [exact H|].
        specialize (X1 H). congruence. }
      assert (Hk1 : ex + k1 = fexp (Zdigits2 mx + ex)) by (unfold k1; lia).
      assert (Hek : ex + k1 <= ek).
      { rewrite Hk1, <- Hcan. apply fexp_mono. apply mag_le; assumption. }
      specialize (S1 eq_refl).
      assert (Hlt : (F2R (shr_m mrs1) (ex + k1) < F2R (mk * 2 ^ (ek - (ex + k1))) (ex + k1))%R).
      { rewrite (F2R_shift mk) by lia. replace (ex + k1 + (ek - (ex + k1))) with ek by lia.
        rewrite <- (F2R_shift (shr_m mrs1) ex k1) by (unfold k1; lia).
        eapply Rlt_le_trans; [|exact Hle]. auto with dyadic. }
      apply F2R_lt_inv in Hlt.
      replace (F2R mk ek) with (F2R (mk * 2 ^ (ek - (ex + k1))) (ex + k1)).
      + auto with dyadic.
      + rewrite F2R_shift by lia. f_equal. lia.
    - rewrite (R3 eq_refl). rewrite <- (F2R_shift (shr_m mrs1) ex k1) by (unfold k1; lia).
      eapply Rle_trans; [|exact Hle]. auto with dyadic. }
  destruct (shr_fexp_exact m2 (ex + k1)) as (mrs2 & E2 & (P2 & L2 & S2) & X2); [lia|].
  rewrite E2. set (k2 := Z.max 0 (fexp (Zdigits2 m2 + (ex + k1)) - (ex + k1))) in *.
  assert (B : (F2R (shr_m mrs2) (ex + k1 + k2) <= F2R mk ek)%R).
  { rewrite <- F2R_shift by (unfold k2; lia). eapply Rle_trans; [|exact A].
    auto with dyadic. }
  destruct (shr_m mrs2) as [|m3|m3] eqn:Em3; [left; reflexivity | | lia].
  right. exists m3, (ex + k1 + k2).
  assert (Hexp : ex + k1 + k2 <= emax - prec).
  { assert (U : (F2R mk ek < powerRZ 2 (Zdigits2 mk + ek))%R).
    { rewrite powerRZ_2_add, <- IZR_pow2 by auto with dyadic.
      apply F2R_lt_mono, Zdigits2_bounds. exact Hmk. }
    assert (L : (powerRZ 2 (ex + k1 + k2) <= F2R (Z.pos m3) (ex + k1 + k2))%R).
    { unfold F2R. pose proof (powerRZ_2_pos (ex + k1 + k2)).
      assert (1 <= IZR (Z.pos m3))%R by (apply IZR_le; lia). nra. }
    assert (Hlt : (powerRZ 2 (ex + k1 + k2) < powerRZ 2 (Zdigits2 mk + ek))%R) by lra.
    apply powerRZ_2_lt_inv in Hlt. lia. }
  apply Z.leb_le in Hexp. rewrite Hexp. split; [reflexivity | exact B].
Qed.

Lemma F2R_one : F2R 4503599627370496 (-52) = 1%R.
Proof.
  unfold F2R. change 4503599627370496 with (2 ^ 52). rewrite IZR_pow2 by lia.
  rewrite <- powerRZ_2_add. reflexivity.
Qed.

Lemma Zpos_iter_xO (d m : positive) : Zpos (Pos.iter xO m d) = Zpos m * 2 ^ Zpos d.
Proof.
  induction d as [|d IH] using Pos.peano_ind.
  - cbn. lia.
  - rewrite Pos.iter_succ, Pos2Z.inj_xO, IH, Pos2Z.inj_succ, Z.pow_succ_r by lia. ring.
Qed.

Lemma shl_align_value (mx : positive) (ex ex' : Z) :
  F2R (Zpos (fst (shl_align mx ex ex'))) (snd (shl_align mx ex ex')) = F2R (Zpos mx) ex.
Proof.
  unfold shl_align. destruct (ex' - ex) as [|d|d] eqn:E; cbn [fst snd]; try reflexivity.
  rewrite Zpos_iter_xO. rewrite F2R_shift by lia. f_equal. lia.
Qed.

Lemma binary_round_le (mx : positive) (ex mk ek : Z) :
  0 < mk ->
  fexp (Zdigits2 mk + ek) = ek ->
  Zdigits2 mk + ek <= emax - prec + 1 ->
  (F2R (Zpos mx) ex <= F2R mk ek)%R ->
  binary_round prec emax false mx ex = S754_zero false \/
  exists m e, binary_round prec emax false mx ex = S754_finite false m e /\
              (F2R (Zpos m) e <= F2R mk ek)%R.
Proof.
  intros Hmk Hcan Hfin Hle. unfold binary_round.
  pose proof (shl_align_value mx ex (SpecFloat.fexp prec emax (Z.pos (digits2_pos mx) + ex))) as V.
  destruct (shl_align mx ex _) as [mz ez]. cbn [fst snd] in V.
  apply binary_round_aux_le; try assumption; [lia | rewrite V; exact Hle].
Qed.

(** A brightness of the unit interval times a positive double [k] is [+0]
    or a positive double of value at most [k]. *)
Lemma num_mul_unit_le (b : number) (mk : positive) (ek : Z) :
  unit_interval b ->
  fexp (Zdigits2 (Zpos mk) + ek) = ek ->
  Zdigits2 (Zpos mk) + ek <= emax - prec + 1 ->
  num_mul b (S754_finite false mk ek) = pzero \/
  exists m e, num_mul b (S754_finite false mk ek) = S754_finite false m e /\
              (F2R (Zpos m) e <= F2R (Zpos mk) ek)%R.
Proof.
  intros [-> | (mb & eb & -> & Hb)] Hcan Hfin; [left; reflexivity|].
  unfold num_mul, SFmul. cbn [xorb].
  apply binary_round_aux_le; try assumption; try lia.
  change (Z.pos (mb * mk)) with (Z.pos mb * Z.pos mk).
  unfold F2R in *. rewrite mult_IZR, powerRZ_2_add.
  pose proof (powerRZ_2_pos ek) as Pk. assert (Mk : (0 < IZR (Z.pos mk))%R) by (apply IZR_lt; lia).
  assert (Bk : (0 < IZR (Z.pos mk) * powerRZ 2 ek)%R) by (apply Rmult_lt_0_compat; assumption).
  replace (IZR (Z.pos mb) * IZR (Z.pos mk) * (powerRZ 2 eb * powerRZ 2 ek))%R
    with ((IZR (Z.pos mb) * powerRZ 2 eb) * (IZR (Z.pos mk) * powerRZ 2 ek))%R by ring.
  nra.
Qed.

Lemma shl_align_snd (mx : positive) (ex ex' : Z) :
  ex' <= ex -> snd (shl_align mx ex ex') = ex'.
Proof.
  intros H. unfold shl_align. destruct (ex' - ex) as [|d|d] eqn:E; cbn [snd]; lia.
Qed.

Lemma unit_interval_one : unit_interval one.
Proof. right. exists 4503599627370496%positive, (-52). split; [reflexivity|]. rewrite F2R_one. lra. Qed.

Lemma fexp_one : fexp (Zdigits2 4503599627370496 + -52) = -52.
Proof. reflexivity. Qed.

(** [1 - b] stays in the unit interval. *)
Lemma num_sub_one_unit (b : number) : unit_interval b -> unit_interval (num_sub one b).
Proof.
  intros [-> | (mb & eb & -> & Hb)]; [apply unit_interval_one|].
  unfold num_sub, one, SFsub. cbn [cond_Zopp].
  set (ez := Z.min (-52) eb).
  pose proof (shl_align_value 4503599627370496 (-52) ez) as V1.
  pose proof (shl_align_value mb eb ez) as V2.
  rewrite shl_align_snd in V1, V2 by (unfold ez; lia).
  set (m1 := fst (shl_align 4503599627370496 (-52) ez)) in *.
  set (m2 := fst (shl_align mb eb ez)) in *.
  rewrite F2R_one in V1.
  assert (D : F2R (Z.pos m1 - Z.pos m2) ez = (1 - F2R (Z.pos mb) eb)%R).
  { unfold F2R in *. rewrite minus_IZR. lra. }
  assert (P : (0 < F2R (Z.pos mb) eb)%R) by auto with dyadic.
  destruct (Z.pos m1 - Z.pos m2) as [|z|z] eqn:Ez; cbn [binary_normalize].
  - left. reflexivity.
  - assert (Hz : (F2R (Z.pos z) ez <= F2R 4503599627370496 (-52))%R)
      by (rewrite D, F2R_one; lra).
    assert (Hfin : Zdigits2 4503599627370496 + -52 <= emax - prec + 1)
      by (vm_compute; discriminate).
    destruct (binary_round_le z ez 4503599627370496 (-52) eq_refl fexp_one Hfin Hz)
      as [H | (m & e & H & Hle)].
    + left. exact H.
    + right. exists m, e. split; [exact H|]. rewrite F2R_one in Hle. exact Hle.
  - exfalso. assert (F2R (Z.neg z) ez < 0)%R.
    { unfold F2R. pose proof (powerRZ_2_pos ez). assert (IZR (Z.neg z) < 0)%R by (apply IZR_lt; lia). nra. }
    lra.
Qed.

Lemma valid_digits (m : positive) (e : Z) :
  valid (S754_finite false m e) -> Zpos (digits2_pos m) <= prec.
Proof.
  unfold valid, valid_binary, bounded, canonical_mantissa, SpecFloat.fexp.
  intros H. apply andb_true_iff in H as [H _]. apply Z.eqb_eq in H. lia.
Qed.

Lemma F2R_lt_pow (m : positive) (e : Z) :
  (F2R (Zpos m) e < powerRZ 2 (Zpos (digits2_pos m) + e))%R.
Proof.
  rewrite powerRZ_2_add, <- IZR_pow2 by lia. apply F2R_lt_mono, digits2_pos_bounds.
Qed.

(** [Math.max(0, Math.min(1, p))] lands in the unit interval for every
    double that is not NaN. *)
Lemma clamp_unit (p : number) :
  valid p -> p <> NaN -> unit_interval (Math_max pzero (Math_min one p)).
Proof.
  intros Hv Hn. destruct p as [s | s | | s m e]; [| | exfalso; apply Hn; reflexivity |].
  - left. destruct s; reflexivity.
  - destruct s; [left; reflexivity | apply unit_interval_one].
  - destruct s; [left; reflexivity|].
    unfold Math_min, one. cbn [SFcompare].
    destruct (Z.compare (-52) e) eqn:Ce.
    + apply Z.compare_eq in Ce. subst e.
      change (Pos.compare_cont Eq 4503599627370496 m) with (Pos.compare 4503599627370496 m).
      destruct (Pos.compare 4503599627370496 m) eqn:Cm.
      * apply Pos.compare_eq in Cm. subst m. apply unit_interval_one.
      * apply unit_interval_one.
      * unfold Math_max, pzero. cbn [SFcompare]. right. exists m, (-52). split; [reflexivity|].
        apply Pos.compare_gt_iff, Pos2Z.pos_lt_pos in Cm. rewrite <- F2R_one.
        apply F2R_le_mono, Z.lt_le_incl. exact Cm.
    + apply unit_interval_one.
    + unfold Math_max, pzero. cbn [SFcompare]. right. exists m, e. split; [reflexivity|].
      rewrite Z.compare_gt_iff in Ce. pose proof (valid_digits m e Hv) as Hd.
      pose proof (F2R_lt_pow m e) as Hlt.
      assert (Hp : (powerRZ 2 (Z.pos (digits2_pos m) + e) <= powerRZ 2 0)%R)
        by (apply powerRZ_2_le; unfold prec in Hd; lia).
      change (powerRZ 2 0) with 1%R in Hp. lra.
Qed.

(** ** Integers and the floor *)

Lemma digits2_pos_iter_xO (d m : positive) :
  Zpos (digits2_pos (Pos.iter xO m d)) = Zpos (digits2_pos m) + Zpos d.
Proof.
  induction d as [|d IH] using Pos.peano_ind.
  - cbn [Pos.iter digits2_pos]. lia.
  - rewrite Pos.iter_succ. cbn [digits2_pos]. rewrite Pos2Z.inj_succ, IH. lia.
Qed.

Lemma binary_round_aux_canonical (m : positive) (e : Z) :
  fexp (Zdigits2 (Zpos m) + e) = e -> e <= emax - prec ->
  binary_round_aux prec emax false (Zpos m) e loc_Exact = S754_finite false m e.
Proof.
  intros Hc He. unfold binary_round_aux, shr_fexp. fold fexp. rewrite Hc, Z.sub_diag.
  cbn [shr_record_of_loc shr shr_m loc_of_shr_record round_nearest_even].
  rewrite Hc, Z.sub_diag. cbn [shr shr_m].
  apply Z.leb_le in He. rewrite He. reflexivity.
Qed.

(** Integers below 2^53 convert to doubles exactly, in canonical form. *)
Lemma of_Z_exact (k : positive) :
  Zpos k < 2 ^ 53 ->
  exists mk ek, of_Z (Zpos k) = S754_finite false mk ek /\
                F2R (Zpos mk) ek = IZR (Zpos k) /\
                fexp (Zdigits2 (Zpos mk) + ek) = ek /\
                Zdigits2 (Zpos mk) + ek <= emax - prec + 1.
Proof.
  intros Hk. unfold of_Z, binary_normalize, binary_round.
  assert (Hd : Zpos (digits2_pos k) <= 53).
  { pose proof (digits2_pos_bounds k) as [L _].
    destruct (Z_le_gt_dec (Zpos (digits2_pos k)) 53) as [H|H]; [exact H|].
    assert (2 ^ 53 <= 2 ^ (Zpos (digits2_pos k) - 1)) by (apply Z.pow_le_mono_r; lia). lia. }
  pose proof (shl_align_value k 0 (SpecFloat.fexp prec emax (Z.pos (digits2_pos k) + 0))) as V.
  assert (Hf : SpecFloat.fexp prec emax (Z.pos (digits2_pos k) + 0) = Zpos (digits2_pos k) - 53).
  { unfold SpecFloat.fexp, emin, prec, emax. lia. }
  rewrite Hf in *.
  assert (C : let a := shl_align k 0 (Zpos (digits2_pos k) - 53) in
              Zpos (digits2_pos (fst a)) + snd a = Zpos (digits2_pos k) /\
              snd a = Zpos (digits2_pos k) - 53).
  { unfold shl_align. destruct (Z.pos (digits2_pos k) - 53 - 0) as [|d|d] eqn:E; cbn [fst snd].
    - lia.
    - lia.
    - rewrite digits2_pos_iter_xO. lia. }
  destruct (shl_align k 0 (Zpos (digits2_pos k) - 53)) as [mz ez]. cbn [fst snd] in V, C.
  destruct C as [C1 C2].
  assert (Hcan : fexp (Zdigits2 (Zpos mz) + ez) = ez).
  { cbn [Zdigits2]. rewrite C1. unfold fexp, SpecFloat.fexp, emin, prec, emax. lia. }
  exists mz, ez. split; [apply binary_round_aux_canonical; [exact Hcan | unfold emax, prec; lia]|].
  split; [rewrite V; unfold F2R; cbn [powerRZ]; ring|].
  split; [exact Hcan|]. cbn [Zdigits2]. unfold emax, prec. lia.
Qed.

(** The floor of a positive double of value at most [K] lies in [0, K]. *)
Lemma Math_floor_bounds (m : positive) (e K : Z) :
  (F2R (Zpos m) e <= IZR K)%R ->
  exists i, Math_floor (S754_finite false m e) = Some i /\ 0 <= i <= K.
Proof.
  intros H. unfold Math_floor. cbn [cond_Zopp]. eexists. split; [reflexivity|].
  destruct (Z.leb_spec 0 e) as [He|He].
  - split; [apply Z.mul_nonneg_nonneg; [lia | apply Z.pow_nonneg; lia]|].
    apply le_IZR. rewrite mult_IZR, IZR_pow2 by exact He. exact H.
  - assert (P : 0 < 2 ^ (- e)) by (apply Z.pow_pos_nonneg; lia).
    split; [apply Z.div_pos; lia|].
    apply Z.div_le_upper_bound; [exact P|].
    apply le_IZR. rewrite mult_IZR, IZR_pow2 by lia.
    unfold F2R in H. pose proof (powerRZ_2_pos e) as Pe. pose proof (powerRZ_2_pos (- e)) as Pn.
    assert (Hinv : (powerRZ 2 e * powerRZ 2 (- e) = 1)%R).
    { rewrite <- powerRZ_2_add. replace (e + - e) with 0 by lia. reflexivity. }
    assert (Hm : (IZR (Z.pos m) = IZR (Z.pos m) * powerRZ 2 e * powerRZ 2 (- e))%R).
    { rewrite Rmult_assoc, Hinv. ring. }
    rewrite Hm. rewrite (Rmult_comm (powerRZ 2 (- e))).
    apply Rmult_le_compat_r; [lra | exact H].
Qed.

(** ** Division stays finite on the contrast range *)

Lemma shr_1_inv0 (m0 k : Z) (mrs : shr_record) :
  0 <= k -> shr_inv0 m0 k mrs -> shr_inv0 m0 (k + 1) (shr_1 mrs).
Proof.
  intros Hk (Hm & Hle). destruct mrs as [m r s]. unfold shr_inv0 in *.
  cbn [shr_m] in *. rewrite Z.pow_add_r, Z.pow_1_r by lia.
  assert (P : 0 < 2 ^ k) by (apply Z.pow_pos_nonneg; lia).
  destruct m as [|[p|p|]|p]; cbn [shr_1 shr_m]; lia.
Qed.

Lemma shr_fexp_any (m e : Z) (l : location) :
  0 <= m ->
  let k := Z.max 0 (fexp (Zdigits2 m + e) - e) in
  exists mrs, shr_fexp prec emax m e l = (mrs, e + k) /\ shr_inv0 m k mrs.
Proof.
  intros Hm k. unfold shr_fexp, shr. fold fexp.
  assert (I0 : shr_inv0 m 0 (shr_record_of_loc m l)).
  { unfold shr_inv0. destruct l as [|[| |]]; cbn [shr_record_of_loc shr_m]; lia. }
  subst k. destruct (fexp (Zdigits2 m + e) - e) as [|p|p] eqn:En.
  - eexists. split; [rewrite Z.add_0_r; reflexivity | exact I0].
  - eexists. split; [replace (Z.max 0 (Z.pos p)) with (Z.pos p) by lia; reflexivity|].
    replace (Z.max 0 (Z.pos p)) with (0 + Z.pos p) by lia.
    apply (iter_pos_inv shr_1 (shr_inv0 m)); [intros; apply shr_1_inv0; assumption | lia | exact I0].
  - eexists. split; [replace (Z.max 0 (Z.neg p)) with 0 by lia; rewrite Z.add_0_r; reflexivity | exact I0].
Qed.

Lemma Zdigits2_le_of_lt (a n : Z) : 0 <= a -> 0 <= n -> a < 2 ^ n -> Zdigits2 a <= n.
Proof.
  intros Ha Hn Hlt. destruct (Z.eq_dec a 0) as [->|Hne]; [cbn; lia|].
  pose proof (Zdigits2_bounds a ltac:(lia)) as [L _].
  destruct (Z_le_gt_dec (Zdigits2 a) n) as [H|H]; [exact H|].
  assert (2 ^ n <= 2 ^ (Zdigits2 a - 1)) by (apply Z.pow_le_mono_r; lia). lia.
Qed.

Lemma round_nearest_even_le (m : Z) (l : location) :
  m <= round_nearest_even m l <= m + 1.
Proof. destruct l as [|[| |]]; cbn; try destruct (Z.even m); lia. Qed.

(** Rounding a mantissa whose magnitude is far below the overflow
    threshold gives a zero or a finite double. *)
Lemma binary_round_aux_finite (mx ex : Z) (lx : location) (B : Z) :
  0 <= mx -> ex <= B -> Zdigits2 mx + ex <= B ->
  emin prec emax <= B -> B + 1 <= emax - prec ->
  finite_num (binary_round_aux prec emax false mx ex lx).
Proof.
  intros Hmx Hex Hdx HB1 HB2. unfold binary_round_aux.
  destruct (shr_fexp_any mx ex lx Hmx) as (mrs1 & E1 & P1 & L1). rewrite E1.
  set (k1 := Z.max 0 (fexp (Zdigits2 mx + ex) - ex)) in *.
  pose proof (round_nearest_even_le (shr_m mrs1) (loc_of_shr_record mrs1)) as [R1 R2].
  set (m2 := round_nearest_even (shr_m mrs1) (loc_of_shr_record mrs1)) in *.
  destruct (shr_fexp_any m2 (ex + k1) loc_Exact ltac:(lia)) as (mrs2 & E2 & P2 & L2). rewrite E2.
  set (k2 := Z.max 0 (fexp (Zdigits2 m2 + (ex + k1)) - (ex + k1))) in *.
  destruct (shr_m mrs2) as [|m3|m3] eqn:E3; [exact I | | lia].
  assert (He1 : ex + k1 <= B).
  { unfold k1, fexp, SpecFloat.fexp. unfold prec in *. lia. }
  assert (Hd2 : Zdigits2 m2 + (ex + k1) <= B + 1).
  { pose proof (Zdigits2_nonneg mx) as Dx.
    assert (Hk1 : 0 <= k1) by (unfold k1; lia).
    assert (P : 0 < 2 ^ k1) by (apply Z.pow_pos_nonneg; lia).
    assert (Hb : m2 * 2 ^ k1 < 2 ^ (Z.max (Zdigits2 mx) k1 + 1)).
    { assert (Hx : mx < 2 ^ Zdigits2 mx).
      { destruct (Z.eq_dec mx 0) as [->|Hne]; [cbn; lia|]. apply Zdigits2_bounds. lia. }
      assert (2 ^ Zdigits2 mx <= 2 ^ Z.max (Zdigits2 mx) k1) by (apply Z.pow_le_mono_r; lia).
      assert (2 ^ k1 <= 2 ^ Z.max (Zdigits2 mx) k1) by (apply Z.pow_le_mono_r; lia).
      rewrite Z.pow_add_r, Z.pow_1_r by lia. nia. }
    replace (Z.max (Zdigits2 mx) k1 + 1) with ((Z.max (Zdigits2 mx) k1 + 1 - k1) + k1) in Hb by lia.
    rewrite Z.pow_add_r in Hb by lia.
    assert (Hm2 : m2 < 2 ^ (Z.max (Zdigits2 mx) k1 + 1 - k1)) by nia.
    apply Zdigits2_le_of_lt in Hm2; lia. }
  assert (He2 : ex + k1 + k2 <= emax - prec).
  { unfold k2, fexp, SpecFloat.fexp. unfold prec in *. lia. }
  apply Z.leb_le in He2. rewrite He2. exact I.
Qed.

(** A contrast in [0.1, 5.0] is a positive double with exponent at least
    that of 0.1. *)
Lemma contrast_in_range_shape (c : number) :
  contrast_in_range c -> exists m e, c = S754_finite false m e /\ -56 <= e.
Proof.
  intros (_ & Hlo & Hhi). unfold SFleb, lit_0_1, lit_5_0 in *.
  destruct c as [s | s | | s m e]; cbn [SFcompare] in *; try discriminate.
  - destruct s; discriminate.
  - destruct s; [discriminate|]. exists m, e. split; [reflexivity|].
    destruct (Z.compare (-56) e) eqn:C; try discriminate.
    + apply Z.compare_eq in C. lia.
    + rewrite Z.compare_lt_iff in C. lia.
Qed.

(** [1 / contrast] is a finite double. *)
Lemma num_div_one_finite (c : number) :
  contrast_in_range c -> finite_num (num_div one c).
Proof.
  intros Hc. destruct (contrast_in_range_shape c Hc) as (m & e & -> & He).
  destruct Hc as (Hv & _). pose proof (valid_digits m e Hv) as Hd.
  unfold num_div, one, SFdiv, SFdiv_core_binary. cbn [xorb].
  change (Zdigits2 4503599627370496) with 53.
  set (e' := Z.min (SpecFloat.fexp prec emax (53 + -52 - (Zdigits2 (Z.pos m) + e))) (-52 - e)).
  set (s := -52 - e - e').
  set (m' := match s with Z.pos _ => Z.shiftl 4503599627370496 s | Z0 => 4503599627370496 | Z.neg _ => 0 end).
  assert (Hs : 0 <= s) by (unfold s, e'; lia).
  assert (Hm' : 0 <= m' < 2 ^ (53 + s)).
  { unfold m'. destruct s as [|p|p] eqn:Es; cbv beta iota; try lia.
    rewrite Z.shiftl_mul_pow2 by lia. rewrite Z.pow_add_r by lia.
      change 4503599627370496 with (2 ^ 52).
      assert (0 < 2 ^ Z.pos p) by (apply Z.pow_pos_nonneg; lia). nia. }
  pose proof (Z_div_mod m' (Z.pos m) ltac:(lia)) as DM.
  destruct (Z.div_eucl m' (Z.pos m)) as [q r].
  destruct DM as [Hq Hr].
  assert (Hq0 : 0 <= q <= m') by nia.
  apply (binary_round_aux_finite q e' _ 57); try (unfold emin, emax, prec; lia).
  assert (Zdigits2 q <= 53 + s) by (apply Zdigits2_le_of_lt; lia).
  unfold s in *. lia.
Qed.

(** ** Comparisons *)

Lemma SFcompare_swap (a b : number) :
  SFcompare b a = option_map CompOpp (SFcompare a b).
Proof.
  destruct a as [sa | sa | | sa ma ea], b as [sb | sb | | sb mb eb]; cbn [SFcompare option_map];
    try reflexivity; try (destruct sa; reflexivity); try (destruct sb; reflexivity);
    try (destruct sa, sb; reflexivity).
  destruct sa, sb; cbn [CompOpp]; try reflexivity.
  - rewrite (Z.compare_antisym ea eb). destruct (Z.compare ea eb) eqn:C; cbn [CompOpp]; try reflexivity.
    rewrite (Pos.compare_cont_antisym ma mb Eq). reflexivity.
  - rewrite (Z.compare_antisym ea eb). destruct (Z.compare ea eb) eqn:C; cbn [CompOpp]; try reflexivity.
    rewrite (Pos.compare_cont_antisym ma mb Eq). reflexivity.
Qed.

(** Between numbers, [!(a < b)] is [b <= a]. *)
Lemma not_lt_le (a b : number) :
  a <> NaN -> b <> NaN -> num_lt a b = false -> SFleb b a = true.
Proof.
  unfold num_lt, SFltb, SFleb. intros Ha Hb. rewrite (SFcompare_swap a b).
  destruct (SFcompare a b) as [[| |]|] eqn:C; cbn [option_map CompOpp]; try reflexivity; try discriminate.
  intros _. exfalso.
  destruct a, b; cbn in C; try discriminate; try (apply Ha; reflexivity); try (apply Hb; reflexivity).
Qed.

(** * The mapper *)

Lemma intensity_check :
  forallb (fun n => nonneg_numb (num_div (of_Z (Z.of_nat n)) (of_Z 255))) (seq 0 256) = true.
Proof. vm_compute. reflexivity. Qed.

(** Every byte divided by 255 is [+0] or a positive finite double. *)
Lemma intensity_nonneg (v : Z) :
  0 <= v <= 255 -> nonneg_num (num_div (of_Z v) (of_Z 255)).
Proof.
  intros Hv. pose proof intensity_check as H. rewrite forallb_forall in H.
  specialize (H (Z.to_nat v)). rewrite Z2Nat.id in H by lia.
  assert (Hin : In (Z.to_nat v) (seq 0 256)) by (apply in_seq; lia).
  specialize (H Hin). destruct (num_div (of_Z v) (of_Z 255)) as [[|]|[|]| |[|] m e];
    cbn in H; try discriminate; exact I.
Qed.

(** From a brightness of the unit interval the lookup always finds a glyph. *)
Lemma selectGlyph_defined (invert : bool) (s : list Z) (b : number) :
  let N := Z.of_nat (length s) in
  unit_interval b -> 2 <= N <= 2 ^ 53 ->
  exists idx g,
    Math_floor (num_mul (if invert then num_sub one b else b) (of_Z (N - 1))) = Some idx /\
    0 <= idx <= N - 1 /\
    s !! Z.to_nat (N - 1 - idx) = Some g /\
    selectGlyph invert (CsString s) b = Some g.
Proof.
  intros N Hb HN.
  set (b' := if invert then num_sub one b else b).
  assert (Hb' : unit_interval b').
  { unfold b'. destruct invert; [apply num_sub_one_unit|]; exact Hb. }
  destruct (N - 1) as [|k|k] eqn:Ek; try lia.
  destruct (of_Z_exact k ltac:(lia)) as (mk & ek & Eof & Hval & Hcan & Hfin).
  assert (Hfl : exists idx, Math_floor (num_mul b' (of_Z (Z.pos k))) = Some idx /\ 0 <= idx <= Z.pos k).
  { rewrite Eof. destruct (num_mul_unit_le b' mk ek Hb' Hcan Hfin) as [-> | (m & e & -> & Hle)].
    - exists 0. split; [reflexivity | lia].
    - apply Math_floor_bounds. rewrite <- Hval. exact Hle. }
  destruct Hfl as (idx & Hfl & Hidx).
  assert (Hlk : is_Some (s !! Z.to_nat (Z.pos k - idx))).
  { apply lookup_lt_is_Some. subst N. lia. }
  destruct Hlk as [g Hg]. exists idx, g.
  split; [exact Hfl|]. split; [exact Hidx|]. split; [exact Hg|].
  unfold selectGlyph. fold b'. cbn [length_minus_1 char_at]. fold N. rewrite Ek, Hfl.
  destruct (Z.ltb_spec (Z.pos k - idx) 0) as [Hlt|_]; [lia | exact Hg].
Qed.

Lemma foldl_append_char (f : nat -> option Z) (l : list nat) (acc : list Z) :
  (forall x, In x l -> is_Some (f x)) ->
  foldl (fun acc x => append_char acc (f x)) acc l = acc ++ map (fun x => default 0 (f x)) l.
Proof.
  revert acc. induction l as [|x l IH]; intros acc Hdef; cbn [foldl map].
  - rewrite app_nil_r. reflexivity.
  - rewrite IH by (intros x' Hx'; apply Hdef; right; exact Hx').
    destruct (Hdef x (or_introl eq_refl)) as [c Hc].
    unfold append_char. rewrite Hc. cbn [default]. rewrite <- app_assoc. reflexivity.
Qed.


Lemma lookup_map {A B : Type} (f : A -> B) (l : list A) (i : nat) :
  map f l !! i = f <$> (l !! i).
Proof.
  revert i. induction l as [|a l IH]; intros [|i]; cbn [map]; try reflexivity. apply IH.
Qed.

Lemma pixel_in_buffer (data : list Z) (width height : Z) (y x : nat) :
  wf_grid data width height ->
  (y < Z.to_nat height)%nat -> (x < Z.to_nat width)%nat ->
  0 <= Z.of_nat y * width + Z.of_nat x < Z.of_nat (length data).
Proof.
  intros (Hw & Hh & Hlen & _) Hy Hx. rewrite Hlen. nia.
Qed.

Lemma pixel_read (data : list Z) (width height : Z) (y x : nat) :
  wf_grid data width height ->
  (y < Z.to_nat height)%nat -> (x < Z.to_nat width)%nat ->
  exists v, data !! Z.to_nat (Z.of_nat y * width + Z.of_nat x) = Some v /\ 0 <= v <= 255.
Proof.
  intros Hwf Hy Hx. pose proof (pixel_in_buffer data width height y x Hwf Hy Hx) as Hi.
  destruct (lookup_lt_is_Some_2 data (Z.to_nat (Z.of_nat y * width + Z.of_nat x))) as [v Hv]; [lia|].
  exists v. split; [exact Hv|].
  destruct Hwf as (_ & _ & _ & Hall). rewrite Forall_forall in Hall.
  apply Hall. eapply list_elem_of_lookup_2. exact Hv.
Qed.

Lemma split_nl_nonempty (s : list Z) : split_nl s <> [].
Proof.
  destruct s as [|c rest]; cbn [split_nl]; [discriminate|].
  destruct (c =? LF); [discriminate|]. destruct (split_nl rest); discriminate.
Qed.

Lemma split_nl_line (r rest : list Z) :
  ~ In LF r -> split_nl (r ++ LF :: rest) = r :: split_nl rest.
Proof.
  induction r as [|c r IH]; intros Hnl; cbn [app split_nl].
  - rewrite Z.eqb_refl. reflexivity.
  - destruct (Z.eqb_spec c LF) as [->|_]; [exfalso; apply Hnl; left; reflexivity|].
    rewrite IH by (intros Hin; apply Hnl; right; exact Hin). reflexivity.
Qed.

(** Splitting rows that end in line breaks returns the rows and the empty
    piece after the last line break. *)
Lemma split_nl_rows (rows : list (list Z)) :
  Forall (fun r => ~ In LF r) rows ->
  split_nl (concat (map (fun r => r ++ [LF]) rows)) = rows ++ [[]].
Proof.
  induction 1 as [|r rows Hr _ IH]; cbn [map concat app]; [reflexivity|].
  rewrite <- app_assoc. cbn [app]. rewrite split_nl_line by exact Hr. rewrite IH. reflexivity.
Qed.

Lemma length_concat_rows (rows : list (list Z)) (n : nat) :
  Forall (fun r => length r = n) rows ->
  length (concat (map (fun r => r ++ [LF]) rows)) = (length rows * S n)%nat.
Proof.
  induction 1 as [|r rows Hr _ IH]; cbn [map concat length]; [reflexivity|].
  rewrite !length_app, IH, Hr. cbn [length]. lia.
Qed.

(** The unit at column [x] of row [y] of rows that are each followed by a
    line break. *)
Lemma lookup_concat_rows (rows : list (list Z)) (n y x : nat) (r : list Z) :
  Forall (fun r => length r = n) rows -> rows !! y = Some r -> (x < n)%nat ->
  concat (map (fun r => r ++ [LF]) rows) !! (y * (n + 1) + x)%nat = r !! x.
Proof.
  intros Hall. revert y. induction Hall as [|r0 rows Hr0 _ IH]; intros y Hy Hx.
  - rewrite lookup_nil in Hy. discriminate.
  - cbn [map concat]. destruct y as [|y]; cbn in Hy.
    + injection Hy as ->. cbn [Nat.mul Nat.add].
      rewrite lookup_app_l by (rewrite length_app; cbn [length]; lia).
      apply lookup_app_l. lia.
    + rewrite lookup_app_r by (rewrite length_app; cbn [length]; lia).
      rewrite length_app. cbn [length].
      replace (S y * (n + 1) + x - (length r0 + 1))%nat with (y * (n + 1) + x)%nat by lia.
      apply IH; assumption.
Qed.

(** Every registered charset has between 2 and 11 glyphs, none of them a
    line break. *)
Lemma registered_charset (name : string) (s : list Z) :
  In (name, s) CHARSETS ->
  2 <= Z.of_nat (length s) <= 2 ^ 53 /\ ~ In LF s.
Proof.
  unfold CHARSETS. cbn [In]. intros Hin.
  repeat (destruct Hin as [Heq | Hin];
          [inversion Heq; subst; split;
           [vm_compute; split; discriminate
           | cbn [In]; unfold LF; intros Hf; repeat (destruct Hf as [Hf|Hf]; [discriminate Hf|]); exact Hf]|]).
  destruct Hin.
Qed.

Section Mapper.

Context `{MathPow}.
Variable opts : gmap string value.

Section Rows.

Variables (cs : charset_obj) (data : list Z) (width : Z).

Lemma convertRow_defined (acc : list Z) (y : nat) :
  (forall x, (x < Z.to_nat width)%nat -> is_Some (pixelChar opts cs data width y x)) ->
  convertRow opts cs data width acc y = acc ++ rowGlyphs opts cs data width y ++ [LF].
Proof.
  intros Hdef. unfold convertRow, rowGlyphs. rewrite foldl_append_char.
  - rewrite <- app_assoc. reflexivity.
  - intros x Hx. apply in_seq in Hx. apply Hdef. lia.
Qed.

Lemma foldl_convertRow (ys : list nat) (acc : list Z) :
  (forall y x, In y ys -> (x < Z.to_nat width)%nat ->
               is_Some (pixelChar opts cs data width y x)) ->
  foldl (convertRow opts cs data width) acc ys =
  acc ++ concat (map (fun y => rowGlyphs opts cs data width y ++ [LF]) ys).
Proof.
  revert acc. induction ys as [|y ys IH]; intros acc Hdef; cbn [foldl map concat].
  - rewrite app_nil_r. reflexivity.
  - rewrite IH by (intros y' x Hy'; apply Hdef; right; exact Hy').
    rewrite convertRow_defined by (intros x Hx; apply Hdef; [left; reflexivity | exact Hx]).
    rewrite <- !app_assoc. reflexivity.
Qed.

Lemma pixelsToAscii_rows (height : Z) :
  (forall y x, (y < Z.to_nat height)%nat -> (x < Z.to_nat width)%nat ->
               is_Some (pixelChar opts cs data width y x)) ->
  pixelsToAscii opts cs data width height =
  concat (map (fun r => r ++ [LF])
              (map (rowGlyphs opts cs data width) (seq 0 (Z.to_nat height)))).
Proof.
  intros Hdef. unfold pixelsToAscii. rewrite foldl_convertRow.
  - rewrite map_map. reflexivity.
  - intros y x Hy Hx. apply in_seq in Hy. apply Hdef; [lia | exact Hx].
Qed.

Lemma rowGlyphs_lookup (y x : nat) :
  (x < Z.to_nat width)%nat ->
  rowGlyphs opts cs data width y !! x = Some (default 0 (pixelChar opts cs data width y x)).
Proof.
  intros Hx. unfold rowGlyphs. rewrite lookup_map.
  rewrite lookup_seq_lt by exact Hx. reflexivity.
Qed.

End Rows.

(** The mapper reads [opts] through [contrast] and the truthiness of
    [invert] only. *)
Lemma clampedBrightness_ext (opts' : gmap string value) (px : option Z) :
  opts !! "contrast" = opts' !! "contrast" ->
  clampedBrightness opts px = clampedBrightness opts' px.
Proof. intros Hc. unfold clampedBrightness. rewrite Hc. reflexivity. Qed.


Section InRange.

Variable c : number.
Hypothesis Hcontrast : opts !! "contrast" = Some (VNumber c).
Hypothesis Hrange : contrast_in_range c.

(** After the contrast curve and the clamp the brightness is a number of
    the unit interval. *)
Lemma clampedBrightness_unit (v : Z) :
  0 <= v <= 255 -> unit_interval (clampedBrightness opts (Some v)).
Proof.
  intros Hv. unfold clampedBrightness. rewrite Hcontrast. cbn [as_number].
  apply clamp_unit; [apply Math_pow_valid|].
  apply Math_pow_not_nan; [apply intensity_nonneg; exact Hv | apply num_div_one_finite; exact Hrange].
Qed.

Variables (s : list Z) (data : list Z) (width height : Z).
Hypothesis HN : 2 <= Z.of_nat (length s) <= 2 ^ 53.
Hypothesis Hwf : wf_grid data width height.

Lemma pixelChar_defined (y x : nat) :
  (y < Z.to_nat height)%nat -> (x < Z.to_nat width)%nat ->
  exists g, pixelChar opts (CsString s) data width y x = Some g /\ In g s.
Proof.
  intros Hy Hx.
  destruct (pixel_read data width height y x Hwf Hy Hx) as (v & Hv & Hv255).
  pose proof (pixel_in_buffer data width height y x Hwf Hy Hx) as Hi.
  unfold pixelChar.
  destruct (Z.ltb_spec (Z.of_nat y * width + Z.of_nat x) 0) as [Hlt|_]; [lia|].
  rewrite Hv.
  destruct (selectGlyph_defined (ToBoolean (opts !! "invert")) s (clampedBrightness opts (Some v)))
    as (idx & g & _ & _ & Hg & Hsel); [apply clampedBrightness_unit; exact Hv255 | exact HN |].
  exists g. split; [exact Hsel|]. apply list_elem_of_In. eapply list_elem_of_lookup_2. exact Hg.
Qed.

Lemma rowGlyphs_shape (y : nat) :
  (y < Z.to_nat height)%nat ->
  length (rowGlyphs opts (CsString s) data width y) = Z.to_nat width /\
  Forall (fun g => In g s) (rowGlyphs opts (CsString s) data width y).
Proof.
  intros Hy. unfold rowGlyphs. split.
  - rewrite length_map, length_seq. reflexivity.
  - apply Forall_forall. intros g Hg. apply list_elem_of_In, in_map_iff in Hg.
    destruct Hg as (x & <- & Hx). apply in_seq in Hx.
    destruct (pixelChar_defined y x Hy ltac:(lia)) as (g & -> & Hin).
    exact Hin.
Qed.

(** The output is the rows of glyphs, each followed by a line break. *)
Lemma pixelsToAscii_defined :
  pixelsToAscii opts (CsString s) data width height =
  concat (map (fun r => r ++ [LF])
              (map (rowGlyphs opts (CsString s) data width) (seq 0 (Z.to_nat height)))).
Proof.
  apply pixelsToAscii_rows. intros y x Hy Hx.
  destruct (pixelChar_defined y x Hy Hx) as (g & -> & _). eexists. reflexivity.
Qed.

End InRange.

End Mapper.

Section Emitted.

Context `{MathPow}.
Variables (opts : gmap string value) (c : number) (s : list Z).
Variables (data : list Z) (width height : Z).
Hypothesis Hcontrast : opts !! "contrast" = Some (VNumber c).
Hypothesis Hrange : contrast_in_range c.
Hypothesis HN : 2 <= Z.of_nat (length s) <= 2 ^ 53.
Hypothesis Hwf : wf_grid data width height.

(** The output holds, at column [x] of row [y], the [char] of pixel
    (x, y): rows are [width + 1] units apart. *)
Lemma pixelsToAscii_lookup (y x : nat) :
  (y < Z.to_nat height)%nat -> (x < Z.to_nat width)%nat ->
  pixelsToAscii opts (CsString s) data width height !! (y * (Z.to_nat width + 1) + x)%nat =
  pixelChar opts (CsString s) data width y x.
Proof.
  intros Hy Hx.
  rewrite (pixelsToAscii_defined opts c Hcontrast Hrange s data width height HN Hwf).
  rewrite (lookup_concat_rows _ (Z.to_nat width) y x (rowGlyphs opts (CsString s) data width y)).
  - rewrite rowGlyphs_lookup by exact Hx.
    destruct (pixelChar_defined opts c Hcontrast Hrange s data width height HN Hwf y x Hy Hx)
      as (g & -> & _). reflexivity.
  - apply Forall_forall. intros r Hr. apply list_elem_of_In, in_map_iff in Hr.
    destruct Hr as (y' & <- & Hy'). apply in_seq in Hy'.
    apply (rowGlyphs_shape opts c Hcontrast Hrange s data width height HN Hwf y'). lia.
  - rewrite lookup_map, lookup_seq_lt by exact Hy. reflexivity.
  - exact Hx.
Qed.

End Emitted.

(** * The coarse [Math.pow] satisfies the interface *)

Lemma Math_pow_coarse_valid (b e : number) : valid (Math_pow_coarse b e).
Proof.
  unfold valid, Math_pow_coarse.
  destruct e as [se | se | | se me ee]; try reflexivity;
    destruct b as [[|] | [|] | | [|] mb eb]; try reflexivity;
    try (destruct se; reflexivity).
  - destruct (SFeqb _ _); reflexivity.
  - destruct (valid_binary prec emax (S754_finite false mb eb)) eqn:E; [exact E | reflexivity].
Qed.

Lemma Math_pow_coarse_not_nan (b e : number) :
  nonneg_num b -> finite_num e -> Math_pow_coarse b e <> NaN.
Proof.
  intros Hb He. unfold NaN.
  destruct b as [[|] | [|] | | [|] mb eb]; cbn [nonneg_num] in Hb; try contradiction;
    destruct e as [se | se | | [|] me ee]; cbn [finite_num] in He; try contradiction;
    cbn [Math_pow_coarse]; try discriminate;
    destruct (valid_binary prec emax (S754_finite false mb eb)); discriminate.
Qed.

Lemma Math_pow_coarse_one (e : number) : finite_num e -> Math_pow_coarse one e = one.
Proof. destruct e as [se | se | | se me ee]; cbn [finite_num]; try (intros []); reflexivity. Qed.

Lemma Math_pow_coarse_zero (e : number) : pos_finite e -> Math_pow_coarse pzero e = pzero.
Proof. destruct e as [se | se | | [|] me ee]; cbn [pos_finite]; try (intros []); reflexivity. Qed.

#[local] Instance coarse_pow : MathPow := {|
  Math_pow := Math_pow_coarse;
  Math_pow_valid := Math_pow_coarse_valid;
  Math_pow_not_nan := Math_pow_coarse_not_nan;
  Math_pow_one := Math_pow_coarse_one;
  Math_pow_zero := Math_pow_coarse_zero
|}.

(** * Sample inputs *)

Lemma lit_1_2_in_range : contrast_in_range lit_1_2.
Proof. repeat split; reflexivity. Qed.

Lemma sample_options_contrast : sample_options !! "contrast" = Some (VNumber lit_1_2).
Proof. reflexivity. Qed.

Lemma simple_registered : In ("simple", simple_charset) CHARSETS.
Proof. do 3 right. left. reflexivity. Qed.

Lemma wf_grid_sample : wf_grid [0; 255] 2 1.
Proof.
  unfold wf_grid. split; [lia|]. split; [lia|]. split; [reflexivity|].
  repeat constructor; lia.
Qed.

Lemma sample_options_invert (b : bool) (k : string) :
  k <> "invert" ->
  <["invert" := VBool b]> sample_options !! k = sample_options !! k.
Proof. intros Hk. apply lookup_insert_ne. congruence. Qed.

(** * Properties of the mapper *)

(** C1. For a well-formed grid (so every intensity [v] is in [0, 255]), a
    contrast in [0.1, 5.0] and a charset of [N >= 2] glyphs ([N] at most
    2^53, as the length of every string is), the mapper emits, for the
    pixel at column [x] of row [y], the glyph at position [N-1-idx] of the
    charset, where [idx] is the floor of [b' * (N-1)] and [b'] is [v/255]
    raised to [1/contrast], clamped to [0, 1], and then, when [invert] is
    set, replaced by [1 - b']; the position always exists.  Emitted means
    written to the output: the glyph is the loop's [char] and it is the
    unit at index [y * (width + 1) + x] of the string returned. *)
Theorem C1_pixel_mapping `{MathPow} (opts : gmap string value) (c : number)
    (s : list Z) (data : list Z) (width height : Z) (y x : nat) (v : Z) :
  opts !! "contrast" = Some (VNumber c) -> contrast_in_range c ->
  2 <= Z.of_nat (length s) <= 2 ^ 53 ->
  wf_grid data width height ->
  (y < Z.to_nat height)%nat -> (x < Z.to_nat width)%nat ->
  data !! Z.to_nat (Z.of_nat y * width + Z.of_nat x) = Some v ->
  exists pos g,
    spec_glyph_index c (ToBoolean (opts !! "invert")) (Z.of_nat (length s)) v = Some pos /\
    0 <= pos <= Z.of_nat (length s) - 1 /\
    s !! Z.to_nat pos = Some g /\
    pixelChar opts (CsString s) data width y x = Some g /\
    pixelsToAscii opts (CsString s) data width height !! (y * (Z.to_nat width + 1) + x)%nat =
      Some g.
Proof.
  intros Hc Hr HN Hwf Hy Hx Hv.
  assert (Hrange : 0 <= v <= 255).
  { destruct (pixel_read data width height y x Hwf Hy Hx) as (v' & Hv' & Hv255).
    rewrite Hv in Hv'. injection Hv' as <-. exact Hv255. }
  destruct (selectGlyph_defined (ToBoolean (opts !! "invert")) s (clampedBrightness opts (Some v)))
    as (idx & g & Hfl & Hidx & Hg & Hsel);
    [apply (clampedBrightness_unit opts c Hc Hr); exact Hrange | exact HN |].
  assert (Hpix : pixelChar opts (CsString s) data width y x = Some g).
  { unfold pixelChar.
    destruct (Z.ltb_spec (Z.of_nat y * width + Z.of_nat x) 0) as [Hlt|_];
      [pose proof (pixel_in_buffer data width height y x Hwf Hy Hx); lia|].
    rewrite Hv. exact Hsel. }
  exists (Z.of_nat (length s) - 1 - idx), g.
  split.
  - unfold spec_glyph_index. unfold clampedBrightness in Hfl. rewrite Hc in Hfl.
    cbn [as_number] in Hfl. rewrite Hfl. reflexivity.
  - split; [lia|]. split; [exact Hg|]. split; [exact Hpix|].
    rewrite (pixelsToAscii_lookup opts c s data width height Hc Hr HN Hwf y x Hy Hx).
    exact Hpix.
Qed.

Lemma C1_pixel_mapping_witness :
  exists pos g,
    spec_glyph_index lit_1_2 (ToBoolean (sample_options !! "invert"))
      (Z.of_nat (length simple_charset)) 255 = Some pos /\
    0 <= pos <= Z.of_nat (length simple_charset) - 1 /\
    simple_charset !! Z.to_nat pos = Some g /\
    pixelChar sample_options (CsString simple_charset) [0; 255] 2 0 1 = Some g /\
    pixelsToAscii sample_options (CsString simple_charset) [0; 255] 2 1
      !! (0 * (Z.to_nat 2 + 1) + 1)%nat = Some g.
Proof.
  apply (C1_pixel_mapping sample_options lit_1_2 simple_charset [0; 255] 2 1 0 1 255).
  - reflexivity.
  - exact lit_1_2_in_range.
  - vm_compute. split; discriminate.
  - exact wf_grid_sample.
  - vm_compute. lia.
  - vm_compute. lia.
  - reflexivity.
Defined.

(** C3, within the documented ranges.  For a well-formed [width] x [height]
    grid, a contrast in [0.1, 5.0] and a registered charset, the mapper's
    output is exactly [height] rows, each of
    exactly [width] glyphs of the charset and each followed by a line break,
    the last one included; splitting the output at line breaks gives these
    [height] non-empty rows followed by the empty remainder only. *)
Theorem C3_output_rows `{MathPow} (opts : gmap string value) (c : number)
    (name : string) (s : list Z) (data : list Z) (width height : Z) :
  opts !! "contrast" = Some (VNumber c) -> contrast_in_range c ->
  In (name, s) CHARSETS ->
  wf_grid data width height -> 0 < width ->
  exists rows : list (list Z),
    pixelsToAscii opts (CsString s) data width height =
      concat (map (fun r => r ++ [LF]) rows) /\
    length rows = Z.to_nat height /\
    Forall (fun r => length r = Z.to_nat width /\ r <> [] /\ Forall (fun g => In g s) r) rows /\
    split_nl (pixelsToAscii opts (CsString s) data width height) = rows ++ [[]].
Proof.
  intros Hc Hr Hreg Hwf Hw.
  destruct (registered_charset name s Hreg) as [HN Hnl].
  set (rows := map (rowGlyphs opts (CsString s) data width) (seq 0 (Z.to_nat height))).
  pose proof (pixelsToAscii_defined opts c Hc Hr s data width height HN Hwf) as Hout.
  fold rows in Hout.
  assert (Hrows : Forall (fun r => length r = Z.to_nat width /\ r <> [] /\ Forall (fun g => In g s) r) rows).
  { apply Forall_forall. intros r Hin. apply list_elem_of_In, in_map_iff in Hin.
    destruct Hin as (y & <- & Hy). apply in_seq in Hy.
    destruct (rowGlyphs_shape opts c Hc Hr s data width height HN Hwf y ltac:(lia)) as [Hlen Hall].
    split; [exact Hlen|]. split; [|exact Hall].
    intros Hnil. rewrite Hnil in Hlen. cbn in Hlen. lia. }
  exists rows. split; [exact Hout|]. split.
  - unfold rows. rewrite length_map, length_seq. reflexivity.
  - split; [exact Hrows|]. rewrite Hout. apply split_nl_rows.
    eapply Forall_impl; [exact Hrows|]. intros r (_ & _ & Hall) Hlf.
    rewrite Forall_forall in Hall. apply Hnl. apply Hall. apply list_elem_of_In. exact Hlf.
Qed.

Lemma C3_output_rows_witness :
  exists rows : list (list Z),
    pixelsToAscii sample_options (CsString simple_charset) [0; 255] 2 1 =
      concat (map (fun r => r ++ [LF]) rows) /\
    length rows = Z.to_nat 1 /\
    Forall (fun r => length r = Z.to_nat 2 /\ r <> [] /\
                     Forall (fun g => In g simple_charset) r) rows /\
    split_nl (pixelsToAscii sample_options (CsString simple_charset) [0; 255] 2 1) = rows ++ [[]].
Proof.
  apply (C3_output_rows sample_options lit_1_2 "simple" simple_charset [0; 255] 2 1).
  - reflexivity.
  - exact lit_1_2_in_range.
  - exact simple_registered.
  - exact wf_grid_sample.
  - lia.
Defined.

(** C4. On a well-formed grid, with a contrast in [0.1, 5.0] and a
    registered charset, every step of the per-pixel mapping is defined: both
    divisors are non-zero finite doubles, the pixel index [y*width + x] lies
    inside the buffer, the brightness after the clamp is a number of the unit
    interval, the floor of the scaled brightness is an integer [idx] whose
    charset index [N-1-idx] lies in [0, N-1], and the lookup yields a glyph. *)
Theorem C4_mapping_total `{MathPow} (opts : gmap string value) (c : number)
    (name : string) (s : list Z) (data : list Z) (width height : Z) (y x : nat) :
  opts !! "contrast" = Some (VNumber c) -> contrast_in_range c ->
  In (name, s) CHARSETS ->
  wf_grid data width height ->
  (y < Z.to_nat height)%nat -> (x < Z.to_nat width)%nat ->
  let pixelIndex := Z.of_nat y * width + Z.of_nat x in
  let N := Z.of_nat (length s) in
  pos_finite (of_Z 255) /\ pos_finite c /\
  0 <= pixelIndex < Z.of_nat (length data) /\
  exists v idx g,
    data !! Z.to_nat pixelIndex = Some v /\
    unit_interval (clampedBrightness opts (Some v)) /\
    Math_floor (num_mul (if ToBoolean (opts !! "invert")
                         then num_sub one (clampedBrightness opts (Some v))
                         else clampedBrightness opts (Some v))
                        (length_minus_1 (CsString s))) = Some idx /\
    0 <= N - 1 - idx <= N - 1 /\
    s !! Z.to_nat (N - 1 - idx) = Some g /\
    pixelChar opts (CsString s) data width y x = Some g.
Proof.
  intros Hc Hr Hreg Hwf Hy Hx. cbv zeta.
  destruct (registered_charset name s Hreg) as [HN _].
  split; [exact I|]. split.
  { destruct (contrast_in_range_shape c Hr) as (m & e & -> & _). exact I. }
  pose proof (pixel_in_buffer data width height y x Hwf Hy Hx) as Hi. split; [exact Hi|].
  destruct (pixel_read data width height y x Hwf Hy Hx) as (v & Hv & Hrange).
  pose proof (clampedBrightness_unit opts c Hc Hr v Hrange) as Hunit.
  destruct (selectGlyph_defined (ToBoolean (opts !! "invert")) s (clampedBrightness opts (Some v))
              Hunit HN) as (idx & g & Hfl & Hidx & Hg & Hsel).
  exists v, idx, g. split; [exact Hv|]. split; [exact Hunit|]. split; [exact Hfl|].
  split; [lia|]. split; [exact Hg|].
  unfold pixelChar.
  destruct (Z.ltb_spec (Z.of_nat y * width + Z.of_nat x) 0) as [Hlt|_]; [lia|].
  rewrite Hv. exact Hsel.
Qed.

Lemma C4_mapping_total_witness :
  pos_finite (of_Z 255) /\ pos_finite lit_1_2 /\
  0 <= Z.of_nat 0 * 2 + Z.of_nat 1 < Z.of_nat (length [0; 255]) /\
  exists v idx g,
    [0; 255] !! Z.to_nat (Z.of_nat 0 * 2 + Z.of_nat 1) = Some v /\
    unit_interval (clampedBrightness sample_options (Some v)) /\
    Math_floor (num_mul (if ToBoolean (sample_options !! "invert")
                         then num_sub one (clampedBrightness sample_options (Some v))
                         else clampedBrightness sample_options (Some v))
                        (length_minus_1 (CsString simple_charset))) = Some idx /\
    0 <= Z.of_nat (length simple_charset) - 1 - idx <= Z.of_nat (length simple_charset) - 1 /\
    simple_charset !! Z.to_nat (Z.of_nat (length simple_charset) - 1 - idx) = Some g /\
    pixelChar sample_options (CsString simple_charset) [0; 255] 2 0 1 = Some g.
Proof.
  apply (C4_mapping_total sample_options lit_1_2 "simple" simple_charset [0; 255] 2 1 0 1).
  - reflexivity.
  - exact lit_1_2_in_range.
  - exact simple_registered.
  - exact wf_grid_sample.
  - vm_compute. lia.
  - vm_compute. lia.
Defined.

(** The range of the contrast matters: NaN passes the comparisons of the
    validator, and the mapper then finds no glyph. *)
Example nan_contrast_unmapped :
  validateOptions {["contrast" := VNumber NaN]} = Ok (<["contrast" := VNumber NaN]> defaults) /\
  pixelChar (<["contrast" := VNumber NaN]> defaults) (CsString simple_charset) [0; 255] 2 0 1 = None.
Proof. split; vm_compute; reflexivity. Qed.

(** C9. Inversion law.  For two option sets that differ only in [invert],
    true in the first and false in the second, and for every grid and
    position: the glyph the first selects for the pixel, whose clamped
    brightness is [b'], is the glyph the second selects for the brightness
    [1 - b'] at that position. *)
Theorem C9_inversion_law `{MathPow} (optsT optsF : gmap string value) (cs : charset_obj)
    (data : list Z) (width : Z) (y x : nat) :
  (forall k, k <> "invert" -> optsT !! k = optsF !! k) ->
  optsT !! "invert" = Some (VBool true) ->
  optsF !! "invert" = Some (VBool false) ->
  let pixelIndex := Z.of_nat y * width + Z.of_nat x in
  let px := if pixelIndex <? 0 then None else data !! Z.to_nat pixelIndex in
  pixelChar optsT cs data width y x =
  selectGlyph (ToBoolean (optsF !! "invert")) cs (num_sub one (clampedBrightness optsF px)).
Proof.
  intros Hsame HT HF. cbv zeta. unfold pixelChar. rewrite HT, HF.
  rewrite (clampedBrightness_ext optsT optsF) by (apply Hsame; discriminate).
  reflexivity.
Qed.

Lemma C9_inversion_law_witness :
  pixelChar (<["invert" := VBool true]> sample_options) (CsString simple_charset) [0; 255] 2 0 1 =
  selectGlyph (ToBoolean (<["invert" := VBool false]> sample_options !! "invert"))
    (CsString simple_charset)
    (num_sub one (clampedBrightness (<["invert" := VBool false]> sample_options)
                    (if Z.of_nat 0 * 2 + Z.of_nat 1 <? 0 then None
                     else [0; 255] !! Z.to_nat (Z.of_nat 0 * 2 + Z.of_nat 1)))).
Proof.
  apply (C9_inversion_law (<["invert" := VBool true]> sample_options)
           (<["invert" := VBool false]> sample_options)
           (CsString simple_charset) [0; 255] 2 0 1).
  - intros k Hk. rewrite !sample_options_invert by exact Hk. reflexivity.
  - reflexivity.
  - reflexivity.
Defined.

Example white_pixel_simple :
  pixelChar sample_options (CsString simple_charset) [0; 255] 2 0 1 = Some 9608.
Proof. vm_compute. reflexivity. Qed.

Example black_pixel_simple :
  pixelChar sample_options (CsString simple_charset) [0; 255] 2 0 0 = Some 32.
Proof. vm_compute. reflexivity. Qed.

Example inverted_white_pixel_simple :
  pixelChar (<["invert" := VBool true]> sample_options) (CsString simple_charset) [0; 255] 2 0 1
  = Some 32.
Proof. vm_compute. reflexivity. Qed.

(** * The option validator *)

(** The literals are the correctly rounded quotients of their decimal
    numerators and denominators. *)
Example literals_rounded :
  lit_0_05 = num_div (of_Z 5) (of_Z 100) /\
  lit_0_1 = num_div (of_Z 1) (of_Z 10) /\
  lit_0_5 = num_div (of_Z 5) (of_Z 10) /\
  lit_1_2 = num_div (of_Z 12) (of_Z 10) /\
  lit_2_0 = of_Z 2 /\ lit_5_0 = of_Z 5 /\ one = of_Z 1.
Proof. vm_compute. repeat split. Qed.

(** Case analysis on the three range tests of [validateOptions], closing
    the branches that throw with [tac]. *)
Ltac case_rejected tac :=
  unfold validateOptions;
  repeat (destruct (rejected _ _ _); [tac|]).

Lemma validateOptions_merge (options r : gmap string value) :
  validateOptions options = Ok r -> r = options ∪ defaults.
Proof.
  case_rejected ltac:(discriminate). intros Hr. injection Hr as <-. reflexivity.
Qed.

Lemma validateOptions_error (options : gmap string value) (e : error) :
  validateOptions options = Throw e -> InvalidOption e.
Proof.
  unfold InvalidOption. case_rejected ltac:(intros He; injection He as <-; auto).
  discriminate.
Qed.

(** A field the validator does not read leaves its verdict unchanged and
    is returned as supplied. *)
Lemma validateOptions_insert_other (options : gmap string value) (k : string) (v : value) :
  k <> "width" -> k <> "contrast" -> k <> "aspectRatio" ->
  validateOptions (<[k := v]> options) =
  match validateOptions options with
  | Ok r => Ok (<[k := v]> r)
  | Throw e => Throw e
  end.
Proof.
  intros Hw Hc Ha. unfold validateOptions. rewrite <- insert_union_l.
  rewrite !lookup_insert_ne by congruence.
  repeat (destruct (rejected _ _ _); [reflexivity|]). reflexivity.
Qed.

(** What validation ensures of the contrast: it is a Number, and unless it
    is NaN, which the comparisons let through, it lies in [0.1, 5.0]. *)
Lemma validateOptions_contrast (options opts : gmap string value) :
  validateOptions options = Ok opts ->
  exists c, opts !! "contrast" = Some (VNumber c) /\
            (c = NaN \/ (SFleb lit_0_1 c = true /\ SFleb c lit_5_0 = true)).
Proof.
  unfold validateOptions.
  destruct (rejected ((options ∪ defaults) !! "width") _ _); [discriminate|].
  destruct (rejected ((options ∪ defaults) !! "contrast") _ _) eqn:Hc; [discriminate|].
  destruct (rejected ((options ∪ defaults) !! "aspectRatio") _ _); [discriminate|].
  intros Hv. injection Hv as <-.
  unfold rejected in Hc. destruct ((options ∪ defaults) !! "contrast") as [[| | |c| |]|]; try discriminate.
  exists c. split; [reflexivity|]. apply orb_false_elim in Hc as [Hlo Hhi].
  destruct c as [s|s| |s m e]; [right|right|left; reflexivity|right];
    (split; [apply not_lt_le | apply (not_lt_le lit_5_0)]; try discriminate; assumption).
Qed.

(** C5. [validateOptions({})] returns exactly the defaults, width 80, charset
    "detailed", contrast 1.2, aspectRatio 0.5 and invert false; a successful
    validation returns the supplied fields merged over the defaults; and each
    of width 5, width 600, contrast 0.05, contrast 6.0, aspectRatio 0.05 and
    aspectRatio 3.0 makes validation throw its range error for that field
    instead of returning a clamped value. *)
Theorem C5_validateOptions_defaults_and_ranges :
  validateOptions ∅ = Ok defaults /\
  (defaults !! "width" = Some (VNumber (of_Z 80)) /\
   defaults !! "charset" = Some (VString "detailed") /\
   defaults !! "contrast" = Some (VNumber lit_1_2) /\
   defaults !! "aspectRatio" = Some (VNumber lit_0_5) /\
   defaults !! "invert" = Some (VBool false) /\
   dom defaults = {["width"; "charset"; "contrast"; "aspectRatio"; "invert"]}) /\
  (forall options r, validateOptions options = Ok r ->
     forall k, r !! k = match options !! k with
                        | Some v => Some v
                        | None => defaults !! k
                        end) /\
  validateOptions {["width" := VNumber (of_Z 5)]} = Throw width_error /\
  validateOptions {["width" := VNumber (of_Z 600)]} = Throw width_error /\
  validateOptions {["contrast" := VNumber lit_0_05]} = Throw contrast_error /\
  validateOptions {["contrast" := VNumber (of_Z 6)]} = Throw contrast_error /\
  validateOptions {["aspectRatio" := VNumber lit_0_05]} = Throw aspectRatio_error /\
  validateOptions {["aspectRatio" := VNumber (of_Z 3)]} = Throw aspectRatio_error /\
  InvalidOption width_error /\ InvalidOption contrast_error /\ InvalidOption aspectRatio_error.
Proof.
  split; [unfold validateOptions; rewrite (left_id_L ∅ (∪)); reflexivity|].
  split.
  { repeat (split; [reflexivity|]).
    unfold defaults. rewrite !dom_insert_L, dom_empty_L. set_solver. }
  split.
  { intros options r Hr k. rewrite (validateOptions_merge options r Hr).
    rewrite lookup_union. destruct (options !! k) as [v|]; destruct (defaults !! k); reflexivity. }
  repeat (split; [vm_compute; reflexivity|]).
  unfold InvalidOption. repeat split; auto.
Qed.

Example validateOptions_merges_supplied_fields :
  validateOptions {["width" := VNumber (of_Z 100); "charset" := VString "blocks"]}
  = Ok (<["width" := VNumber (of_Z 100)]> (<["charset" := VString "blocks"]> defaults)).
Proof. vm_compute. reflexivity. Qed.

(** C6, as stated, fails: a [charset] that is [null] passes validation and
    is returned unchanged. *)
Lemma C6_charset_type_counterexample :
  validateOptions {["charset" := VNull]} = Ok (<["charset" := VNull]> defaults) /\
  ~ (exists e, validateOptions {["charset" := VNull]} = Throw e /\ InvalidOption e).
Proof.
  assert (E : validateOptions {["charset" := VNull]} = Ok (<["charset" := VNull]> defaults)).
  { rewrite <- insert_empty. rewrite validateOptions_insert_other by discriminate.
    unfold validateOptions. rewrite (left_id_L ∅ (∪)). reflexivity. }
  split; [exact E|]. intros (e & He & _). rewrite E in He. discriminate He.
Qed.

Lemma getCharset_unregistered (name : string) :
  CHARSETS_get name = None -> getCharset name = Throw (unknown_charset name).
Proof. intros Hn. unfold getCharset. rewrite Hn. reflexivity. Qed.

(** C6, amended.  The validator does not read [charset]: whatever value the
    field holds, of whatever type, validation has the verdict it has without
    the field and, when it succeeds, returns the value unchanged.  A
    [charset] that is missing, [undefined], [null] or a boolean is rejected
    by the lookup instead, with an unknown-charset error. *)
Theorem C6_charset_unchecked_by_validator (w : World) (options : gmap string value) (v : value) :
  validateOptions (<["charset" := v]> options) =
    match validateOptions options with
    | Ok r => Ok (<["charset" := v]> r)
    | Throw e => Throw e
    end /\
  (forall r, validateOptions (<["charset" := v]> options) = Ok r -> r !! "charset" = Some v) /\
  (forall c, c = None \/ c = Some VUndefined \/ c = Some VNull \/ (exists b, c = Some (VBool b)) ->
             getCharset (ToString w c) = Throw (unknown_charset (ToString w c))).
Proof.
  assert (E := validateOptions_insert_other options "charset" v
                 ltac:(discriminate) ltac:(discriminate) ltac:(discriminate)).
  split; [exact E|]. split.
  - intros r Hr. rewrite E in Hr. destruct (validateOptions options) as [r0|e]; [|discriminate].
    injection Hr as <-. apply lookup_insert_eq.
  - intros c [-> | [-> | [-> | [[|] ->]]]]; apply getCharset_unregistered; reflexivity.
Qed.

Example isValidCharset_examples :
  isValidCharset "detailed" = true /\ isValidCharset "blocks" = true /\
  isValidCharset "" = false /\ isValidCharset "nonexistent" = false.
Proof. repeat split. Qed.

(** [getCharset] tests the property read for truthiness, so that a name
    inherited from [Object.prototype] is let through although
    [isValidCharset] rejects it. *)
Example getCharset_inherited_name :
  isValidCharset "constructor" = false /\ getCharset "constructor" = Ok (CsFunction 1).
Proof. split; reflexivity. Qed.




Example invert_string_false_inverts :
  validateOptions (<["invert" := VString "false"]> sample_options)
    = Ok (<["invert" := VString "false"]> sample_options) /\
  pixelChar (<["invert" := VString "false"]> sample_options)
    (CsString simple_charset) [0; 255] 2 0 1 = Some 32.
Proof. split; vm_compute; reflexivity. Qed.

(** * Preview *)

(** C8, on the code.  Whenever the conversion yields rows, each terminated
    by a line break, a preview of exactly that many rows returns every row,
    so that none is dropped, and still appends the truncation marker: the
    empty piece after the last line break is counted as a line. *)
Theorem C8_preview_marker_without_truncation `{MathPow} (w : World) (input : Input)
    (options : gmap string value) (rows : list (list Z)) :
  Forall (fun r => ~ In LF r) rows ->
  convertToAscii w input options = Ok (concat (map (fun r => r ++ [LF]) rows)) ->
  previewAscii w input options (Z.of_nat (length rows)) =
  Ok (join_nl rows ++ truncation_marker).
Proof.
  intros Hnl Hconv. unfold previewAscii. rewrite Hconv. cbn [mbind result_bind].
  rewrite split_nl_rows by exact Hnl. f_equal. f_equal.
  - f_equal. unfold slice0. rewrite length_app. cbn [length].
    destruct (Z.ltb_spec (Z.of_nat (length rows)) 0) as [Hlt|_]; [lia|].
    replace (Z.to_nat _) with (length rows) by lia.
    rewrite take_app_length. reflexivity.
  - rewrite length_app. cbn [length].
    destruct (Z.gtb_spec (Z.of_nat (length rows + 1)) (Z.of_nat (length rows))) as [_|Hle];
      [reflexivity | lia].
Qed.

Lemma white_rows_no_LF : Forall (fun r => ~ In LF r) (replicate 5 (replicate 10 64)).
Proof.
  apply Forall_forall. intros r Hr. apply list_elem_of_In in Hr. vm_compute in Hr.
  repeat (destruct Hr as [<- | Hr];
          [intros Hf; vm_compute in Hf; repeat (destruct Hf as [Hf|Hf]; [discriminate Hf|]); exact Hf|]).
  destruct Hr.
Qed.

(** A white 100 x 100 image converted at width 10 gives 5 rows of 10 glyphs;
    the preview with [previewLines = 5] is those 5 rows and the marker. *)
Lemma C8_preview_marker_without_truncation_witness :
  previewAscii white_world (InBuffer []) {["width" := VNumber (of_Z 10)]}
    (Z.of_nat (length (replicate 5 (replicate 10 64))))
  = Ok (join_nl (replicate 5 (replicate 10 64)) ++ truncation_marker).
Proof.
  apply (C8_preview_marker_without_truncation white_world (InBuffer [])
           {["width" := VNumber (of_Z 10)]} (replicate 5 (replicate 10 64))).
  - exact white_rows_no_LF.
  - vm_compute. reflexivity.
Defined.

Example preview_longer_than_output :
  previewAscii white_world (InBuffer []) {["width" := VNumber (of_Z 10)]} 6
  = Ok (concat (replicate 5 (replicate 10 64 ++ [LF]))).
Proof. vm_compute. reflexivity. Qed.

Example preview_shorter_than_output :
  previewAscii white_world (InBuffer []) {["width" := VNumber (of_Z 10)]} 2
  = Ok (replicate 10 64 ++ [LF] ++ replicate 10 64 ++ truncation_marker).
Proof. vm_compute. reflexivity. Qed.

(** * Saving *)

(** Every error [convertToAscii] throws carries a non-empty message. *)
Lemma convertToAscii_error_message `{MathPow} (w : World) (input : Input)
    (options : gmap string value) (e : error) :
  convertToAscii w input options = Throw e -> message e <> "".
Proof.
  unfold convertToAscii. intros He.
  destruct (validateOptions options) as [opts|e0] eqn:Ev; cbn [mbind result_bind] in He.
  2:{ injection He as <-. apply validateOptions_error in Ev.
      destruct Ev as [-> | [-> | ->]]; discriminate. }
  assert (Hcatch : forall body : result (list Z),
             try_catch body
               (fun error =>
                  if includes (message error) "Input file is missing"
                  then Throw (Error ("Unable to read image file: " +:+ input_text w input))
                  else if includes (message error) "Input file contains unsupported image format"
                  then Throw (Error ("Unsupported or corrupted image format: " +:+ input_text w input))
                  else Throw (Error ("Image conversion failed: " +:+ message error))) = Throw e ->
             message e <> "").
  { intros [a|e1]; cbn [try_catch]; [discriminate|].
    destruct (includes _ _); [intros Hq; injection Hq as <-; discriminate|].
    destruct (includes _ _); intros Hq; injection Hq as <-; discriminate. }
  destruct input as [p|b].
  - destruct (negb (fileExists w p)); cbn [mbind result_bind] in He;
      [injection He as <-; discriminate|].
    destruct (negb (isSupportedImageFormat w p)); cbn [mbind result_bind] in He;
      [injection He as <-; discriminate|].
    eapply Hcatch. exact He.
  - cbn [mbind result_bind] in He. eapply Hcatch. exact He.
Qed.

Lemma saveToFile_error_message (w : World) (asciiArt : list Z) (filePath : string) (e : error) :
  saveToFile w asciiArt filePath = Throw e -> message e <> "".
Proof.
  unfold saveToFile. destruct (fs_writeFile w filePath asciiArt) as [u|e0]; cbn [try_catch];
    [discriminate|]. intros He. injection He as <-. discriminate.
Qed.

(** C7. [convertAndSave] never throws: for every environment, input, output
    path and options it resolves to a result object that names the input and
    the output and carries the elapsed time.  When conversion, writing and
    [fs.stat] all succeed the object has [success = true] with the file
    size, the line count and the character count; when any of them throws,
    whatever the error, the object has [success = false] and the message of
    that error, which is non-empty for every error raised by the conversion
    (invalid options, unknown charset, unreadable or undecodable input) and
    by the write. *)
Theorem C7_convertAndSave_never_raises `{MathPow} (w : World) (input : Input)
    (outputPath : string) (options : gmap string value) :
  exists r : SaveResult,
    convertAndSave w input outputPath options = Ok r /\
    inputFile r = input_label input /\ outputFile r = outputPath /\
    processingTime r = Date_now w 1 - Date_now w 0 /\
    match (asciiArt ← convertToAscii w input options;
           _ ← saveToFile w asciiArt outputPath;
           size ← fs_stat_size w outputPath;
           Ok (asciiArt, size)) with
    | Ok (asciiArt, size) =>
        success r = true /\ error_message r = None /\
        fileSize r = Some size /\
        lines r = Some (Z.of_nat (length (split_nl asciiArt)) - 1) /\
        characters r = Some (Z.of_nat (length asciiArt))
    | Throw e =>
        success r = false /\ error_message r = Some (message e) /\
        fileSize r = None /\ lines r = None /\ characters r = None /\
        ((convertToAscii w input options = Throw e \/
          exists asciiArt, saveToFile w asciiArt outputPath = Throw e) ->
         message e <> "")
    end.
Proof.
  unfold convertAndSave.
  destruct (convertToAscii w input options) as [art|e] eqn:Ec; cbn [mbind result_bind try_catch].
  - destruct (saveToFile w art outputPath) as [u|e] eqn:Es; cbn [mbind result_bind try_catch].
    + destruct (fs_stat_size w outputPath) as [size|e] eqn:Et; cbn [mbind result_bind try_catch].
      * eexists. split; [reflexivity|]. cbn. repeat split; reflexivity.
      * eexists. split; [reflexivity|]. cbn. repeat split; try reflexivity.
        intros [Hq | (a & Hq)]; [discriminate | eapply saveToFile_error_message; exact Hq].
    + eexists. split; [reflexivity|]. cbn. repeat split; try reflexivity.
      intros _. eapply saveToFile_error_message. exact Es.
  - eexists. split; [reflexivity|]. cbn. repeat split; try reflexivity.
    intros _. eapply convertToAscii_error_message. exact Ec.
Qed.

Example convertAndSave_success :
  convertAndSave white_world (InBuffer []) "out.txt" {["width" := VNumber (of_Z 10)]}
  = Ok {| success := true; inputFile := "[Buffer]"; outputFile := "out.txt";
          fileSize := Some 0; processingTime := 1; lines := Some 5; characters := Some 55;
          error_message := None |}.
Proof. vm_compute. reflexivity. Qed.

Example convertAndSave_invalid_width :
  convertAndSave white_world (InBuffer []) "out.txt" {["width" := VNumber (of_Z 5)]}
  = Ok {| success := false; inputFile := "[Buffer]"; outputFile := "out.txt";
          fileSize := None; processingTime := 1; lines := None; characters := None;
          error_message := Some "Width must be a number between 10 and 500" |}.
Proof. vm_compute. reflexivity. Qed.

Example convertAndSave_unknown_charset :
  convertAndSave white_world (InBuffer []) "out.txt" {["charset" := VString "nonexistent"]}
  = Ok {| success := false; inputFile := "[Buffer]"; outputFile := "out.txt";
          fileSize := None; processingTime := 1; lines := None; characters := None;
          error_message :=
            Some ("Image conversion failed: Unknown charset: nonexistent. Available: "
                  +:+ "detailed, blocks, classic, simple, minimal, numbers, binary, retro") |}.
Proof. vm_compute. reflexivity. Qed.

Example convertAndSave_unwritable_path :
  convertAndSave unwritable_world (InBuffer []) "out.txt" {["width" := VNumber (of_Z 10)]}
  = Ok {| success := false; inputFile := "[Buffer]"; outputFile := "out.txt";
          fileSize := None; processingTime := 1; lines := None; characters := None;
          error_message := Some "Failed to save file out.txt: EACCES: permission denied" |}.
Proof. vm_compute. reflexivity. Qed.

(** * End to end: the white image with a black inset *)

Lemma validateOptions_sample : validateOptions sample_options = Ok sample_options.
Proof. vm_compute. reflexivity. Qed.

Lemma getCharset_simple : getCharset "simple" = Ok (CsString simple_charset).
Proof. reflexivity. Qed.

(** The target height for a square image at width 20 and the default
    aspect ratio: [floor(100 / 100 * 20 * 0.5) = 10]. *)
Lemma targetHeight_sample :
  Math_floor (num_mul (num_mul (num_div (of_Z 100) (of_Z 100)) (of_Z 20)) lit_0_5) = Some 10.
Proof. vm_compute. reflexivity. Qed.

Lemma exponent_sample : num_div one lit_1_2 = S754_finite false 7505999378950827 (-53).
Proof. vm_compute. reflexivity. Qed.

Section PureIntensities.

Context `{MathPow}.
Variable opts : gmap string value.
Hypothesis Hcontrast : opts !! "contrast" = Some (VNumber lit_1_2).

(** White stays 1 and black stays 0 through the contrast curve and the
    clamp. *)
Lemma white_brightness : clampedBrightness opts (Some 255) = one.
Proof.
  unfold clampedBrightness. rewrite Hcontrast. cbn [as_number].
  change (num_div (of_Z 255) (of_Z 255)) with one.
  rewrite exponent_sample, Math_pow_one by exact I. reflexivity.
Qed.

Lemma black_brightness : clampedBrightness opts (Some 0) = pzero.
Proof.
  unfold clampedBrightness. rewrite Hcontrast. cbn [as_number].
  change (num_div (of_Z 0) (of_Z 255)) with pzero.
  rewrite exponent_sample, Math_pow_zero by exact I. reflexivity.
Qed.

End PureIntensities.

(** C2, amended.  A 100 x 100 image converted with width 20 and charset
    "simple", the other options at their defaults, is resized to 20 x 10,
    since the default aspect ratio 0.5 halves the height, and yields exactly
    10 lines of 20 glyphs.  A cell of intensity 255 (white source) renders
    as the first glyph of "simple", the full block, and a cell of intensity
    0 (black source) renders as its last glyph, the space. *)
Theorem C2_inset_conversion `{MathPow} (w : World) (bytes data : list Z) :
  sharp_metadata w (InBuffer bytes) = Ok (of_Z 100, of_Z 100) ->
  sharp_raw w (InBuffer bytes) (of_Z 20) (Some 10)
    = Ok (data, {| info_width := 20; info_height := 10 |}) ->
  wf_grid data 20 10 ->
  exists rows : list (list Z),
    convertToAscii w (InBuffer bytes) sample_options
      = Ok (concat (map (fun r => r ++ [LF]) rows)) /\
    length rows = 10%nat /\
    Forall (fun r => length r = 20%nat) rows /\
    forall (y x : nat) (r : list Z),
      rows !! y = Some r -> (x < 20)%nat ->
      (data !! (y * 20 + x)%nat = Some 255 -> r !! x = Some 9608) /\
      (data !! (y * 20 + x)%nat = Some 0 -> r !! x = Some 32).
Proof.
  intros Hmeta Hraw Hwf.
  assert (Hc : sample_options !! "contrast" = Some (VNumber lit_1_2)) by reflexivity.
  assert (HN : 2 <= Z.of_nat (length simple_charset) <= 2 ^ 53)
    by (apply (registered_charset "simple"), simple_registered).
  set (rows := map (rowGlyphs sample_options (CsString simple_charset) data 20) (seq 0 10)).
  exists rows. split.
  { unfold convertToAscii. rewrite validateOptions_sample. cbn [mbind result_bind].
    replace (sample_options !! "charset") with (Some (VString "simple")) by reflexivity.
    cbn [ToString]. rewrite getCharset_simple. cbn [mbind result_bind].
    rewrite Hmeta. cbn [mbind result_bind].
    replace (sample_options !! "width") with (Some (VNumber (of_Z 20))) by reflexivity.
    replace (sample_options !! "aspectRatio") with (Some (VNumber lit_0_5)) by reflexivity.
    cbn [as_number]. rewrite targetHeight_sample, Hraw.
    cbn [mbind result_bind try_catch info_width info_height].
    f_equal. exact (pixelsToAscii_defined sample_options lit_1_2 Hc lit_1_2_in_range
                      simple_charset data 20 10 HN Hwf). }
  split; [reflexivity|]. split.
  { apply Forall_forall. intros r Hin. apply list_elem_of_In, in_map_iff in Hin.
    destruct Hin as (y & <- & _). unfold rowGlyphs. rewrite length_map, length_seq. reflexivity. }
  intros y x r Hr Hx. unfold rows in Hr. rewrite lookup_map in Hr.
  destruct (seq 0 10 !! y) as [y'|] eqn:Hy; [|discriminate].
  apply lookup_seq in Hy as [-> Hy]. cbn [fmap option_fmap option_map] in Hr.
  injection Hr as <-. rewrite rowGlyphs_lookup by (cbn; lia).
  unfold pixelChar. cbn [Nat.add].
  destruct (Z.ltb_spec (Z.of_nat y * 20 + Z.of_nat x) 0) as [Hlt|_]; [lia|].
  replace (Z.to_nat (Z.of_nat y * 20 + Z.of_nat x)) with (y * 20 + x)%nat by lia.
  replace (ToBoolean (sample_options !! "invert")) with false by reflexivity.
  split; intros ->; [rewrite white_brightness | rewrite black_brightness];
    try exact Hc; reflexivity.
Qed.

Lemma wf_grid_inset :
  wf_grid (flat_map (fun y => map (fun x =>
             if (Z.of_nat x =? 0) || (Z.of_nat x =? 20 - 1) ||
                (Z.of_nat y =? 0) || (Z.of_nat y =? 10 - 1) then 255 else 0)
             (seq 0 20)) (seq 0 10)) 20 10.
Proof.
  unfold wf_grid. split; [lia|]. split; [lia|]. split; [reflexivity|].
  apply Forall_forall. intros v Hv. apply list_elem_of_In in Hv. vm_compute in Hv.
  repeat (destruct Hv as [<- | Hv]; [lia|]). destruct Hv.
Qed.

Lemma C2_inset_conversion_witness :
  exists rows : list (list Z),
    convertToAscii inset_world (InBuffer []) sample_options
      = Ok (concat (map (fun r => r ++ [LF]) rows)) /\
    length rows = 10%nat /\
    Forall (fun r => length r = 20%nat) rows /\
    forall (y x : nat) (r : list Z),
      rows !! y = Some r -> (x < 20)%nat ->
      (flat_map (fun y => map (fun x =>
             if (Z.of_nat x =? 0) || (Z.of_nat x =? 20 - 1) ||
                (Z.of_nat y =? 0) || (Z.of_nat y =? 10 - 1) then 255 else 0)
             (seq 0 20)) (seq 0 10) !! (y * 20 + x)%nat = Some 255 -> r !! x = Some 9608) /\
      (flat_map (fun y => map (fun x =>
             if (Z.of_nat x =? 0) || (Z.of_nat x =? 20 - 1) ||
                (Z.of_nat y =? 0) || (Z.of_nat y =? 10 - 1) then 255 else 0)
             (seq 0 20)) (seq 0 10) !! (y * 20 + x)%nat = Some 0 -> r !! x = Some 32).
Proof.
  apply (C2_inset_conversion inset_world []).
  - reflexivity.
  - reflexivity.
  - exact wf_grid_inset.
Defined.

(** C2, as stated, fails.  With the ring of outermost cells white and the
    interior black, the conversion gives 10 rows, not 20; the white top row
    is rendered in full blocks and the black interior of row 5 in spaces. *)
Lemma C2_end_to_end_counterexample :
  (exists rows : list (list Z),
     convertToAscii inset_world (InBuffer []) sample_options
       = Ok (concat (map (fun r => r ++ [LF]) rows)) /\
     length rows = 10%nat /\
     rows !! 0%nat = Some (replicate 20 9608) /\
     rows !! 5%nat = Some (9608 :: replicate 18 32 ++ [9608])) /\
  ~ (exists rows : list (list Z),
       convertToAscii inset_world (InBuffer []) sample_options
         = Ok (concat (map (fun r => r ++ [LF]) rows)) /\
       length rows = 20%nat /\
       Forall (fun r => length r = 20%nat) rows).
Proof.
  assert (E : convertToAscii inset_world (InBuffer []) sample_options
              = Ok (concat (map (fun r => r ++ [LF])
                      (replicate 20 9608 ::
                       replicate 8 (9608 :: replicate 18 32 ++ [9608]) ++
                       [replicate 20 9608]))))
    by (vm_compute; reflexivity).
  split.
  - eexists. split; [exact E|]. repeat split; reflexivity.
  - intros (rows & Hrows & Hlen & Hall). rewrite E in Hrows. injection Hrows as Hrows.
    apply (f_equal length) in Hrows. rewrite (length_concat_rows rows 20 Hall), Hlen in Hrows.
    vm_compute in Hrows. discriminate Hrows.
Qed.

(** * More on the option validator *)

Lemma union_defaults_absorb (options : gmap string value) :
  (options ∪ defaults) ∪ defaults = options ∪ defaults.
Proof. rewrite <- (assoc_L (∪)). rewrite (idemp (∪) defaults). reflexivity. Qed.

(** X1. What [validateOptions] returns is a fixed point of it: validating
    the validated options again succeeds and returns them unchanged. *)
Theorem validateOptions_idempotent (options r : gmap string value) :
  validateOptions options = Ok r -> validateOptions r = Ok r.
Proof.
  intros Hr. pose proof (validateOptions_merge options r Hr) as ->.
  unfold validateOptions in *. rewrite union_defaults_absorb. exact Hr.
Qed.

Lemma validateOptions_idempotent_witness :
  validateOptions sample_options = Ok sample_options.
Proof. apply (validateOptions_idempotent sample_options sample_options). vm_compute. reflexivity. Defined.

Lemma rejected_false (v : option value) (lo hi : number) :
  lo <> NaN -> hi <> NaN -> rejected v lo hi = false ->
  exists n, v = Some (VNumber n) /\
            (n = NaN \/ (SFleb lo n = true /\ SFleb n hi = true)).
Proof.
  intros Hlo Hhi Hr. unfold rejected in Hr.
  destruct v as [[| | |n| |]|]; try discriminate.
  exists n. split; [reflexivity|]. apply orb_false_elim in Hr as [H1 H2].
  destruct n as [s|s| |s m e]; [right|right|left; reflexivity|right];
    (split; [apply not_lt_le | apply (not_lt_le hi)]; try discriminate; assumption).
Qed.

(** X2. Options that pass [validateOptions] hold all five fields;
    [width], [contrast] and [aspectRatio] are Numbers, each either NaN or
    within its bounds (10..500, 0.1..5.0, 0.1..2.0). *)
Theorem validateOptions_guarantee (options opts : gmap string value) :
  validateOptions options = Ok opts ->
  (exists n, opts !! "width" = Some (VNumber n) /\
             (n = NaN \/ (SFleb (of_Z 10) n = true /\ SFleb n (of_Z 500) = true))) /\
  (exists n, opts !! "contrast" = Some (VNumber n) /\
             (n = NaN \/ (SFleb lit_0_1 n = true /\ SFleb n lit_5_0 = true))) /\
  (exists n, opts !! "aspectRatio" = Some (VNumber n) /\
             (n = NaN \/ (SFleb lit_0_1 n = true /\ SFleb n lit_2_0 = true))) /\
  is_Some (opts !! "charset") /\ is_Some (opts !! "invert").
Proof.
  intros Hv. pose proof (validateOptions_merge options opts Hv) as ->.
  unfold validateOptions in Hv.
  destruct (rejected ((options ∪ defaults) !! "width") _ _) eqn:Hw; [discriminate|].
  destruct (rejected ((options ∪ defaults) !! "contrast") _ _) eqn:Hc; [discriminate|].
  destruct (rejected ((options ∪ defaults) !! "aspectRatio") _ _) eqn:Ha; [discriminate|].
  split; [apply rejected_false in Hw; [exact Hw | discriminate | discriminate]|].
  split; [apply rejected_false in Hc; [exact Hc | discriminate | discriminate]|].
  split; [apply rejected_false in Ha; [exact Ha | discriminate | discriminate]|].
  split; rewrite lookup_union; destruct (options !! _); eexists; reflexivity.
Qed.

Lemma validateOptions_guarantee_witness :
  (exists n, sample_options !! "width" = Some (VNumber n) /\
             (n = NaN \/ (SFleb (of_Z 10) n = true /\ SFleb n (of_Z 500) = true))) /\
  (exists n, sample_options !! "contrast" = Some (VNumber n) /\
             (n = NaN \/ (SFleb lit_0_1 n = true /\ SFleb n lit_5_0 = true))) /\
  (exists n, sample_options !! "aspectRatio" = Some (VNumber n) /\
             (n = NaN \/ (SFleb lit_0_1 n = true /\ SFleb n lit_2_0 = true))) /\
  is_Some (sample_options !! "charset") /\ is_Some (sample_options !! "invert").
Proof.
  apply (validateOptions_guarantee sample_options sample_options). vm_compute. reflexivity.
Defined.

(** X3. A supplied [width], [contrast] or [aspectRatio] that is not a
    Number ([undefined] and [null] included) is never replaced by the
    default: validation throws. *)
Theorem validateOptions_no_fallback (options : gmap string value) (k : string) (v : value) :
  k = "width" \/ k = "contrast" \/ k = "aspectRatio" ->
  options !! k = Some v -> is_number v = false ->
  exists e, validateOptions options = Throw e /\ InvalidOption e.
Proof.
  intros Hk Hv Hn.
  assert (Hm : (options ∪ defaults) !! k = Some v).
  { rewrite lookup_union, Hv. destruct (defaults !! k); reflexivity. }
  assert (Hrej : forall lo hi, rejected ((options ∪ defaults) !! k) lo hi = true).
  { intros lo hi. rewrite Hm. destruct v; try reflexivity. discriminate Hn. }
  destruct (validateOptions options) as [r|e] eqn:E.
  - exfalso. unfold validateOptions in E.
    destruct (rejected ((options ∪ defaults) !! "width") _ _) eqn:Hw; [discriminate|].
    destruct (rejected ((options ∪ defaults) !! "contrast") _ _) eqn:Hc; [discriminate|].
    destruct (rejected ((options ∪ defaults) !! "aspectRatio") _ _) eqn:Ha; [discriminate|].
    destruct Hk as [-> | [-> | ->]]; rewrite Hrej in *; discriminate.
  - exists e. split; [reflexivity|]. eapply validateOptions_error. exact E.
Qed.

Lemma validateOptions_no_fallback_witness :
  exists e, validateOptions {["width" := VUndefined]} = Throw e /\ InvalidOption e.
Proof.
  apply (validateOptions_no_fallback {["width" := VUndefined]} "width" VUndefined).
  - left. reflexivity.
  - reflexivity.
  - reflexivity.
Defined.

(** * More on the registry *)

Lemma assoc_Some_In {A : Type} (k : string) (a : A) (l : list (string * A)) :
  assoc k l = Some a -> In (k, a) l.
Proof.
  induction l as [|[k' a'] l IH]; cbn [assoc]; [discriminate|].
  destruct (String.eqb_spec k k') as [->|Hne].
  - intros [= ->]. left. reflexivity.
  - intros H. right. apply IH. exact H.
Qed.

Lemma In_assoc_Some {A : Type} (k : string) (a : A) (l : list (string * A)) :
  NoDup (map fst l) -> In (k, a) l -> assoc k l = Some a.
Proof.
  induction l as [|[k' a'] l IH]; cbn [assoc map In fst]; [intros _ []|].
  intros Hnd Hin. apply NoDup_cons in Hnd as [Hnotin Hnd].
  destruct Hin as [[= -> ->] | Hin].
  - rewrite String.eqb_refl. reflexivity.
  - destruct (String.eqb_spec k k') as [->|Hne]; [|apply IH; assumption].
    exfalso. apply Hnotin. apply list_elem_of_In.
    change k' with (fst (k', a)). apply in_map. exact Hin.
Qed.

Lemma CHARSETS_NoDup : NoDup (map fst CHARSETS).
Proof.
  apply NoDup_ListNoDup. cbn. repeat constructor; cbn; intros H;
    repeat (destruct H as [H|H]; [discriminate H|]); exact H.
Qed.

Lemma registered_nonempty (name : string) (s : list Z) :
  In (name, s) CHARSETS -> s <> [].
Proof.
  intros Hin Hs. subst s. apply registered_charset in Hin as [[Hl _] _]. cbn in Hl. lia.
Qed.

Lemma getCharset_registered (name : string) (s : list Z) :
  In (name, s) CHARSETS -> getCharset name = Ok (CsString s).
Proof.
  intros Hin. unfold getCharset, CHARSETS_get.
  rewrite (In_assoc_Some name s CHARSETS CHARSETS_NoDup Hin).
  destruct s as [|c s']; [exfalso; exact (registered_nonempty name [] Hin eq_refl)|].
  reflexivity.
Qed.

(** X4. The three views of the registry agree on registered names:
    [isValidCharset] holds exactly for the names [getAvailableCharsets]
    lists, and exactly for the names [getCharset] resolves to a glyph
    string, which is then the registered one. *)
Theorem registry_agreement (name : string) :
  (isValidCharset name = true <-> In name getAvailableCharsets) /\
  (forall s, In (name, s) CHARSETS <-> getCharset name = Ok (CsString s)) /\
  (isValidCharset name = true <-> exists s, getCharset name = Ok (CsString s)).
Proof.
  assert (H2 : forall s, In (name, s) CHARSETS <-> getCharset name = Ok (CsString s)).
  { intros s. unfold getCharset, CHARSETS_get. split.
    - intros Hin. rewrite (In_assoc_Some name s CHARSETS CHARSETS_NoDup Hin).
      destruct s as [|c s']; [exfalso; exact (registered_nonempty name [] Hin eq_refl)|].
      reflexivity.
    - destruct (assoc name CHARSETS) as [s0|] eqn:E.
      + destruct (truthy_charset (CsString s0)); [|discriminate].
        intros [= ->]. apply assoc_Some_In. exact E.
      + destruct (assoc name Object_prototype) as [c|] eqn:E'; [|discriminate].
        destruct (truthy_charset c); [|discriminate]. intros [= ->].
        apply assoc_Some_In in E'. cbn in E'.
        repeat (destruct E' as [E'|E']; [discriminate E'|]). destruct E'. }
  assert (H1 : isValidCharset name = true <-> In name getAvailableCharsets).
  { unfold isValidCharset, getAvailableCharsets. split.
    - destruct (assoc name CHARSETS) as [s|] eqn:E; [|discriminate]. intros _.
      apply assoc_Some_In in E. change name with (fst (name, s)). apply in_map. exact E.
    - intros Hin. apply in_map_iff in Hin as ([k s] & Hk & Hin). cbn in Hk. subst k.
      rewrite (In_assoc_Some name s CHARSETS CHARSETS_NoDup Hin). reflexivity. }
  split; [exact H1|]. split; [exact H2|]. rewrite H1. split.
  - intros Hin. apply in_map_iff in Hin as ([k s] & Hk & Hin). cbn in Hk. subst k.
    exists s. apply H2. exact Hin.
  - intros [s Hs]. apply H2 in Hs. change name with (fst (name, s)). apply in_map. exact Hs.
Qed.

(** ** Names inherited from Object.prototype *)

Lemma foldl_append_undefined (f : nat -> option Z) (l : list nat) (acc : list Z) :
  (forall x, f x = None) ->
  foldl (fun acc x => append_char acc (f x)) acc l =
  acc ++ concat (replicate (length l) (units "undefined")).
Proof.
  intros Hf. revert acc. induction l as [|x l IH]; intros acc; cbn [foldl length replicate concat].
  - rewrite app_nil_r. reflexivity.
  - rewrite IH. unfold append_char. rewrite Hf. rewrite <- app_assoc. reflexivity.
Qed.

Lemma foldl_rows_const {A : Type} (f : list Z -> A -> list Z) (row : list Z) (l : list A)
    (acc : list Z) :
  (forall acc a, f acc a = acc ++ row) ->
  foldl f acc l = acc ++ concat (replicate (length l) row).
Proof.
  intros Hf. revert acc. induction l as [|a l IH]; intros acc; cbn [foldl length replicate concat].
  - rewrite app_nil_r. reflexivity.
  - rewrite IH, Hf, <- app_assoc. reflexivity.
Qed.

Lemma selectGlyph_not_string (invert : bool) (cs : charset_obj) (b : number) :
  (forall s, cs <> CsString s) -> selectGlyph invert cs b = None.
Proof.
  intros Hcs. unfold selectGlyph, char_at. destruct cs as [s| |]; [exfalso; eapply Hcs; reflexivity| |];
    reflexivity.
Qed.

(** X5. A name inherited from [Object.prototype] (such as
    [constructor] or [toString]) is not a valid charset for
    [isValidCharset], yet [getCharset] returns the inherited value without
    throwing, and the mapper then writes the text [undefined] for every
    pixel of every row. *)
Theorem inherited_name_renders_undefined `{MathPow} (name : string) (c : charset_obj)
    (opts : gmap string value) (data : list Z) (width height : Z) :
  In (name, c) Object_prototype ->
  isValidCharset name = false /\
  getCharset name = Ok c /\
  pixelsToAscii opts c data width height =
    concat (replicate (Z.to_nat height) (undefined_row width)).
Proof.
  intros Hin.
  assert (Hc : (forall s, c <> CsString s) /\ isValidCharset name = false /\ getCharset name = Ok c).
  { cbn in Hin.
    repeat (destruct Hin as [Hin|Hin];
            [injection Hin as <- <-; split; [discriminate | split; reflexivity]|]).
    destruct Hin. }
  destruct Hc as (Hns & Hv & Hg). split; [exact Hv|]. split; [exact Hg|].
  unfold pixelsToAscii.
  rewrite (foldl_rows_const _ (undefined_row width)).
  - rewrite length_seq. reflexivity.
  - intros acc y. unfold convertRow, undefined_row.
    rewrite foldl_append_undefined.
    + rewrite length_seq, <- app_assoc. reflexivity.
    + intros x. unfold pixelChar. apply selectGlyph_not_string. exact Hns.
Qed.

Lemma inherited_name_renders_undefined_witness :
  isValidCharset "constructor" = false /\
  getCharset "constructor" = Ok (CsFunction 1) /\
  pixelsToAscii sample_options (CsFunction 1) [0; 255] 2 1 =
    concat (replicate (Z.to_nat 1) (undefined_row 2)).
Proof.
  apply (inherited_name_renders_undefined "constructor" (CsFunction 1) sample_options [0; 255] 2 1).
  left. reflexivity.
Defined.

(** * Validated options the mapper cannot draw *)

Lemma undefined_units_no_LF (n : nat) : ~ In LF (concat (replicate n (units "undefined"))).
Proof.
  induction n as [|n IH]; cbn [replicate concat]; [intros []|].
  intros Hin. apply in_app_or in Hin as [Hin|Hin]; [|exact (IH Hin)].
  vm_compute in Hin. repeat (destruct Hin as [Hin|Hin]; [discriminate Hin|]). exact Hin.
Qed.

Lemma length_undefined_units (n : nat) :
  length (concat (replicate n (units "undefined"))) = (9 * n)%nat.
Proof.
  induction n as [|n IH]; cbn [replicate concat]; [reflexivity|].
  rewrite length_app, IH. change (length (units "undefined")) with 9%nat. lia.
Qed.

Lemma concat_replicate_rows (row : list Z) (n : nat) :
  concat (replicate n (row ++ [LF])) = concat (map (fun r => r ++ [LF]) (replicate n row)).
Proof.
  induction n as [|n IH]; cbn [replicate map concat]; [reflexivity|]. rewrite IH. reflexivity.
Qed.

(** Without a glyph for any pixel the output is rows of the text
    [undefined]. *)
Lemma pixelsToAscii_undefined `{MathPow} (opts : gmap string value) (cs : charset_obj)
    (data : list Z) (width height : Z) :
  (forall y x, pixelChar opts cs data width y x = None) ->
  pixelsToAscii opts cs data width height =
  concat (map (fun r => r ++ [LF])
              (replicate (Z.to_nat height)
                         (concat (replicate (Z.to_nat width) (units "undefined"))))).
Proof.
  intros Hnone. unfold pixelsToAscii.
  rewrite (foldl_rows_const _ (undefined_row width)).
  - rewrite length_seq. unfold undefined_row. cbn [app]. apply concat_replicate_rows.
  - intros acc y. unfold convertRow, undefined_row.
    rewrite foldl_append_undefined by (intros x; apply Hnone).
    rewrite length_seq, <- app_assoc. reflexivity.
Qed.

Lemma clampedBrightness_NaN `{MathPow} (opts : gmap string value) (px : option Z) :
  (forall b, Math_pow b NaN = NaN) ->
  opts !! "contrast" = Some (VNumber NaN) ->
  clampedBrightness opts px = NaN.
Proof.
  intros Hpow Hc. unfold clampedBrightness. rewrite Hc. cbn [as_number].
  change (num_div one NaN) with NaN. rewrite Hpow. reflexivity.
Qed.

Lemma selectGlyph_NaN (invert : bool) (cs : charset_obj) : selectGlyph invert cs NaN = None.
Proof.
  unfold selectGlyph. destruct invert.
  - change (num_sub one NaN) with NaN. change (num_mul NaN (length_minus_1 cs)) with NaN.
    destruct cs; reflexivity.
  - change (num_mul NaN (length_minus_1 cs)) with NaN. destruct cs; reflexivity.
Qed.

(** C3, on the code.  Options can pass [validateOptions] and still leave
    the mapper without a glyph for any pixel.  Whatever options validate,
    they validate as well with [contrast] replaced by NaN, which passes
    both comparisons of the range test, and with [charset] replaced by a
    name inherited from [Object.prototype], which [getCharset] lets
    through.  In both cases the output, for every grid, is [height] rows
    of the text [undefined] repeated [width] times: splitting it at line
    breaks gives lines of [9 * width] units, not of [width] glyphs.  The
    runtime's [Math.pow] returns NaN for a NaN exponent. *)
Theorem C3_validated_options_draw_undefined `{MathPow} (options r : gmap string value)
    (name : string) (inherited cs : charset_obj) (data : list Z) (width height : Z) :
  (forall b, Math_pow b NaN = NaN) ->
  validateOptions options = Ok r ->
  In (name, inherited) Object_prototype ->
  let row := concat (replicate (Z.to_nat width) (units "undefined")) in
  let output := concat (map (fun r => r ++ [LF]) (replicate (Z.to_nat height) row)) in
  (validateOptions (<["contrast" := VNumber NaN]> options) = Ok (<["contrast" := VNumber NaN]> r) /\
   pixelsToAscii (<["contrast" := VNumber NaN]> r) cs data width height = output) /\
  (validateOptions (<["charset" := VString name]> options) = Ok (<["charset" := VString name]> r) /\
   getCharset name = Ok inherited /\
   pixelsToAscii (<["charset" := VString name]> r) inherited data width height = output) /\
  split_nl output = replicate (Z.to_nat height) row ++ [[]] /\
  length row = (9 * Z.to_nat width)%nat /\
  (0 < width -> length row <> Z.to_nat width).
Proof.
  intros Hpow Hv Hin row output.
  assert (Hinh : (forall s, inherited <> CsString s) /\ getCharset name = Ok inherited).
  { cbn in Hin.
    repeat (destruct Hin as [Hin|Hin];
            [injection Hin as <- <-; split; [discriminate | reflexivity]|]).
    destruct Hin. }
  destruct Hinh as [Hns Hget].
  split; [split|split; [split; [|split]|split; [|split]]].
  - pose proof (validateOptions_merge options r Hv) as Hm. subst r.
    unfold validateOptions in *. rewrite <- insert_union_l.
    rewrite lookup_insert_eq. rewrite !lookup_insert_ne by discriminate.
    destruct (rejected ((options ∪ defaults) !! "width") (of_Z 10) (of_Z 500)); [discriminate|].
    destruct (rejected ((options ∪ defaults) !! "contrast") lit_0_1 lit_5_0); [discriminate|].
    destruct (rejected ((options ∪ defaults) !! "aspectRatio") lit_0_1 lit_2_0); [discriminate|].
    reflexivity.
  - apply pixelsToAscii_undefined. intros y x. unfold pixelChar.
    rewrite clampedBrightness_NaN by (try exact Hpow; apply lookup_insert_eq).
    apply selectGlyph_NaN.
  - rewrite validateOptions_insert_other by discriminate. rewrite Hv. reflexivity.
  - exact Hget.
  - apply pixelsToAscii_undefined. intros y x. unfold pixelChar.
    apply selectGlyph_not_string. exact Hns.
  - unfold output. apply split_nl_rows. apply Forall_forall. intros r0 Hr0.
    apply elem_of_replicate in Hr0 as [-> _]. apply undefined_units_no_LF.
  - apply length_undefined_units.
  - intros Hw. unfold row. rewrite length_undefined_units. lia.
Qed.

Lemma C3_validated_options_draw_undefined_witness :
  let row := concat (replicate (Z.to_nat 2) (units "undefined")) in
  let output := concat (map (fun r => r ++ [LF]) (replicate (Z.to_nat 1) row)) in
  (validateOptions (<["contrast" := VNumber NaN]> sample_options) =
     Ok (<["contrast" := VNumber NaN]> sample_options) /\
   pixelsToAscii (<["contrast" := VNumber NaN]> sample_options) (CsString simple_charset)
     [0; 255] 2 1 = output) /\
  (validateOptions (<["charset" := VString "constructor"]> sample_options) =
     Ok (<["charset" := VString "constructor"]> sample_options) /\
   getCharset "constructor" = Ok (CsFunction 1) /\
   pixelsToAscii (<["charset" := VString "constructor"]> sample_options) (CsFunction 1)
     [0; 255] 2 1 = output) /\
  split_nl output = replicate (Z.to_nat 1) row ++ [[]] /\
  length row = (9 * Z.to_nat 2)%nat /\
  (0 < 2 -> length row <> Z.to_nat 2).
Proof.
  apply (C3_validated_options_draw_undefined sample_options sample_options "constructor"
           (CsFunction 1) (CsString simple_charset) [0; 255] 2 1).
  - intros b. reflexivity.
  - exact validateOptions_sample.
  - left. reflexivity.
Defined.


(** * Errors of the conversion *)

(** X6. Every error [convertToAscii] throws is one of six kinds: a
    validation error, [File not found] or [Unsupported image format] (both
    for path inputs only), [Unable to read image file],
    [Unsupported or corrupted image format], or [Image conversion failed]
    followed by the cause. *)
Theorem convertToAscii_error_kinds `{MathPow} (w : World) (input : Input)
    (options : gmap string value) (e : error) :
  convertToAscii w input options = Throw e -> conversion_error w input e.
Proof.
  unfold convertToAscii, conversion_error. intros He.
  destruct (validateOptions options) as [opts|e0] eqn:Ev; cbn [mbind result_bind] in He.
  2:{ injection He as <-. left. eapply validateOptions_error. exact Ev. }
  assert (Hcatch : forall body : result (list Z),
             try_catch body
               (fun error =>
                  if includes (message error) "Input file is missing"
                  then Throw (Error ("Unable to read image file: " +:+ input_text w input))
                  else if includes (message error) "Input file contains unsupported image format"
                  then Throw (Error ("Unsupported or corrupted image format: " +:+ input_text w input))
                  else Throw (Error ("Image conversion failed: " +:+ message error))) = Throw e ->
             e = Error ("Unable to read image file: " +:+ input_text w input) \/
             e = Error ("Unsupported or corrupted image format: " +:+ input_text w input) \/
             (exists cause, e = Error ("Image conversion failed: " +:+ cause))).
  { intros [a|e1]; cbn [try_catch]; [discriminate|].
    destruct (includes _ _); [intros Hq; injection Hq as <-; left; reflexivity|].
    destruct (includes _ _); intros Hq; injection Hq as <-;
      [right; left; reflexivity | right; right; eexists; reflexivity]. }
  destruct input as [p|b].
  - destruct (negb (fileExists w p)); cbn [mbind result_bind] in He;
      [injection He as <-; right; left; exists p; split; reflexivity|].
    destruct (negb (isSupportedImageFormat w p)); cbn [mbind result_bind] in He;
      [injection He as <-; right; right; left; exists p; split; reflexivity|].
    do 3 right. eapply Hcatch. exact He.
  - cbn [mbind result_bind] in He. do 3 right. eapply Hcatch. exact He.
Qed.

Lemma convertToAscii_error_kinds_witness :
  conversion_error white_world (InBuffer []) width_error.
Proof.
  apply (convertToAscii_error_kinds white_world (InBuffer []) {["width" := VNumber (of_Z 5)]}).
  vm_compute. reflexivity.
Defined.

(** * A successful conversion *)

(** X7. When the options validate with a contrast in range and a
    registered charset, the input is a buffer or an existing file with a
    supported extension, and the image library returns a well-formed grid,
    [convertToAscii] returns one row per grid line, each of [width] glyphs
    of the charset and followed by a line break. *)
Theorem convertToAscii_success `{MathPow} (w : World) (input : Input)
    (options opts : gmap string value) (c : number) (s : list Z)
    (imgWidth imgHeight : number) (data : list Z) (info : ImageInfo) :
  validateOptions options = Ok opts ->
  opts !! "contrast" = Some (VNumber c) -> contrast_in_range c ->
  In (ToString w (opts !! "charset"), s) CHARSETS ->
  input_accepted w input ->
  sharp_metadata w input = Ok (imgWidth, imgHeight) ->
  sharp_raw w input (as_number (opts !! "width"))
    (Math_floor (num_mul (num_mul (num_div imgHeight imgWidth) (as_number (opts !! "width")))
                         (as_number (opts !! "aspectRatio")))) = Ok (data, info) ->
  wf_grid data (info_width info) (info_height info) ->
  exists rows : list (list Z),
    convertToAscii w input options = Ok (concat (map (fun r => r ++ [LF]) rows)) /\
    length rows = Z.to_nat (info_height info) /\
    Forall (fun r => length r = Z.to_nat (info_width info) /\ Forall (fun g => In g s) r) rows.
Proof.
  intros Hv Hc Hr Hreg Hin Hmeta Hraw Hwf.
  destruct (registered_charset _ s Hreg) as [HN _].
  exists (map (rowGlyphs opts (CsString s) data (info_width info))
              (seq 0 (Z.to_nat (info_height info)))).
  split; [|split].
  - unfold convertToAscii. rewrite Hv. cbn [mbind result_bind].
    assert (Hpre : match input with
                   | InPath p =>
                       if negb (fileExists w p) then Throw (Error ("File not found: " +:+ p))
                       else if negb (isSupportedImageFormat w p)
                            then Throw (Error ("Unsupported image format: " +:+ p))
                            else Ok tt
                   | InBuffer _ => Ok tt
                   end = Ok tt).
    { destruct input as [p|b]; [|reflexivity]. destruct Hin as [-> ->]. reflexivity. }
    rewrite Hpre. cbn [mbind result_bind].
    rewrite (getCharset_registered _ s Hreg). cbn [mbind result_bind].
    rewrite Hmeta. cbn [mbind result_bind]. rewrite Hraw. cbn [mbind result_bind try_catch].
    f_equal. apply (pixelsToAscii_defined opts c Hc Hr s data _ _ HN Hwf).
  - rewrite length_map, length_seq. reflexivity.
  - apply Forall_forall. intros r Hr'. apply list_elem_of_In, in_map_iff in Hr'.
    destruct Hr' as (y & <- & Hy). apply in_seq in Hy.
    apply (rowGlyphs_shape opts c Hc Hr s data _ _ HN Hwf y). lia.
Qed.

Lemma convertToAscii_success_witness :
  exists rows : list (list Z),
    convertToAscii inset_world (InPath "photo.PNG") sample_options
      = Ok (concat (map (fun r => r ++ [LF]) rows)) /\
    length rows = Z.to_nat 10 /\
    Forall (fun r => length r = Z.to_nat 20 /\ Forall (fun g => In g simple_charset) r) rows.
Proof.
  apply (convertToAscii_success inset_world (InPath "photo.PNG") sample_options sample_options
           lit_1_2 simple_charset (of_Z 100) (of_Z 100)
           (flat_map (fun y => map (fun x =>
              if (Z.of_nat x =? 0) || (Z.of_nat x =? 20 - 1) ||
                 (Z.of_nat y =? 0) || (Z.of_nat y =? 10 - 1) then 255 else 0)
              (seq 0 20)) (seq 0 10))
           {| info_width := 20; info_height := 10 |}).
  - exact validateOptions_sample.
  - reflexivity.
  - exact lit_1_2_in_range.
  - exact simple_registered.
  - split; reflexivity.
  - reflexivity.
  - vm_compute. reflexivity.
  - exact wf_grid_inset.
Defined.

(** * Statistics of a saved conversion *)

(** X8. For a conversion that returned rows of [n] glyphs and was written
    and measured without error, [convertAndSave] reports [success], the
    size, [lines] equal to the number of rows (the piece after the last line
    break is not counted) and [characters] equal to rows times [n + 1]. *)
Theorem convertAndSave_counts `{MathPow} (w : World) (input : Input) (outputPath : string)
    (options : gmap string value) (rows : list (list Z)) (n : nat) (size : Z) :
  convertToAscii w input options = Ok (concat (map (fun r => r ++ [LF]) rows)) ->
  Forall (fun r => length r = n) rows ->
  Forall (fun r => ~ In LF r) rows ->
  fs_writeFile w outputPath (concat (map (fun r => r ++ [LF]) rows)) = Ok tt ->
  fs_stat_size w outputPath = Ok size ->
  exists r : SaveResult,
    convertAndSave w input outputPath options = Ok r /\
    success r = true /\
    fileSize r = Some size /\
    lines r = Some (Z.of_nat (length rows)) /\
    characters r = Some (Z.of_nat (length rows) * (Z.of_nat n + 1)).
Proof.
  intros Hconv Hlen Hnl Hwrite Hstat. eexists. split.
  - unfold convertAndSave. rewrite Hconv. cbn [mbind result_bind].
    unfold saveToFile. rewrite Hwrite. cbn [try_catch mbind result_bind].
    rewrite Hstat. cbn [try_catch mbind result_bind]. reflexivity.
  - cbn [success fileSize lines characters]. split; [reflexivity|]. split; [reflexivity|].
    rewrite split_nl_rows by exact Hnl. rewrite (length_concat_rows rows n Hlen).
    rewrite length_app. cbn [length]. split; f_equal; lia.
Qed.

Lemma convertAndSave_counts_witness :
  exists r : SaveResult,
    convertAndSave white_world (InBuffer []) "out.txt" {["width" := VNumber (of_Z 10)]} = Ok r /\
    success r = true /\
    fileSize r = Some 0 /\
    lines r = Some (Z.of_nat (length (replicate 5 (replicate 10 64)))) /\
    characters r = Some (Z.of_nat (length (replicate 5 (replicate 10 64))) * (Z.of_nat 10 + 1)).
Proof.
  apply (convertAndSave_counts white_world (InBuffer []) "out.txt"
           {["width" := VNumber (of_Z 10)]} (replicate 5 (replicate 10 64)) 10 0).
  - vm_compute. reflexivity.
  - repeat constructor.
  - exact white_rows_no_LF.
  - reflexivity.
  - reflexivity.
Defined.

(** * The preview *)

Lemma join_split_nl (s : list Z) : join_nl (split_nl s) = s.
Proof.
  induction s as [|c rest IH]; [reflexivity|]. cbn [split_nl].
  destruct (Z.eqb_spec c LF) as [->|_].
  - pose proof (split_nl_nonempty rest) as Hne.
    destruct (split_nl rest) as [|l ls] eqn:E; [contradiction|].
    cbn [join_nl app]. cbn [join_nl] in IH. rewrite IH. reflexivity.
  - pose proof (split_nl_nonempty rest) as Hne.
    destruct (split_nl rest) as [|l ls] eqn:E; [contradiction|].
    destruct ls as [|l' ls']; cbn [join_nl app] in *; rewrite IH; reflexivity.
Qed.

(** X9. When [previewLines] is at least the number of pieces the output
    splits into, [previewAscii] returns the full conversion unchanged, with
    no marker. *)
Theorem previewAscii_whole `{MathPow} (w : World) (input : Input)
    (options : gmap string value) (previewLines : Z) (fullAscii : list Z) :
  convertToAscii w input options = Ok fullAscii ->
  Z.of_nat (length (split_nl fullAscii)) <= previewLines ->
  previewAscii w input options previewLines = Ok fullAscii.
Proof.
  intros Hconv Hle. unfold previewAscii. rewrite Hconv. cbn [mbind result_bind].
  destruct (Z.gtb_spec (Z.of_nat (length (split_nl fullAscii))) previewLines) as [Hgt|_]; [lia|].
  rewrite app_nil_r. f_equal. unfold slice0.
  destruct (Z.ltb_spec previewLines 0) as [Hlt|_]; [lia|].
  rewrite Z.min_r by exact Hle. rewrite Nat2Z.id, firstn_all. apply join_split_nl.
Qed.

Lemma previewAscii_whole_witness :
  previewAscii white_world (InBuffer []) {["width" := VNumber (of_Z 10)]} 6 =
  Ok (concat (map (fun r => r ++ [LF]) (replicate 5 (replicate 10 64)))).
Proof.
  apply (previewAscii_whole white_world (InBuffer []) {["width" := VNumber (of_Z 10)]} 6).
  - vm_compute. reflexivity.
  - vm_compute. discriminate.
Defined.

(** X10. When [previewLines] is at most the number of rows,
    [previewAscii] returns the first rows joined by line breaks, followed by
    the truncation marker; a negative [previewLines] counts from the end of
    the split output, so that [-1] keeps every row. *)
Theorem previewAscii_truncated `{MathPow} (w : World) (input : Input)
    (options : gmap string value) (previewLines : Z) (rows : list (list Z)) :
  Forall (fun r => ~ In LF r) rows ->
  convertToAscii w input options = Ok (concat (map (fun r => r ++ [LF]) rows)) ->
  previewLines <= Z.of_nat (length rows) ->
  previewAscii w input options previewLines =
  Ok (join_nl (take (Z.to_nat (if previewLines <? 0
                               then Z.of_nat (length rows) + 1 + previewLines
                               else previewLines)) rows) ++ truncation_marker).
Proof.
  intros Hnl Hconv Hle. unfold previewAscii. rewrite Hconv. cbn [mbind result_bind].
  rewrite split_nl_rows by exact Hnl. rewrite length_app. cbn [length].
  destruct (Z.gtb_spec (Z.of_nat (length rows + 1)) previewLines) as [_|Hgt]; [|lia].
  f_equal. f_equal. f_equal. unfold slice0. rewrite length_app. cbn [length].
  destruct (Z.ltb_spec previewLines 0) as [Hlt|Hge].
  - replace (Z.of_nat (length rows + 1) + previewLines)
      with (Z.of_nat (length rows) + 1 + previewLines) by lia.
    destruct (Z.max_spec (Z.of_nat (length rows) + 1 + previewLines) 0) as [[Hneg ->]|[Hneg ->]].
    + replace (Z.to_nat (Z.of_nat (length rows) + 1 + previewLines)) with (Z.to_nat 0) by lia.
      reflexivity.
    + apply take_app_le. lia.
  - rewrite Z.min_l by lia. apply take_app_le. lia.
Qed.

Lemma previewAscii_truncated_witness :
  previewAscii white_world (InBuffer []) {["width" := VNumber (of_Z 10)]} (-1) =
  Ok (join_nl (take (Z.to_nat (if -1 <? 0
                               then Z.of_nat (length (replicate 5 (replicate 10 64))) + 1 + -1
                               else -1)) (replicate 5 (replicate 10 64))) ++ truncation_marker).
Proof.
  apply (previewAscii_truncated white_world (InBuffer []) {["width" := VNumber (of_Z 10)]} (-1)
           (replicate 5 (replicate 10 64))).
  - exact white_rows_no_LF.
  - vm_compute. reflexivity.
  - vm_compute. discriminate.
Defined.

(** * The class *)

Lemma validateOptions_ext (a b : gmap string value) :
  a ∪ defaults = b ∪ defaults -> validateOptions a = validateOptions b.
Proof. intros Hab. unfold validateOptions. rewrite Hab. reflexivity. Qed.

Lemma convertToAscii_ext `{MathPow} (w : World) (input : Input) (a b : gmap string value) :
  validateOptions a = validateOptions b -> convertToAscii w input a = convertToAscii w input b.
Proof. intros Hab. unfold convertToAscii. rewrite Hab. reflexivity. Qed.

Lemma convertAndSave_ext `{MathPow} (w : World) (input : Input) (output : string)
    (a b : gmap string value) :
  validateOptions a = validateOptions b ->
  convertAndSave w input output a = convertAndSave w input output b.
Proof.
  intros Hab. unfold convertAndSave. rewrite (convertToAscii_ext w input a b Hab). reflexivity.
Qed.

(** X11. An [AsciiPic] instance whose constructor accepted
    [defaultOptions] converts, and converts to file, exactly as the plain
    functions do on the per-call options laid over [defaultOptions]. *)
Theorem AsciiPic_merges_defaults `{MathPow} (w : World) (defaultOptions this : gmap string value)
    (input : Input) (output : string) (options : gmap string value) :
  AsciiPic_new defaultOptions = Ok this ->
  AsciiPic_convert w this input options = convertToAscii w input (options ∪ defaultOptions) /\
  AsciiPic_convertToFile w this input output options =
    convertAndSave w input output (options ∪ defaultOptions).
Proof.
  unfold AsciiPic_new. intros Hnew. apply validateOptions_merge in Hnew. subst this.
  assert (Hv : validateOptions (options ∪ (defaultOptions ∪ defaults)) =
               validateOptions (options ∪ defaultOptions)).
  { apply validateOptions_ext. rewrite (assoc_L (∪) options defaultOptions defaults).
    apply union_defaults_absorb. }
  split.
  - unfold AsciiPic_convert. apply convertToAscii_ext. exact Hv.
  - unfold AsciiPic_convertToFile. apply convertAndSave_ext. exact Hv.
Qed.

Lemma AsciiPic_merges_defaults_witness :
  AsciiPic_convert white_world ({["width" := VNumber (of_Z 10)]} ∪ defaults) (InBuffer [])
      {["invert" := VBool true]} =
    convertToAscii white_world (InBuffer [])
      ({["invert" := VBool true]} ∪ {["width" := VNumber (of_Z 10)]}) /\
  AsciiPic_convertToFile white_world ({["width" := VNumber (of_Z 10)]} ∪ defaults) (InBuffer [])
      "out.txt" {["invert" := VBool true]} =
    convertAndSave white_world (InBuffer []) "out.txt"
      ({["invert" := VBool true]} ∪ {["width" := VNumber (of_Z 10)]}).
Proof.
  apply (AsciiPic_merges_defaults white_world {["width" := VNumber (of_Z 10)]}
           ({["width" := VNumber (of_Z 10)]} ∪ defaults) (InBuffer [])
           "out.txt" {["invert" := VBool true]}).
  vm_compute. reflexivity.
Defined.

(** * Exact operations *)

Lemma shr_1_double (p : positive) :
  shr_1 {| shr_m := 2 * Zpos p; shr_r := false; shr_s := false |} =
  {| shr_m := Zpos p; shr_r := false; shr_s := false |}.
Proof. reflexivity. Qed.

(** Shifting out [j] zero bits loses nothing. *)
Lemma iter_shr_1_exact (m j : positive) :
  SpecFloat.iter_pos shr_1 j {| shr_m := Zpos m * 2 ^ Zpos j; shr_r := false; shr_s := false |} =
  {| shr_m := Zpos m; shr_r := false; shr_s := false |}.
Proof.
  pose proof (iter_pos_inv shr_1
    (fun k x => k <= Zpos j ->
                x = {| shr_m := Zpos m * 2 ^ (Zpos j - k); shr_r := false; shr_s := false |})) as I.
  cbv beta in I.
  assert (Hstep : forall (k : Z) (x : shr_record), 0 <= k ->
            (k <= Zpos j ->
             x = {| shr_m := Zpos m * 2 ^ (Zpos j - k); shr_r := false; shr_s := false |}) ->
            k + 1 <= Zpos j ->
            shr_1 x = {| shr_m := Zpos m * 2 ^ (Zpos j - (k + 1)); shr_r := false; shr_s := false |}).
  { intros k x Hk Hx Hk1. rewrite Hx by lia.
    assert (Hpos : 0 < Zpos m * 2 ^ (Zpos j - (k + 1))).
    { apply Z.mul_pos_pos; [lia | apply Z.pow_pos_nonneg; lia]. }
    destruct (Zpos m * 2 ^ (Zpos j - (k + 1))) as [|q|q] eqn:Eq; try lia.
    replace (Zpos m * 2 ^ (Zpos j - k)) with (2 * Zpos q).
    - apply shr_1_double.
    - rewrite <- Eq. replace (Zpos j - k) with (Z.succ (Zpos j - (k + 1))) by lia.
      rewrite Z.pow_succ_r by lia. ring. }
  specialize (I Hstep j 0 {| shr_m := Zpos m * 2 ^ Zpos j; shr_r := false; shr_s := false |}).
  rewrite Z.add_0_l in I. rewrite I; [| lia | | lia].
  - rewrite Z.sub_diag, Z.pow_0_r, Z.mul_1_r. reflexivity.
  - intros _. rewrite Z.sub_0_r. reflexivity.
Qed.

Lemma Zdigits2_mul_pow2 (m : positive) (j : Z) :
  0 <= j -> Zdigits2 (Zpos m * 2 ^ j) = Zdigits2 (Zpos m) + j.
Proof.
  intros Hj. destruct j as [|d|d]; [rewrite Z.pow_0_r, Z.mul_1_r; lia | | lia].
  rewrite <- Zpos_iter_xO. cbn [Zdigits2]. apply digits2_pos_iter_xO.
Qed.

(** Rounding a canonical double written with [j] extra zero bits gives it
    back. *)
Lemma binary_round_aux_exact (m : positive) (e j : Z) :
  0 <= j -> fexp (Zdigits2 (Zpos m) + e) = e -> e <= emax - prec ->
  binary_round_aux prec emax false (Zpos m * 2 ^ j) (e - j) loc_Exact = S754_finite false m e.
Proof.
  intros Hj Hc He. destruct j as [|d|d]; [| |lia].
  - rewrite Z.pow_0_r, Z.mul_1_r, Z.sub_0_r. apply binary_round_aux_canonical; assumption.
  - unfold binary_round_aux, shr_fexp. fold fexp.
    rewrite Zdigits2_mul_pow2 by lia.
    replace (Zdigits2 (Zpos m) + Zpos d + (e - Zpos d)) with (Zdigits2 (Zpos m) + e) by lia.
    rewrite Hc. replace (e - (e - Zpos d)) with (Zpos d) by lia.
    cbn [shr_record_of_loc shr]. rewrite iter_shr_1_exact.
    cbn [shr_m loc_of_shr_record round_nearest_even].
    replace (e - Zpos d + Zpos d) with e by lia.
    rewrite Hc, Z.sub_diag. cbn [shr_record_of_loc shr shr_m].
    apply Z.leb_le in He. rewrite He. reflexivity.
Qed.

(** [1 * x] is [x]. *)
Lemma num_mul_one_l (m : positive) (e : Z) :
  fexp (Zdigits2 (Zpos m) + e) = e -> e <= emax - prec ->
  num_mul one (S754_finite false m e) = S754_finite false m e.
Proof.
  intros Hc He. unfold num_mul, one. cbn [SFmul xorb].
  rewrite Pos2Z.inj_mul, Z.mul_comm.
  change (Zpos 4503599627370496) with (2 ^ 52).
  replace (-52 + e) with (e - 52) by lia.
  apply binary_round_aux_exact; [lia | exact Hc | exact He].
Qed.

(** [x * 0.5] halves the exponent's weight and keeps the mantissa. *)
Lemma num_mul_half (m : positive) (e : Z) :
  fexp (Zdigits2 (Zpos m) + (e - 1)) = e - 1 -> e - 1 <= emax - prec ->
  num_mul (S754_finite false m e) lit_0_5 = S754_finite false m (e - 1).
Proof.
  intros Hc He. unfold num_mul, lit_0_5. cbn [SFmul xorb].
  rewrite Pos2Z.inj_mul.
  change (Zpos 4503599627370496) with (2 ^ 52).
  replace (e + -53) with (e - 1 - 52) by lia.
  apply binary_round_aux_exact; [lia | exact Hc | exact He].
Qed.

(** [x / x] is 1. *)
Lemma num_div_self (m : positive) (e : Z) :
  num_div (S754_finite false m e) (S754_finite false m e) = one.
Proof.
  unfold num_div. cbn [SFdiv xorb]. unfold SFdiv_core_binary.
  replace (Zdigits2 (Zpos m) + e - (Zdigits2 (Zpos m) + e)) with 0 by lia.
  rewrite Z.sub_diag.
  change (Z.min (SpecFloat.fexp prec emax 0) 0) with (-53).
  change (0 - -53) with 53.
  rewrite Z.shiftl_mul_pow2 by lia.
  assert (Hq : Z.div_eucl (Zpos m * 2 ^ 53) (Zpos m) = (2 ^ 53, 0)).
  { rewrite (Z.mul_comm (Zpos m)).
    assert (Hdm : forall a b, Z.div_eucl a b = (a / b, a mod b)).
    { intros a b. unfold Z.div, Z.modulo. destruct (Z.div_eucl a b). reflexivity. }
    rewrite Hdm, Z.div_mul, Z.mod_mul by lia. reflexivity. }
  rewrite Hq.
  assert (Hl : new_location (Zpos m) 0 = loc_Exact).
  { unfold new_location, new_location_even, new_location_odd.
    destruct (Z.even (Zpos m)); reflexivity. }
  rewrite Hl.
  change (2 ^ 53) with (Zpos 4503599627370496 * 2 ^ 1).
  change (-53) with (-52 - 1).
  apply binary_round_aux_exact; [lia | reflexivity | unfold emax, prec; lia].
Qed.

(** The floor of a double whose value is the integer [n] is [n]. *)
Lemma Math_floor_integer (m : positive) (e n : Z) :
  F2R (Zpos m) e = IZR n -> Math_floor (S754_finite false m e) = Some n.
Proof.
  intros Hv. unfold Math_floor. cbn [cond_Zopp]. f_equal.
  destruct (Z.leb_spec 0 e) as [He|He].
  - apply eq_IZR. rewrite <- Hv, mult_IZR, IZR_pow2 by lia. reflexivity.
  - assert (Hm : Zpos m = n * 2 ^ (- e)).
    { apply eq_IZR. rewrite mult_IZR, IZR_pow2 by lia. rewrite <- Hv. unfold F2R.
      rewrite Rmult_assoc, <- powerRZ_2_add. replace (e + - e) with 0 by lia.
      cbn [powerRZ]. ring. }
    rewrite Hm. apply Z.div_mul. apply Z.pow_nonzero; lia.
Qed.

(** An integer below 2^53 converts to a normal double of the same value. *)
Lemma of_Z_normal (k : positive) :
  Zpos k < 2 ^ 53 ->
  exists mk ek, of_Z (Zpos k) = S754_finite false mk ek /\
                F2R (Zpos mk) ek = IZR (Zpos k) /\
                Zdigits2 (Zpos mk) = 53 /\ -52 <= ek <= 0.
Proof.
  intros Hk. unfold of_Z, binary_normalize, binary_round.
  assert (Hd : 1 <= Zpos (digits2_pos k) <= 53).
  { pose proof (digits2_pos_bounds k) as [L _]. split; [lia|].
    destruct (Z_le_gt_dec (Zpos (digits2_pos k)) 53) as [H|H]; [exact H|].
    assert (2 ^ 53 <= 2 ^ (Zpos (digits2_pos k) - 1)) by (apply Z.pow_le_mono_r; lia). lia. }
  pose proof (shl_align_value k 0 (SpecFloat.fexp prec emax (Z.pos (digits2_pos k) + 0))) as V.
  assert (Hf : SpecFloat.fexp prec emax (Z.pos (digits2_pos k) + 0) = Zpos (digits2_pos k) - 53).
  { unfold SpecFloat.fexp, emin, prec, emax. lia. }
  rewrite Hf in *.
  assert (C : let a := shl_align k 0 (Zpos (digits2_pos k) - 53) in
              Zpos (digits2_pos (fst a)) + snd a = Zpos (digits2_pos k) /\
              snd a = Zpos (digits2_pos k) - 53).
  { unfold shl_align. destruct (Z.pos (digits2_pos k) - 53 - 0) as [|d|d] eqn:E; cbn [fst snd].
    - lia.
    - lia.
    - rewrite digits2_pos_iter_xO. lia. }
  destruct (shl_align k 0 (Zpos (digits2_pos k) - 53)) as [mz ez]. cbn [fst snd] in V, C.
  destruct C as [C1 C2].
  assert (Hcan : fexp (Zdigits2 (Zpos mz) + ez) = ez).
  { cbn [Zdigits2]. rewrite C1. unfold fexp, SpecFloat.fexp, emin, prec, emax. lia. }
  exists mz, ez. split; [apply binary_round_aux_canonical; [exact Hcan | unfold emax, prec; lia]|].
  split; [rewrite V; unfold F2R; cbn [powerRZ]; ring|].
  cbn [Zdigits2]. lia.
Qed.

Lemma fexp_normal (d e : Z) : d = 53 -> -1000 <= e -> fexp (d + e) = e.
Proof. intros -> He. unfold fexp, SpecFloat.fexp, emin, prec, emax. lia. Qed.

(** [Math.floor] of an integer below 2^53 held in a double. *)
Lemma Math_floor_of_Z (n : Z) : 0 <= n < 2 ^ 53 -> Math_floor (of_Z n) = Some n.
Proof.
  intros Hn. destruct n as [|k|k]; [reflexivity | | lia].
  destruct (of_Z_normal k ltac:(lia)) as (mk & ek & -> & Hv & _ & _).
  apply Math_floor_integer. exact Hv.
Qed.

(** [1 * n] for an integer [n] below 2^53. *)
Lemma num_mul_one_of_Z (n : Z) : 0 <= n < 2 ^ 53 -> num_mul one (of_Z n) = of_Z n.
Proof.
  intros Hn. destruct n as [|k|k]; [reflexivity | | lia].
  destruct (of_Z_normal k ltac:(lia)) as (mk & ek & -> & _ & Hd & He).
  apply num_mul_one_l; [apply fexp_normal; [exact Hd | lia] | unfold emax, prec; lia].
Qed.

Lemma num_div_of_Z_self (n : Z) : 0 < n < 2 ^ 53 -> num_div (of_Z n) (of_Z n) = one.
Proof.
  intros Hn. destruct n as [|k|k]; [lia | | lia].
  destruct (of_Z_normal k ltac:(lia)) as (mk & ek & -> & _ & _ & _).
  apply num_div_self.
Qed.

(** * Results that do not underflow *)

Lemma shr_1_inv_lo (m0 k : Z) (mrs : shr_record) :
  0 <= k -> shr_inv_lo m0 k mrs -> shr_inv_lo m0 (k + 1) (shr_1 mrs).
Proof.
  intros Hk (Hm & Hlt). destruct mrs as [m r s]. unfold shr_inv_lo in *.
  cbn [shr_m] in *. rewrite Z.pow_add_r, Z.pow_1_r by lia.
  assert (P : 0 < 2 ^ k) by (apply Z.pow_pos_nonneg; lia).
  destruct m as [|[p|p|]|p]; cbn [shr_1 shr_m]; lia.
Qed.

Lemma shr_fexp_lo (m e : Z) (l : location) :
  0 <= m ->
  let k := Z.max 0 (fexp (Zdigits2 m + e) - e) in
  exists mrs, shr_fexp prec emax m e l = (mrs, e + k) /\ shr_inv_lo m k mrs.
Proof.
  intros Hm k. unfold shr_fexp, shr. fold fexp.
  assert (I0 : shr_inv_lo m 0 (shr_record_of_loc m l)).
  { unfold shr_inv_lo. destruct l as [|[| |]]; cbn [shr_record_of_loc shr_m]; lia. }
  subst k. destruct (fexp (Zdigits2 m + e) - e) as [|p|p] eqn:En.
  - eexists. split; [rewrite Z.add_0_r; reflexivity | exact I0].
  - eexists. split; [replace (Z.max 0 (Z.pos p)) with (Z.pos p) by lia; reflexivity|].
    replace (Z.max 0 (Z.pos p)) with (0 + Z.pos p) by lia.
    apply (iter_pos_inv shr_1 (shr_inv_lo m)); [intros; apply shr_1_inv_lo; assumption | lia | exact I0].
  - eexists. split; [replace (Z.max 0 (Z.neg p)) with 0 by lia; rewrite Z.add_0_r; reflexivity | exact I0].
Qed.

Lemma Zdigits2_ge_of_le (a n : Z) : 0 < a -> 2 ^ (n - 1) <= a -> n <= Zdigits2 a.
Proof.
  intros Ha Hle. pose proof (Zdigits2_bounds a Ha) as [_ U].
  destruct (Z_le_gt_dec n (Zdigits2 a)) as [H|H]; [exact H|].
  pose proof (Zdigits2_nonneg a) as Hd.
  assert (2 ^ Zdigits2 a <= 2 ^ (n - 1)) by (apply Z.pow_le_mono_r; lia). lia.
Qed.

(** What one shift keeps of a mantissa above the subnormal range: it is
    positive and has the digits that were not shifted out. *)
Lemma shr_fexp_keeps (m e : Z) (l : location) :
  0 < m -> emin prec emax < Zdigits2 m + e ->
  exists mrs k, shr_fexp prec emax m e l = (mrs, e + k) /\ 0 <= k /\
                0 < shr_m mrs /\ Zdigits2 m - k <= Zdigits2 (shr_m mrs).
Proof.
  intros Hm Hn.
  destruct (shr_fexp_lo m e l ltac:(lia)) as (mrs & E & Hs & Hlo).
  set (k := Z.max 0 (fexp (Zdigits2 m + e) - e)) in *.
  exists mrs, k. split; [exact E|]. split; [lia|].
  pose proof (Zdigits2_bounds m Hm) as [L _].
  assert (Hd1 : 1 <= Zdigits2 m) by (apply Zdigits2_ge_of_le; [lia | cbn; lia]).
  assert (Hk : 0 <= k <= Zdigits2 m - 1).
  { unfold k, fexp, SpecFloat.fexp, emin, prec, emax in *. lia. }
  assert (P : 0 < 2 ^ k) by (apply Z.pow_pos_nonneg; lia).
  assert (Hsplit : 2 ^ (Zdigits2 m - 1) = 2 ^ (Zdigits2 m - 1 - k) * 2 ^ k).
  { rewrite <- Z.pow_add_r by lia. f_equal. lia. }
  assert (Q : 0 < 2 ^ (Zdigits2 m - 1 - k)) by (apply Z.pow_pos_nonneg; lia).
  assert (Hge : 2 ^ (Zdigits2 m - 1 - k) <= shr_m mrs) by nia.
  split; [lia|].
  apply Zdigits2_ge_of_le; [lia|]. replace (Zdigits2 m - k - 1) with (Zdigits2 m - 1 - k) by lia.
  exact Hge.
Qed.

Lemma Zdigits2_mono (a b : Z) : 0 < a -> a <= b -> Zdigits2 a <= Zdigits2 b.
Proof.
  intros Ha Hab. apply Zdigits2_ge_of_le; [lia|].
  pose proof (Zdigits2_bounds a Ha) as [L _]. lia.
Qed.

(** Rounding a positive value above the subnormal range never gives zero. *)
Lemma binary_round_aux_nonzero (mx ex : Z) (lx : location) (s : bool) :
  0 < mx -> emin prec emax < Zdigits2 mx + ex ->
  binary_round_aux prec emax false mx ex lx <> S754_zero s.
Proof.
  intros Hmx Hn. unfold binary_round_aux.
  destruct (shr_fexp_keeps mx ex lx Hmx Hn) as (mrs1 & k1 & E1 & Hk1 & Hs1 & Hd1). rewrite E1.
  pose proof (round_nearest_even_le (shr_m mrs1) (loc_of_shr_record mrs1)) as [R1 R2].
  set (m2 := round_nearest_even (shr_m mrs1) (loc_of_shr_record mrs1)) in *.
  assert (Hd2 : Zdigits2 (shr_m mrs1) <= Zdigits2 m2) by (apply Zdigits2_mono; lia).
  destruct (shr_fexp_keeps m2 (ex + k1) loc_Exact ltac:(lia) ltac:(lia))
    as (mrs2 & k2 & E2 & Hk2 & Hs2 & _). rewrite E2.
  destruct (shr_m mrs2) as [|m3|m3]; [lia | | discriminate].
  destruct (ex + k1 + k2 <=? emax - prec); discriminate.
Qed.

Lemma contrast_in_range_exponent (m : positive) (e : Z) :
  contrast_in_range (S754_finite false m e) -> -56 <= e <= -50.
Proof.
  intros Hc. destruct (contrast_in_range_shape _ Hc) as (m' & e' & [= <- <-] & He).
  split; [exact He|]. destruct Hc as (_ & _ & Hhi).
  unfold SFleb, lit_5_0 in Hhi. cbn [SFcompare] in Hhi.
  destruct (Z.compare e (-50)) eqn:C; try discriminate.
  - apply Z.compare_eq in C. lia.
  - rewrite Z.compare_lt_iff in C. lia.
Qed.

(** The exponent [1 / contrast] of the contrast curve is a positive finite
    number for every contrast in range. *)
Lemma num_div_one_pos (c : number) :
  contrast_in_range c -> pos_finite (num_div one c).
Proof.
  intros Hc. pose proof (num_div_one_finite c Hc) as Hfin.
  destruct (contrast_in_range_shape c Hc) as (m & e & -> & _).
  pose proof (contrast_in_range_exponent m e Hc) as He.
  destruct Hc as (Hv & _). pose proof (valid_digits m e Hv) as Hd.
  pose proof (digits2_pos_bounds m) as [_ Hm].
  assert (Hnz : forall s, num_div one (S754_finite false m e) <> S754_zero s).
  { intros s. unfold num_div, one, SFdiv, SFdiv_core_binary. cbn [xorb].
    change (Zdigits2 4503599627370496) with 53.
    set (e' := Z.min (SpecFloat.fexp prec emax (53 + -52 - (Zdigits2 (Z.pos m) + e))) (-52 - e)).
    set (s' := -52 - e - e').
    assert (He' : e' = -52 - e - Zpos (digits2_pos m)).
    { unfold e', SpecFloat.fexp, emin, prec, emax in *. cbn [Zdigits2]. lia. }
    assert (Hs' : s' = Zpos (digits2_pos m)) by (unfold s'; lia).
    rewrite Hs'. cbv beta iota. rewrite Z.shiftl_mul_pow2 by lia.
    change 4503599627370496 with (2 ^ 52).
    assert (P : 0 < 2 ^ Zpos (digits2_pos m)) by (apply Z.pow_pos_nonneg; lia).
    pose proof (Z_div_mod (2 ^ 52 * 2 ^ Zpos (digits2_pos m)) (Z.pos m) ltac:(lia)) as DM.
    destruct (Z.div_eucl (2 ^ 52 * 2 ^ Zpos (digits2_pos m)) (Z.pos m)) as [q r].
    destruct DM as [Hq Hr].
    assert (Hq52 : 2 ^ 52 <= q).
    { destruct (Z_le_gt_dec (2 ^ 52) q) as [H|H]; [exact H|]. exfalso.
      assert (q + 1 <= 2 ^ 52) by lia.
      assert (Zpos m * (q + 1) <= Zpos m * 2 ^ 52) by (apply Z.mul_le_mono_nonneg_l; lia).
      assert (Zpos m * 2 ^ 52 < 2 ^ Zpos (digits2_pos m) * 2 ^ 52)
        by (apply Z.mul_lt_mono_pos_r; lia).
      lia. }
    apply binary_round_aux_nonzero; [lia|].
    assert (53 <= Zdigits2 q) by (apply Zdigits2_ge_of_le; [lia | exact Hq52]).
    unfold emin, prec, emax in *. lia. }
  assert (Hsign : forall mz ez lz, match binary_round_aux prec emax false mz ez lz with
                                   | S754_finite true _ _ => False
                                   | _ => True
                                   end).
  { intros mz ez lz. unfold binary_round_aux.
    destruct (shr_fexp prec emax mz ez lz) as [mrs1 e1].
    destruct (shr_fexp prec emax _ e1 loc_Exact) as [mrs2 e2].
    destruct (shr_m mrs2); [exact I | | exact I].
    destruct (e2 <=? emax - prec); exact I. }
  assert (Hsg : match num_div one (S754_finite false m e) with
                | S754_finite true _ _ => False
                | _ => True
                end).
  { unfold num_div, one, SFdiv. cbn [xorb].
    destruct (SFdiv_core_binary prec emax 4503599627370496 (-52) (Z.pos m) e) as [[mz ez] lz].
    apply Hsign. }
  destruct (num_div one (S754_finite false m e)) as [s0 | s0 | | [|] m0 e0];
    cbn [finite_num pos_finite] in *; try contradiction; try exact I.
  exfalso. eapply Hnz. reflexivity.
Qed.

(** * The ends of the scale *)

Section Extremes.

Context `{MathPow}.
Variables (opts : gmap string value) (c : number) (s : list Z).
Hypothesis Hcontrast : opts !! "contrast" = Some (VNumber c).
Hypothesis Hrange : contrast_in_range c.
Hypothesis HN : 2 <= Z.of_nat (length s) <= 2 ^ 53.

(** White stays 1 and black stays 0 through the contrast curve and the
    clamp, whatever the contrast. *)
Lemma white_clamped : clampedBrightness opts (Some 255) = one.
Proof.
  unfold clampedBrightness. rewrite Hcontrast. cbn [as_number].
  change (num_div (of_Z 255) (of_Z 255)) with one.
  rewrite Math_pow_one by (apply num_div_one_finite; exact Hrange). reflexivity.
Qed.

Lemma black_clamped : clampedBrightness opts (Some 0) = pzero.
Proof.
  unfold clampedBrightness. rewrite Hcontrast. cbn [as_number].
  change (num_div (of_Z 0) (of_Z 255)) with pzero.
  rewrite Math_pow_zero by (apply num_div_one_pos; exact Hrange). reflexivity.
Qed.

(** Brightness 1 selects the glyph at position 0. *)
Lemma glyph_of_one : char_at (CsString s) (Math_floor (num_mul one (length_minus_1 (CsString s)))) = s !! 0%nat.
Proof.
  cbn [length_minus_1]. rewrite num_mul_one_of_Z, Math_floor_of_Z by lia.
  cbn [char_at]. rewrite Z.sub_diag. reflexivity.
Qed.

(** Brightness 0 selects the last glyph. *)
Lemma glyph_of_zero :
  char_at (CsString s) (Math_floor (num_mul pzero (length_minus_1 (CsString s)))) =
  s !! (length s - 1)%nat.
Proof.
  cbn [length_minus_1].
  assert (Hz : num_mul pzero (of_Z (Z.of_nat (length s) - 1)) = pzero).
  { destruct (Z.of_nat (length s) - 1) as [|k|k] eqn:Ek; [lia | | lia].
    destruct (of_Z_normal k ltac:(lia)) as (mk & ek & -> & _). reflexivity. }
  rewrite Hz. cbn [Math_floor pzero char_at]. rewrite Z.sub_0_r.
  destruct (Z.ltb_spec (Z.of_nat (length s) - 1) 0) as [Hlt|_]; [lia|].
  f_equal. lia.
Qed.

End Extremes.

(** X12. For every contrast in range and every charset of 2 to 2^53
    glyphs, a pixel of intensity 255 is drawn with the first glyph and a
    pixel of intensity 0 with the last one; with [invert] truthy the two
    are exchanged. *)
Theorem extreme_pixels `{MathPow} (opts : gmap string value) (c : number) (s : list Z)
    (data : list Z) (width : Z) (y x : nat) :
  opts !! "contrast" = Some (VNumber c) -> contrast_in_range c ->
  2 <= Z.of_nat (length s) <= 2 ^ 53 ->
  0 <= Z.of_nat y * width + Z.of_nat x ->
  let px := data !! Z.to_nat (Z.of_nat y * width + Z.of_nat x) in
  let invert := ToBoolean (opts !! "invert") in
  (px = Some 255 ->
   pixelChar opts (CsString s) data width y x =
     s !! (if invert then length s - 1 else 0)%nat) /\
  (px = Some 0 ->
   pixelChar opts (CsString s) data width y x =
     s !! (if invert then 0 else length s - 1)%nat).
Proof.
  intros Hc Hr HN Hidx px invert. unfold pixelChar. fold invert.
  destruct (Z.ltb_spec (Z.of_nat y * width + Z.of_nat x) 0) as [Hlt|_]; [lia|].
  fold px. split; intros ->.
  - rewrite (white_clamped opts c Hc Hr). unfold selectGlyph. destruct invert.
    + change (num_sub one one) with pzero. apply glyph_of_zero. exact HN.
    + apply glyph_of_one. exact HN.
  - rewrite (black_clamped opts c Hc Hr). unfold selectGlyph. destruct invert.
    + change (num_sub one pzero) with one. apply glyph_of_one. exact HN.
    + apply glyph_of_zero. exact HN.
Qed.

Lemma extreme_pixels_witness :
  (([0; 255] : list Z) !! Z.to_nat (Z.of_nat 0 * 2 + Z.of_nat 1) = Some 255 ->
   pixelChar sample_options (CsString simple_charset) [0; 255] 2 0 1 =
     simple_charset !! (if ToBoolean (sample_options !! "invert")
                        then length simple_charset - 1 else 0)%nat) /\
  (([0; 255] : list Z) !! Z.to_nat (Z.of_nat 0 * 2 + Z.of_nat 1) = Some 0 ->
   pixelChar sample_options (CsString simple_charset) [0; 255] 2 0 1 =
     simple_charset !! (if ToBoolean (sample_options !! "invert")
                        then 0 else length simple_charset - 1)%nat).
Proof.
  apply (extreme_pixels sample_options lit_1_2 simple_charset [0; 255] 2 0 1).
  - reflexivity.
  - exact lit_1_2_in_range.
  - vm_compute. split; discriminate.
  - vm_compute. discriminate.
Defined.

(** * Dimensions and progress *)

Lemma Math_floor_shift (m : positive) (e n j : Z) :
  F2R (Zpos m) e = IZR n -> 0 <= j ->
  Math_floor (S754_finite false m (e - j)) = Some (n / 2 ^ j).
Proof.
  intros Hv Hj. unfold Math_floor. cbn [cond_Zopp]. f_equal.
  assert (Pj : 0 < 2 ^ j) by (apply Z.pow_pos_nonneg; lia).
  destruct (Z.leb_spec 0 e) as [He|He].
  - assert (Hn : n = Zpos m * 2 ^ e).
    { apply eq_IZR. rewrite <- Hv, mult_IZR, IZR_pow2 by lia. reflexivity. }
    destruct (Z.leb_spec 0 (e - j)) as [Hej|Hej].
    + rewrite Hn. replace e with (e - j + j) at 2 by lia.
      rewrite Z.pow_add_r, Z.mul_assoc, Z.div_mul by lia. reflexivity.
    + rewrite Hn. replace j with (- (e - j) + e) at 2 by lia.
      rewrite Z.pow_add_r by lia.
      rewrite Z.div_mul_cancel_r; [reflexivity | | ]; apply Z.pow_nonzero; lia.
  - assert (Hm : Zpos m = n * 2 ^ (- e)).
    { apply eq_IZR. rewrite mult_IZR, IZR_pow2 by lia. rewrite <- Hv. unfold F2R.
      rewrite Rmult_assoc, <- powerRZ_2_add. replace (e + - e) with 0 by lia.
      cbn [powerRZ]. ring. }
    destruct (Z.leb_spec 0 (e - j)) as [Hej|Hej]; [lia|].
    rewrite Hm. replace (- (e - j)) with (j + - e) by lia.
    rewrite Z.pow_add_r by lia.
    rewrite Z.div_mul_cancel_r; [reflexivity | | ]; apply Z.pow_nonzero; lia.
Qed.

(** The height requested for a square image at the default aspect ratio
    0.5 is half the width, rounded down. *)
Lemma targetHeight_square (n W : Z) :
  0 < n < 2 ^ 53 -> 0 < W < 2 ^ 53 ->
  Math_floor (num_mul (num_mul (num_div (of_Z n) (of_Z n)) (of_Z W)) lit_0_5) = Some (W / 2).
Proof.
  intros Hn HW. rewrite num_div_of_Z_self, num_mul_one_of_Z by lia.
  destruct W as [|k|k]; [lia | | lia].
  destruct (of_Z_normal k ltac:(lia)) as (mk & ek & -> & Hv & Hd & He).
  rewrite num_mul_half; [| apply fexp_normal; [exact Hd | lia] | unfold emax, prec; lia].
  change (Z.pos k / 2) with (Z.pos k / 2 ^ 1). apply Math_floor_shift; [exact Hv | lia].
Qed.

(** X13. For a square image and the aspect ratio 0.5,
    [calculateDimensions] reports the target width unchanged, the height
    [floor(W / 2)], an original ratio of 1 and the ratio of the two as new
    ratio; the height is the one [convertToAscii] computes by the same
    expression. *)
Theorem calculateDimensions_square (n W : Z) :
  0 < n < 2 ^ 53 -> 0 < W < 2 ^ 53 ->
  let d := calculateDimensions (of_Z n) (of_Z n) (of_Z W) lit_0_5 in
  dims_width d = of_Z W /\ dims_height d = of_Z (W / 2) /\ originalRatio d = one /\
  newRatio d = num_div (of_Z W) (of_Z (W / 2)) /\
  Math_floor (num_mul (num_mul (num_div (of_Z n) (of_Z n)) (of_Z W)) lit_0_5) = Some (W / 2).
Proof.
  intros Hn HW d.
  pose proof (targetHeight_square n W Hn HW) as Hh.
  assert (Hd : dims_height d = of_Z (W / 2)).
  { unfold d, calculateDimensions. cbn [dims_height]. unfold floor_number.
    destruct (num_mul (num_mul (num_div (of_Z n) (of_Z n)) (of_Z W)) lit_0_5)
      as [sg | sg | | sg m e] eqn:E.
    - cbn [Math_floor] in Hh. injection Hh as Hh.
      rewrite num_div_of_Z_self, num_mul_one_of_Z in E by lia.
      destruct W as [|k|k]; [lia | | lia].
      destruct (of_Z_normal k ltac:(lia)) as (mk & ek & Ek & _ & Hdk & Hek).
      rewrite Ek, num_mul_half in E;
        [discriminate | apply fexp_normal; [exact Hdk | lia] | unfold emax, prec; lia].
    - discriminate.
    - discriminate.
    - rewrite Hh. reflexivity. }
  split; [reflexivity|]. split; [exact Hd|]. split; [apply num_div_of_Z_self; lia|].
  split; [|exact Hh].
  unfold d, calculateDimensions in *. cbn [newRatio dims_height] in *. rewrite Hd. reflexivity.
Qed.

Lemma calculateDimensions_square_witness :
  let d := calculateDimensions (of_Z 100) (of_Z 100) (of_Z 25) lit_0_5 in
  dims_width d = of_Z 25 /\ dims_height d = of_Z (25 / 2) /\ originalRatio d = one /\
  newRatio d = num_div (of_Z 25) (of_Z (25 / 2)) /\
  Math_floor (num_mul (num_mul (num_div (of_Z 100) (of_Z 100)) (of_Z 25)) lit_0_5) = Some (25 / 2).
Proof. apply (calculateDimensions_square 100 25); lia. Defined.

(** X14. At completion ([current = total]) [formatProgress] prints the
    percentage 100, after the two counts and before the file name, which is
    left out when empty. *)
Theorem formatProgress_complete (w : World) (n : Z) (filename : string) :
  0 < n < 2 ^ 53 ->
  let progress :=
    "[" +:+ number_toString w (of_Z n) +:+ "/" +:+ number_toString w (of_Z n) +:+ "] " +:+
    number_toString w (of_Z 100) +:+ "%" in
  formatProgress w (of_Z n) (of_Z n) filename =
  if String.eqb filename EmptyString then progress else progress +:+ " " +:+ filename.
Proof.
  intros Hn progress. unfold formatProgress.
  rewrite num_div_of_Z_self by exact Hn.
  rewrite num_mul_one_of_Z by lia.
  change (Math_round (of_Z 100)) with (of_Z 100). reflexivity.
Qed.

Lemma formatProgress_complete_witness :
  let progress :=
    "[" +:+ number_toString white_world (of_Z 3) +:+ "/" +:+
    number_toString white_world (of_Z 3) +:+ "] " +:+
    number_toString white_world (of_Z 100) +:+ "%" in
  formatProgress white_world (of_Z 3) (of_Z 3) "cat.png" =
  if String.eqb "cat.png" EmptyString then progress else progress +:+ " " +:+ "cat.png".
Proof. apply (formatProgress_complete white_world 3 "cat.png"). lia. Defined.

(** * The registry listing *)

(** X15. [getCharsetInfo] lists the registered charsets in registry
    order, each with the glyph string [getCharset] returns for its name;
    the reported [length] is that of the trimmed preview, which drops the
    trailing space glyph of every charset but [classic] and so is one less
    than the number of glyphs the mapper uses. *)
Theorem getCharsetInfo_entries :
  map cs_name getCharsetInfo = getAvailableCharsets /\
  Forall (fun i =>
            getCharset (cs_name i) = Ok (CsString (cs_chars i)) /\
            cs_length i = Z.of_nat (length (cs_preview i)) /\
            cs_chars i = cs_preview i ++ (if String.eqb (cs_name i) "classic" then [] else [32]))
         getCharsetInfo.
Proof.
  split; [reflexivity|].
  unfold getCharsetInfo, CHARSETS. cbn [map].
  repeat (apply Forall_cons; split; [split; [reflexivity | split; reflexivity]|]).
  apply Forall_nil. exact I.
Qed.

(** * Batch conversion *)

Lemma convertAndSave_returns `{MathPow} (w : World) (input : Input) (outputPath : string)
    (options : gmap string value) :
  exists r : SaveResult,
    convertAndSave w input outputPath options = Ok r /\
    inputFile r = input_label input /\ outputFile r = outputPath.
Proof.
  unfold convertAndSave.
  destruct (convertToAscii w input options) as [art|e]; cbn [mbind result_bind try_catch];
    [|eexists; split; [reflexivity | split; reflexivity]].
  destruct (saveToFile w art outputPath) as [u|e]; cbn [mbind result_bind try_catch];
    [|eexists; split; [reflexivity | split; reflexivity]].
  destruct (fs_stat_size w outputPath) as [size|e]; cbn [mbind result_bind try_catch];
    eexists; (split; [reflexivity | split; reflexivity]).
Qed.

Lemma generateOutputPath_ready (w : World) (p : Paths) (inputFile : string)
    (outputDir : option value) :
  outputDir_ready p outputDir ->
  generateOutputPath w p inputFile outputDir "ascii" =
  Ok (path_join p (output_directory p outputDir inputFile)
        (path_basename_ext p inputFile (path_extname w inputFile) +:+ ".ascii.txt")).
Proof.
  unfold generateOutputPath, output_directory. intros [Hf | (d & -> & _)].
  - rewrite Hf. destruct outputDir as [[| | | |d|]|]; try reflexivity.
    cbn [ToBoolean] in Hf. destruct (String.eqb d ""); [reflexivity | discriminate].
  - cbn [ToBoolean]. destruct (String.eqb d ""); reflexivity.
Qed.

Lemma ensure_ready (p : Paths) (outputDir : option value) :
  outputDir_ready p outputDir ->
  (if ToBoolean outputDir
   then match outputDir with
        | Some v => ensureDir p v
        | None => Ok tt
        end
   else Ok tt) = Ok tt.
Proof.
  intros [-> | (d & -> & He)]; [reflexivity|].
  destruct (ToBoolean (Some (VString d))); [exact He | reflexivity].
Qed.

Section Loop.

Context `{MathPow}.
Variables (w : World) (p : Paths) (env : nat -> World).
Variables (outputDir : option value) (convertOptions : gmap string value) (total : Z).
Hypothesis Hready : outputDir_ready p outputDir.

(** The loop adds one result per file, in order, and never throws: the
    result of file [j] is what [convertAndSave] resolves to for it. *)
Lemma batch_loop_results (files : list string) (i : nat) (results : list BatchResult) :
  exists rs : list BatchResult,
    batch_loop w p env outputDir convertOptions total i files results = Ok (results ++ rs) /\
    length rs = length files /\
    forall (j : nat) (f : string), files !! j = Some f ->
      exists r, rs !! j = Some r /\
        convertAndSave (env (i + j)%nat) (InPath f)
          (path_join p (output_directory p outputDir f)
             (path_basename_ext p f (path_extname w f) +:+ ".ascii.txt"))
          convertOptions = Ok (saved r) /\
        progress r =
          formatProgress w (of_Z (Z.of_nat (i + j) + 1)) (of_Z total) (path_basename p f).
Proof.
  revert i results. induction files as [|f files IH]; intros i results.
  - exists []. cbn [batch_loop]. rewrite app_nil_r. split; [reflexivity|].
    split; [reflexivity|]. intros j f Hj. rewrite lookup_nil in Hj. discriminate.
  - cbn [batch_loop]. rewrite (generateOutputPath_ready w p f outputDir Hready).
    cbn [mbind result_bind]. rewrite (ensure_ready p outputDir Hready). cbn [mbind result_bind].
    destruct (convertAndSave_returns (env i) (InPath f)
                (path_join p (output_directory p outputDir f)
                   (path_basename_ext p f (path_extname w f) +:+ ".ascii.txt"))
                convertOptions) as (r & Hr & _).
    rewrite Hr. cbn [mbind result_bind].
    destruct (IH (S i)
                (results ++
                 [{| saved := r;
                     progress := formatProgress w (of_Z (Z.of_nat i + 1)) (of_Z total)
                                   (path_basename p f) |}]))
      as (rs & Hloop & Hlen & Hall).
    exists ({| saved := r;
               progress := formatProgress w (of_Z (Z.of_nat i + 1)) (of_Z total)
                             (path_basename p f) |} :: rs).
    split; [rewrite Hloop, <- app_assoc; reflexivity|].
    split; [cbn [length]; rewrite Hlen; reflexivity|].
    intros [|j] g Hj.
    + cbn in Hj. injection Hj as <-. eexists. split; [reflexivity|].
      cbn [saved progress]. rewrite Nat.add_0_r. split; [exact Hr | reflexivity].
    + cbn in Hj. destruct (Hall j g Hj) as (r' & Hr' & Hc & Hp).
      exists r'. split; [exact Hr'|].
      replace (i + S j)%nat with (S i + j)%nat by lia. split; [exact Hc | exact Hp].
Qed.

End Loop.

(** X16. When at least one resolved file has a supported extension and
    [outputDir] is falsy or names a directory [ensureDir] accepts,
    [batchConvert] does not throw: it returns one result per supported
    file, in order, each being what [convertAndSave] resolves to for that
    file and its generated output path, with the progress text of its
    position.  A file whose conversion fails yields a failure result and
    does not stop the batch. *)
Theorem batchConvert_results `{MathPow} (w : World) (p : Paths) (env : nat -> World)
    (this : gmap string value) (inputPattern : Pattern) (options : gmap string value)
    (found : list string) :
  match inputPattern with
  | PatArray files => files = found
  | PatString pattern => glob p pattern = Ok found
  | PatOther => False
  end ->
  List.filter (isSupportedImageFormat w) found <> [] ->
  outputDir_ready p ((options ∪ this) !! "outputDir") ->
  let inputFiles := List.filter (isSupportedImageFormat w) found in
  let outputDir := (options ∪ this) !! "outputDir" in
  exists results : list BatchResult,
    batchConvert w p env this inputPattern options = Ok results /\
    length results = length inputFiles /\
    forall (j : nat) (f : string), inputFiles !! j = Some f ->
      exists r, results !! j = Some r /\
        convertAndSave (env j) (InPath f)
          (path_join p (output_directory p outputDir f)
             (path_basename_ext p f (path_extname w f) +:+ ".ascii.txt"))
          (delete "outputDir" (options ∪ this)) = Ok (saved r) /\
        inputFile (saved r) = f /\
        progress r =
          formatProgress w (of_Z (Z.of_nat j + 1)) (of_Z (Z.of_nat (length inputFiles)))
            (path_basename p f).
Proof.
  intros Hpat Hne Hready inputFiles outputDir. unfold batchConvert.
  assert (Hres : match inputPattern with
                 | PatArray files => Ok files
                 | PatString pattern => glob p pattern
                 | PatOther => Throw (Error "Input must be a string pattern or array of file paths")
                 end = Ok found).
  { destruct inputPattern as [files|pattern|]; [rewrite Hpat; reflexivity | exact Hpat | destruct Hpat]. }
  rewrite Hres. cbn [mbind result_bind]. fold inputFiles. fold outputDir.
  destruct (Z.eqb_spec (Z.of_nat (length inputFiles)) 0) as [H0|_].
  { exfalso. apply Hne. fold inputFiles. destruct inputFiles; [reflexivity | cbn in H0; lia]. }
  destruct (batch_loop_results w p env outputDir (delete "outputDir" (options ∪ this))
              (Z.of_nat (length inputFiles)) Hready inputFiles 0%nat [])
    as (rs & Hloop & Hlen & Hall).
  exists rs. split; [exact Hloop|]. split; [exact Hlen|].
  intros j f Hj. destruct (Hall j f Hj) as (r & Hr & Hc & Hp).
  exists r. split; [exact Hr|]. cbn [Nat.add] in Hc, Hp. split; [exact Hc|]. split; [|exact Hp].
  destruct (convertAndSave_returns (env j) (InPath f)
              (path_join p (output_directory p outputDir f)
                 (path_basename_ext p f (path_extname w f) +:+ ".ascii.txt"))
              (delete "outputDir" (options ∪ this))) as (r0 & Hr0 & Hin & _).
  rewrite Hr0 in Hc. injection Hc as <-. exact Hin.
Qed.

Lemma batchConvert_results_witness :
  let inputFiles := List.filter (isSupportedImageFormat batch_world) ["a.png"; "notes.txt"; "b.png"] in
  let outputDir := (({["width" := VNumber (of_Z 10)]} : gmap string value) ∪ sample_options) !! "outputDir" in
  exists results : list BatchResult,
    batchConvert batch_world sample_paths (fun _ => batch_world) sample_options (PatString "*")
      {["width" := VNumber (of_Z 10)]} = Ok results /\
    length results = length inputFiles /\
    forall (j : nat) (f : string), inputFiles !! j = Some f ->
      exists r, results !! j = Some r /\
        convertAndSave batch_world (InPath f)
          (path_join sample_paths (output_directory sample_paths outputDir f)
             (path_basename_ext sample_paths f (path_extname batch_world f) +:+ ".ascii.txt"))
          (delete "outputDir" ({["width" := VNumber (of_Z 10)]} ∪ sample_options)) = Ok (saved r) /\
        inputFile (saved r) = f /\
        progress r =
          formatProgress batch_world (of_Z (Z.of_nat j + 1)) (of_Z (Z.of_nat (length inputFiles)))
            (path_basename sample_paths f).
Proof.
  apply (batchConvert_results batch_world sample_paths (fun _ => batch_world) sample_options
           (PatString "*") {["width" := VNumber (of_Z 10)]} ["a.png"; "notes.txt"; "b.png"]).
  - reflexivity.
  - vm_compute. discriminate.
  - left. vm_compute. reflexivity.
Defined.

(** X17. When none of the resolved files has a supported extension
    [batchConvert] throws [No supported image files found]; a pattern that
    is neither an array nor a string throws the input error. *)
Theorem batchConvert_nothing_supported `{MathPow} (w : World) (p : Paths) (env : nat -> World)
    (this : gmap string value) (inputPattern : Pattern) (options : gmap string value)
    (found : list string) :
  match inputPattern with
  | PatArray files => files = found
  | PatString pattern => glob p pattern = Ok found
  | PatOther => False
  end ->
  forallb (fun f => negb (isSupportedImageFormat w f)) found = true ->
  batchConvert w p env this inputPattern options = Throw (Error "No supported image files found") /\
  batchConvert w p env this PatOther options =
    Throw (Error "Input must be a string pattern or array of file paths").
Proof.
  intros Hpat Hnone. split; [|reflexivity]. unfold batchConvert.
  assert (Hres : match inputPattern with
                 | PatArray files => Ok files
                 | PatString pattern => glob p pattern
                 | PatOther => Throw (Error "Input must be a string pattern or array of file paths")
                 end = Ok found).
  { destruct inputPattern as [files|pattern|]; [rewrite Hpat; reflexivity | exact Hpat | destruct Hpat]. }
  rewrite Hres. cbn [mbind result_bind].
  assert (Hf : List.filter (isSupportedImageFormat w) found = []).
  { clear Hres Hpat. induction found as [|f found IH]; [reflexivity|].
    cbn [forallb] in Hnone. apply andb_prop in Hnone as [Hf Hrest].
    cbn [List.filter]. destruct (isSupportedImageFormat w f); [discriminate|].
    apply IH. exact Hrest. }
  rewrite Hf. reflexivity.
Qed.

Lemma batchConvert_nothing_supported_witness :
  batchConvert batch_world sample_paths (fun _ => batch_world) sample_options
    (PatArray ["notes.txt"; "README"]) ∅ = Throw (Error "No supported image files found") /\
  batchConvert batch_world sample_paths (fun _ => batch_world) sample_options PatOther ∅ =
    Throw (Error "Input must be a string pattern or array of file paths").
Proof.
  apply (batchConvert_nothing_supported batch_world sample_paths (fun _ => batch_world)
           sample_options (PatArray ["notes.txt"; "README"]) ∅ ["notes.txt"; "README"]).
  - reflexivity.
  - vm_compute. reflexivity.
Defined.

(** X18. When [outputDir] is a non-empty string and creating it fails
    with an error that [ensureDir] does not swallow, [batchConvert] throws
    that error and returns no results, although no conversion failure
    would stop it. *)
Theorem batchConvert_mkdir_failure `{MathPow} (w : World) (p : Paths) (env : nat -> World)
    (this : gmap string value) (files : list string) (options : gmap string value)
    (d : string) (e : error) :
  List.filter (isSupportedImageFormat w) files <> [] ->
  (options ∪ this) !! "outputDir" = Some (VString d) -> d <> "" ->
  ensureDir p (VString d) = Throw e ->
  batchConvert w p env this (PatArray files) options = Throw e.
Proof.
  intros Hne Hdir Hd He. unfold batchConvert. cbn [mbind result_bind].
  destruct (List.filter (isSupportedImageFormat w) files) as [|f rest] eqn:Ef; [contradiction|].
  destruct (Z.eqb_spec (Z.of_nat (length (f :: rest))) 0) as [H0|_]; [cbn in H0; lia|].
  cbn [batch_loop]. rewrite Hdir. unfold generateOutputPath. cbn [ToBoolean].
  destruct (String.eqb_spec d "") as [->|_]; [contradiction|].
  cbn [negb mbind result_bind]. rewrite He. reflexivity.
Qed.

Lemma batchConvert_mkdir_failure_witness :
  batchConvert batch_world readonly_paths (fun _ => batch_world) sample_options
    (PatArray ["a.png"]) {["outputDir" := VString "out"]} =
  Throw (Error "EACCES: permission denied, mkdir").
Proof.
  apply (batchConvert_mkdir_failure batch_world readonly_paths (fun _ => batch_world)
           sample_options ["a.png"] {["outputDir" := VString "out"]} "out").
  - vm_compute. discriminate.
  - vm_compute. reflexivity.
  - discriminate.
  - reflexivity.
Defined.

(** * NaN passes the validator *)

(** X19. NaN passes the validator: if options validate, they still
    validate with [width], [contrast] or [aspectRatio] replaced by NaN, and
    the NaN is returned in the field. *)
Theorem validateOptions_accepts_NaN (options r : gmap string value) (k : string) :
  k = "width" \/ k = "contrast" \/ k = "aspectRatio" ->
  validateOptions options = Ok r ->
  validateOptions (<[k := VNumber NaN]> options) = Ok (<[k := VNumber NaN]> r).
Proof.
  intros Hk Hv. pose proof (validateOptions_merge options r Hv) as Hm. subst r.
  unfold validateOptions in *. rewrite <- insert_union_l.
  destruct (rejected ((options ∪ defaults) !! "width") (of_Z 10) (of_Z 500)) eqn:Hw;
    [discriminate|].
  destruct (rejected ((options ∪ defaults) !! "contrast") lit_0_1 lit_5_0) eqn:Hc;
    [discriminate|].
  destruct (rejected ((options ∪ defaults) !! "aspectRatio") lit_0_1 lit_2_0) eqn:Ha;
    [discriminate|].
  destruct Hk as [-> | [-> | ->]].
  - rewrite lookup_insert_eq. rewrite !lookup_insert_ne by discriminate.
    rewrite Hc, Ha. reflexivity.
  - rewrite lookup_insert_eq. rewrite !lookup_insert_ne by discriminate.
    rewrite Hw, Ha. reflexivity.
  - rewrite lookup_insert_eq. rewrite !lookup_insert_ne by discriminate.
    rewrite Hw, Hc. reflexivity.
Qed.

Lemma validateOptions_accepts_NaN_witness :
  validateOptions (<["width" := VNumber NaN]> sample_options) =
  Ok (<["width" := VNumber NaN]> sample_options).
Proof.
  apply (validateOptions_accepts_NaN sample_options sample_options "width").
  - left. reflexivity.
  - exact validateOptions_sample.
Defined.

(** * An unknown charset *)

(** X20. An unregistered charset name is detected after validation and
    the input checks, before the image library is consulted, and reported
    as [Image conversion failed: Unknown charset: ...] with the list of
    available names, provided the message does not contain one of the two
    phrases the handler looks for. *)
Theorem convertToAscii_unknown_charset `{MathPow} (w : World) (input : Input)
    (options opts : gmap string value) :
  validateOptions options = Ok opts ->
  input_accepted w input ->
  let name := ToString w (opts !! "charset") in
  CHARSETS_get name = None ->
  includes (message (unknown_charset name)) "Input file is missing" = false ->
  includes (message (unknown_charset name)) "Input file contains unsupported image format" = false ->
  convertToAscii w input options =
  Throw (Error ("Image conversion failed: Unknown charset: " +:+ name +:+
                ". Available: detailed, blocks, classic, simple, minimal, numbers, binary, retro")).
Proof.
  intros Hv Hin name Hget Hm1 Hm2. unfold convertToAscii. rewrite Hv. cbn [mbind result_bind].
  assert (Hpre : match input with
                 | InPath p =>
                     if negb (fileExists w p) then Throw (Error ("File not found: " +:+ p))
                     else if negb (isSupportedImageFormat w p)
                          then Throw (Error ("Unsupported image format: " +:+ p))
                          else Ok tt
                 | InBuffer _ => Ok tt
                 end = Ok tt).
  { destruct input as [p|b]; [|reflexivity]. destruct Hin as [-> ->]. reflexivity. }
  rewrite Hpre. cbn [mbind result_bind]. fold name.
  rewrite (getCharset_unregistered name Hget). cbn [mbind result_bind try_catch].
  rewrite Hm1, Hm2. clearbody name. clear. unfold unknown_charset. cbn [message].
  reflexivity.
Qed.

Lemma convertToAscii_unknown_charset_witness :
  convertToAscii white_world (InBuffer []) {["charset" := VString "nope"]} =
  Throw (Error ("Image conversion failed: Unknown charset: " +:+
                ToString white_world
                  ((({["charset" := VString "nope"]} : gmap string value) ∪ defaults) !! "charset") +:+
                ". Available: detailed, blocks, classic, simple, minimal, numbers, binary, retro")).
Proof.
  apply (convertToAscii_unknown_charset white_world (InBuffer [])
           {["charset" := VString "nope"]} ({["charset" := VString "nope"]} ∪ defaults)).
  - vm_compute. reflexivity.
  - exact I.
  - vm_compute. reflexivity.
  - vm_compute. reflexivity.
  - vm_compute. reflexivity.
Defined.

(** A charset name that contains the image library's phrase for a missing
    file is reported as an unreadable image. *)
Example unknown_charset_misreported :
  convertToAscii white_world (InPath "cat.png") {["charset" := VString "Input file is missing"]} =
  Throw (Error "Unable to read image file: cat.png").
Proof. vm_compute. reflexivity. Qed.

(** * Quotients in the unit interval *)

(** Shifting from any location: what is kept stays below the next mantissa
    of the start. *)
Lemma shr_fexp_loc (m e : Z) (l : location) :
  0 <= m ->
  let n := fexp (Zdigits2 m + e) - e in
  exists mrs, shr_fexp prec emax m e l = (mrs, e + Z.max 0 n) /\
              shr_inv (m + 1) (Z.max 0 n) mrs.
Proof.
  intros Hm n. unfold shr_fexp, shr. fold fexp. fold n.
  assert (I0 : shr_inv (m + 1) 0 (shr_record_of_loc m l)).
  { unfold shr_inv. destruct l as [|[| |]]; cbn [shr_record_of_loc shr_m]; lia. }
  destruct n as [|p|p] eqn:En.
  - eexists. split; [rewrite Z.add_0_r; reflexivity | exact I0].
  - eexists. split; [replace (Z.max 0 (Z.pos p)) with (Z.pos p) by lia; reflexivity|].
    replace (Z.max 0 (Z.pos p)) with (0 + Z.pos p) by lia.
    apply (iter_pos_inv shr_1 (shr_inv (m + 1)));
      [intros; apply shr_1_inv; assumption | lia | exact I0].
  - eexists. split; [replace (Z.max 0 (Z.neg p)) with 0 by lia; rewrite Z.add_0_r; reflexivity|].
    exact I0.
Qed.

(** Rounding a value that lies, with its whole last unit, below a canonical
    double stays below that double, wherever the value sits in the unit. *)
Lemma binary_round_aux_le_loc (mx ex : Z) (lx : location) (mk ek : Z) :
  0 < mx -> 0 < mk ->
  fexp (Zdigits2 mk + ek) = ek ->
  Zdigits2 mk + ek <= emax - prec + 1 ->
  ex <= ek ->
  (F2R (mx + 1) ex <= F2R mk ek)%R ->
  binary_round_aux prec emax false mx ex lx = S754_zero false \/
  exists m e, binary_round_aux prec emax false mx ex lx = S754_finite false m e /\
              (F2R (Zpos m) e <= F2R mk ek)%R.
Proof.
  intros Hmx Hmk Hcan Hfin Hex Hle. unfold binary_round_aux.
  assert (Hle0 : (F2R mx ex <= F2R mk ek)%R).
  { eapply Rle_trans; [|exact Hle]. apply F2R_le_mono. lia. }
  destruct (shr_fexp_loc mx ex lx) as (mrs1 & E1 & (P1 & L1 & S1)); [lia|].
  rewrite E1. set (k1 := Z.max 0 (fexp (Zdigits2 mx + ex) - ex)) in *.
  pose proof (round_nearest_even_le (shr_m mrs1) (loc_of_shr_record mrs1)) as [R1 R2].
  pose proof (round_nearest_even_bounds mrs1) as [_ R3]. cbv zeta in R3.
  set (m2 := round_nearest_even (shr_m mrs1) (loc_of_shr_record mrs1)) in *.
  assert (Hk1 : 0 <= k1) by (unfold k1; lia).
  assert (Hek : ex + k1 <= ek).
  { destruct (Z_lt_le_dec 0 (fexp (Zdigits2 mx + ex) - ex)) as [Hn|Hn].
    - replace (ex + k1) with (fexp (Zdigits2 mx + ex)) by (unfold k1; lia).
      rewrite <- Hcan. apply fexp_mono. apply mag_le; assumption.
    - unfold k1. lia. }
  assert (Hbound : F2R mk ek = F2R (mk * 2 ^ (ek - (ex + k1))) (ex + k1)).
  { rewrite F2R_shift by lia. f_equal. lia. }
  assert (A : (F2R m2 (ex + k1) <= F2R mk ek)%R).
  { destruct (shr_inexact mrs1) eqn:Ein.
    - specialize (S1 eq_refl).
      assert (Hlt : (F2R (shr_m mrs1) (ex + k1) < F2R (mk * 2 ^ (ek - (ex + k1))) (ex + k1))%R).
      { rewrite <- Hbound. rewrite <- (F2R_shift (shr_m mrs1) ex k1) by exact Hk1.
        eapply Rlt_le_trans; [|exact Hle]. apply F2R_lt_mono. exact S1. }
      apply F2R_lt_inv in Hlt. rewrite Hbound. apply F2R_le_mono. lia.
    - rewrite (R3 eq_refl). rewrite <- (F2R_shift (shr_m mrs1) ex k1) by exact Hk1.
      eapply Rle_trans; [|exact Hle]. apply F2R_le_mono. exact L1. }
  destruct (shr_fexp_exact m2 (ex + k1)) as (mrs2 & E2 & (P2 & L2 & S2) & X2); [lia|].
  rewrite E2. set (k2 := Z.max 0 (fexp (Zdigits2 m2 + (ex + k1)) - (ex + k1))) in *.
  assert (B : (F2R (shr_m mrs2) (ex + k1 + k2) <= F2R mk ek)%R).
  { rewrite <- F2R_shift by (unfold k2; lia). eapply Rle_trans; [|exact A].
    apply F2R_le_mono. exact L2. }
  destruct (shr_m mrs2) as [|m3|m3] eqn:Em3; [left; reflexivity | | lia].
  right. exists m3, (ex + k1 + k2).
  assert (Hexp : ex + k1 + k2 <= emax - prec).
  { assert (U : (F2R mk ek < powerRZ 2 (Zdigits2 mk + ek))%R).
    { rewrite powerRZ_2_add, <- IZR_pow2 by apply Zdigits2_nonneg.
      apply F2R_lt_mono, Zdigits2_bounds. exact Hmk. }
    assert (L : (powerRZ 2 (ex + k1 + k2) <= F2R (Z.pos m3) (ex + k1 + k2))%R).
    { unfold F2R. pose proof (powerRZ_2_pos (ex + k1 + k2)).
      assert (1 <= IZR (Z.pos m3))%R by (apply IZR_le; lia). nra. }
    assert (Hlt : (powerRZ 2 (ex + k1 + k2) < powerRZ 2 (Zdigits2 mk + ek))%R) by lra.
    apply powerRZ_2_lt_inv in Hlt. lia. }
  apply Z.leb_le in Hexp. rewrite Hexp. split; [reflexivity | exact B].
Qed.

Lemma new_location_exact (nb_steps k : Z) :
  new_location nb_steps k = if k =? 0 then loc_Exact else new_location nb_steps k.
Proof.
  unfold new_location, new_location_even, new_location_odd.
  destruct (Z.even nb_steps); destruct (k =? 0); reflexivity.
Qed.

(** A count divided by a total it does not exceed is in the unit interval. *)
Lemma num_div_unit (a b : Z) :
  0 < a <= b -> b < 2 ^ 53 -> unit_interval (num_div (of_Z a) (of_Z b)).
Proof.
  intros Ha Hb. destruct a as [|ka|ka]; [lia | | lia]. destruct b as [|kb|kb]; [lia | | lia].
  destruct (of_Z_normal ka ltac:(lia)) as (ma & ea & -> & Va & Da & Ea).
  destruct (of_Z_normal kb ltac:(lia)) as (mb & eb & -> & Vb & Db & Eb).
  assert (Hab : (F2R (Zpos ma) ea <= F2R (Zpos mb) eb)%R).
  { rewrite Va, Vb. apply IZR_le. lia. }
  assert (Hee : ea <= eb).
  { pose proof (mag_le (Zpos ma) ea (Zpos mb) eb ltac:(lia) ltac:(lia) Hab). lia. }
  assert (Hm : Zpos ma <= Zpos mb * 2 ^ (eb - ea)).
  { apply (F2R_le_inv _ _ ea). rewrite F2R_shift by lia.
    replace (ea + (eb - ea)) with eb by lia. exact Hab. }
  pose proof (Zdigits2_bounds (Zpos ma) ltac:(lia)) as [La Ua]. rewrite Da in La, Ua.
  pose proof (Zdigits2_bounds (Zpos mb) ltac:(lia)) as [Lb Ub]. rewrite Db in Lb, Ub.
  change (2 ^ (53 - 1)) with (2 ^ 52) in La, Lb.
  unfold num_div. cbn [SFdiv xorb]. unfold SFdiv_core_binary. rewrite Da, Db.
  replace (53 + ea - (53 + eb)) with (ea - eb) by lia.
  assert (He' : Z.min (SpecFloat.fexp prec emax (ea - eb)) (ea - eb) = ea - eb - 53).
  { unfold SpecFloat.fexp, emin, prec, emax. lia. }
  rewrite He'. replace (ea - eb - (ea - eb - 53)) with 53 by lia. cbv beta iota.
  rewrite Z.shiftl_mul_pow2 by lia.
  pose proof (Z_div_mod (Zpos ma * 2 ^ 53) (Zpos mb) ltac:(lia)) as DM.
  destruct (Z.div_eucl (Zpos ma * 2 ^ 53) (Zpos mb)) as [q r]. destruct DM as [Hq Hr].
  set (e' := ea - eb - 53) in *.
  assert (P53 : 0 < 2 ^ 53) by lia.
  assert (Pd : 0 < 2 ^ (eb - ea)) by (apply Z.pow_pos_nonneg; lia).
  assert (Hpow : 2 ^ (- e') = 2 ^ (eb - ea) * 2 ^ 53).
  { rewrite <- Z.pow_add_r by lia. f_equal. unfold e'. lia. }
  assert (Hm' : Zpos ma * 2 ^ 53 <= Zpos mb * 2 ^ (- e')).
  { rewrite Hpow, Z.mul_assoc. apply Z.mul_le_mono_nonneg_r; lia. }
  assert (Hq52 : 2 ^ 52 <= q).
  { destruct (Z_le_gt_dec (2 ^ 52) q) as [H|H]; [exact H|]. exfalso.
    assert (H1 : (q + 1) * Zpos mb <= 2 ^ 52 * Zpos mb) by (apply Z.mul_le_mono_nonneg_r; lia).
    assert (H2 : 2 ^ 52 * Zpos mb < 2 ^ 52 * 2 ^ 53) by (apply Z.mul_lt_mono_pos_l; lia).
    assert (H3 : 2 ^ 52 * 2 ^ 53 <= Zpos ma * 2 ^ 53) by (apply Z.mul_le_mono_nonneg_r; lia).
    lia. }
  assert (Hone : F2R (2 ^ (- e')) e' = F2R 4503599627370496 (-52)).
  { rewrite F2R_one. unfold F2R. rewrite IZR_pow2 by (unfold e'; lia).
    rewrite <- powerRZ_2_add. replace (- e' + e') with 0 by lia. reflexivity. }
  assert (Hqle : q <= 2 ^ (- e')).
  { destruct (Z_le_gt_dec q (2 ^ (- e'))) as [H|H]; [exact H|]. exfalso.
    assert (H1 : (2 ^ (- e') + 1) * Zpos mb <= q * Zpos mb)
      by (apply Z.mul_le_mono_nonneg_r; lia).
    lia. }
  assert (Hres : binary_round_aux prec emax false q e' (new_location (Zpos mb) r) = S754_zero false \/
                 exists m e, binary_round_aux prec emax false q e' (new_location (Zpos mb) r)
                             = S754_finite false m e /\
                             (F2R (Zpos m) e <= F2R 4503599627370496 (-52))%R).
  { rewrite new_location_exact. destruct (Z.eqb_spec r 0) as [Hr0|Hr0].
    - apply binary_round_aux_le; [lia | lia | exact fexp_one | unfold emax, prec; cbn; lia |].
      rewrite <- Hone. apply F2R_le_mono. exact Hqle.
    - apply binary_round_aux_le_loc;
        [lia | lia | exact fexp_one | unfold emax, prec; cbn; lia | unfold e'; lia |].
      rewrite <- Hone. apply F2R_le_mono.
      assert (Hlt : q < 2 ^ (- e')).
      { destruct (Z_lt_le_dec q (2 ^ (- e'))) as [H|H]; [exact H|]. exfalso.
        assert (q = 2 ^ (- e')) by lia. subst q. lia. }
      lia. }
  destruct Hres as [-> | (m & e & -> & Hle)]; [left; reflexivity|].
  right. exists m, e. split; [reflexivity|]. rewrite <- F2R_one. exact Hle.
Qed.

(** Rounding a non-negative value of at most [K] to the nearest integer
    gives an integer between 0 and [K]. *)
Lemma Math_round_bounds (m : positive) (e K : Z) :
  0 <= K < 2 ^ 53 ->
  (F2R (Zpos m) e <= IZR K)%R ->
  exists r, 0 <= r <= K /\ integer_value (Math_round (S754_finite false m e)) r.
Proof.
  intros HK Hle. unfold Math_round. destruct (Z.leb_spec 0 e) as [He|He].
  - exists (Zpos m * 2 ^ e).
    assert (Hv : F2R (Zpos m) e = IZR (Zpos m * 2 ^ e)).
    { unfold F2R. rewrite mult_IZR, IZR_pow2 by lia. reflexivity. }
    split; [|exact Hv]. rewrite Hv in Hle. apply le_IZR in Hle.
    assert (0 < 2 ^ e) by (apply Z.pow_pos_nonneg; lia). nia.
  - cbn [cond_Zopp].
    assert (P : 0 < 2 ^ (- e)) by (apply Z.pow_pos_nonneg; lia).
    assert (Hm : Zpos m <= K * 2 ^ (- e)).
    { apply (F2R_le_inv _ _ e). rewrite F2R_shift by lia.
      replace (e + - e) with 0 by lia. unfold F2R at 2. cbn [powerRZ]. rewrite Rmult_1_r.
      exact Hle. }
    assert (P2 : 2 ^ (- e + 1) = 2 * 2 ^ (- e)) by (rewrite Z.pow_add_r by lia; lia).
    set (r := (2 * Zpos m + 2 ^ (- e)) / 2 ^ (- e + 1)).
    assert (Hr : 0 <= r <= K).
    { unfold r. split; [apply Z.div_pos; lia|].
      assert (r < K + 1); [|lia]. unfold r. apply Z.div_lt_upper_bound; [lia|].
      rewrite P2. nia. }
    exists r. split; [exact Hr|].
    destruct (Z.eqb_spec r 0) as [->|Hne]; [reflexivity|].
    destruct r as [|kr|kr]; [contradiction | | lia].
    destruct (of_Z_normal kr ltac:(lia)) as (mr & er & -> & Vr & _). exact Vr.
Qed.

(** X21. For counts with [0 < current <= total] (below 2^53, as every
    array index is) the percentage [formatProgress] prints is an integer
    between 0 and 100: neither the division nor the multiplication by 100
    rounds above its exact bound. *)
Theorem formatProgress_percentage (w : World) (current total : Z) (filename : string) :
  0 < current <= total -> total < 2 ^ 53 ->
  exists (percentage : number) (r : Z),
    integer_value percentage r /\ 0 <= r <= 100 /\
    formatProgress w (of_Z current) (of_Z total) filename =
    let progress :=
      "[" +:+ number_toString w (of_Z current) +:+ "/" +:+ number_toString w (of_Z total) +:+
      "] " +:+ number_toString w percentage +:+ "%" in
    if String.eqb filename EmptyString then progress else progress +:+ " " +:+ filename.
Proof.
  intros Hc Ht.
  exists (Math_round (num_mul (num_div (of_Z current) (of_Z total)) (of_Z 100))).
  assert (Hr : exists r, 0 <= r <= 100 /\
                 integer_value
                   (Math_round (num_mul (num_div (of_Z current) (of_Z total)) (of_Z 100))) r).
  { pose proof (num_div_unit current total Hc Ht) as Hu.
    change (of_Z 100) with (S754_finite false 7036874417766400 (-46)).
    destruct (num_mul_unit_le (num_div (of_Z current) (of_Z total)) 7036874417766400 (-46) Hu)
      as [-> | (m & e & -> & Hle)];
      [reflexivity | unfold emax, prec; cbn; lia | exists 0; split; [lia | reflexivity] |].
    apply Math_round_bounds; [lia|].
    replace (IZR 100) with (F2R 7036874417766400 (-46)); [exact Hle|].
    change 7036874417766400 with (100 * 2 ^ 46). rewrite F2R_shift by lia.
    change (-46 + 46) with 0. unfold F2R. cbn [powerRZ]. ring. }
  destruct Hr as (r & Hr & Hv). exists r. split; [exact Hv|]. split; [exact Hr|]. reflexivity.
Qed.

Lemma formatProgress_percentage_witness :
  exists (percentage : number) (r : Z),
    integer_value percentage r /\ 0 <= r <= 100 /\
    formatProgress white_world (of_Z 1) (of_Z 3) "cat.png" =
    let progress :=
      "[" +:+ number_toString white_world (of_Z 1) +:+ "/" +:+
      number_toString white_world (of_Z 3) +:+
      "] " +:+ number_toString white_world percentage +:+ "%" in
    if String.eqb "cat.png" EmptyString then progress else progress +:+ " " +:+ "cat.png".
Proof. apply (formatProgress_percentage white_world 1 3 "cat.png"); lia. Defined.
